(** * loam_velodyne: laser odometry node and transform maintenance node

    A shallow embedding of [src/lib/LaserOdometry.cpp] and
    [src/lib/TransformMaintenance.cpp], with the properties of the
    stream synchronisation gate, the throttled publisher, the driver
    step, the frame-convention adapter and the two [setup] routines. *)

From Stdlib Require Import ZArith QArith Qabs Bool List Lia String.
From Stdlib Require Import Reals Lra.
From Stdlib Require PrimFloat Floats Uint63.
From coqutil Require Import Datatypes.RecordSetters.
Import ListNotations.
Import TriangleBracketNotations.
Close Scope Q_scope.
Close Scope R_scope.
Open Scope Z_scope.

(** ** ROS time

    [ros::Time] is a pair of unsigned second and nanosecond counters; the
    difference of two of them is a [ros::Duration], a signed second
    counter and a nanosecond counter in [0, 10^9), and [toSec] reads it
    in seconds as a [double].  Stamps and durations are kept as their
    nanosecond totals ([toNSec]); the arithmetic of [toSec] is the
    binary64 arithmetic of the primitive floats. *)
Module ros.
Import PrimFloat.

Definition Time := Z.
Definition Duration := Z.

(** [Time::operator-]. *)
Definition sub (a b : Time) : Duration := (a - b)%Z.

(** The fields [sec] and [nsec] of a [Duration]. *)
Definition sec (d : Duration) : Z := d / 1000000000.
Definition nsec (d : Duration) : Z := d mod 1000000000.

(** The differences a [Duration] can hold: [sec] is a signed 32-bit
    counter, and [Time::operator-] throws on any other difference. *)
Definition fitsDuration (d : Duration) : Prop :=
  - 2 ^ 31 * 1000000000 <= d < 2 ^ 31 * 1000000000.

(** [static_cast<double>] of an [int32_t]. *)
Definition double_of_int (z : Z) : float :=
  if z <? 0 then PrimFloat.opp (PrimFloat.of_uint63 (Uint63.of_Z (- z)))
  else PrimFloat.of_uint63 (Uint63.of_Z z).

(** The literal [1e-9]: the binary64 number nearest to it. *)
Definition nano : float := 0x1.12e0be826d695p-30%float.

(** [Duration::toSec]:
    [static_cast<double>(sec) + 1e-9 * static_cast<double>(nsec)], the
    product and the sum each rounded to binary64. *)
Definition toSec (d : Duration) : float :=
  PrimFloat.add (double_of_int (sec d)) (PrimFloat.mul nano (double_of_int (nsec d))).

(** The number of seconds of a duration as a rational, without
    rounding. *)
Definition seconds (d : Duration) : Q := Qmake d 1000000000.

(** The literal [0.005] of [hasNewData]: the binary64 number nearest to
    it. *)
Definition tolerance : float := 0x1.47ae147ae147bp-8%float.

End ros.

(** [std::fabs] on [double]. *)
Definition fabs (x : PrimFloat.float) : PrimFloat.float := PrimFloat.abs x.

(** ** The tf library, over the reals

    The quaternion, matrix and Euler-angle functions of tf that the two
    nodes call.  [tfScalar] is [double]; angles and quaternion components
    are read as real numbers, with [sin], [cos], [asin] and [atan] of the
    Standard Library, so rounding is left out. *)
Module tf.
Local Open Scope R_scope.

Record Vector3 := mkVector3 { vx : R; vy : R; vz : R }.

(** [tf::Quaternion] and [geometry_msgs::Quaternion]: components
    x, y, z, w in this order. *)
Record Quaternion := mkQuaternion { x : R; y : R; z : R; w : R }.

(** [tf::Matrix3x3]: the rows [m_el[0]], [m_el[1]], [m_el[2]]. *)
Record Matrix3x3 := mkMatrix3x3 { m0 : Vector3; m1 : Vector3; m2 : Vector3 }.

Definition length2 (q : Quaternion) : R :=
  x q * x q + y q * y q + z q * z q + w q * w q.

(** [tfAtan2 y x]: the angle of the point (x, y), in (-PI, PI]. *)
Definition atan2 (b a : R) : R :=
  if Rlt_dec 0 a then atan (b / a)
  else if Rlt_dec a 0 then
    if Rle_dec 0 b then atan (b / a) + PI else atan (b / a) - PI
  else if Rlt_dec 0 b then PI / 2
  else if Rlt_dec b 0 then - (PI / 2)
  else 0.

(** [Matrix3x3::setRotation], as called by the constructor
    [Matrix3x3(const Quaternion&)]. *)
Definition setRotation (q : Quaternion) : Matrix3x3 :=
  let d := length2 q in
  let s := 2 / d in
  let xs := x q * s in let ys := y q * s in let zs := z q * s in
  let wx := w q * xs in let wy := w q * ys in let wz := w q * zs in
  let xx := x q * xs in let xy := x q * ys in let xz := x q * zs in
  let yy := y q * ys in let yz := y q * zs in let zz := z q * zs in
  mkMatrix3x3
    (mkVector3 (1 - (yy + zz)) (xy - wz) (xz + wy))
    (mkVector3 (xy + wz) (1 - (xx + zz)) (yz - wx))
    (mkVector3 (xz - wy) (yz + wx) (1 - (xx + yy))).

(** The test of [Matrix3x3::getEulerYPR] for the pitch singularity:
    [tfFabs(m_el[2].x()) >= 1]. *)
Definition gimbal_locked (m : Matrix3x3) : Prop := 1 <= Rabs (vx (m2 m)).

(** [Matrix3x3::getRPY(roll, pitch, yaw)]: the first solution of
    [getEulerYPR], returned as (roll, pitch, yaw). *)
Definition getRPY (m : Matrix3x3) : R * R * R :=
  if Rle_dec 1 (Rabs (vx (m2 m))) then
    let delta := atan2 (vy (m2 m)) (vz (m2 m)) in
    if Rlt_dec (vx (m2 m)) 0
    then (delta, PI / 2, 0)
    else (delta, - PI / 2, 0)
  else
    let pitch := - asin (vx (m2 m)) in
    let roll := atan2 (vy (m2 m) / cos pitch) (vz (m2 m) / cos pitch) in
    let yaw := atan2 (vx (m1 m) / cos pitch) (vx (m0 m) / cos pitch) in
    (roll, pitch, yaw).

(** [Quaternion::setRPY], behind [createQuaternionFromRPY] and
    [createQuaternionMsgFromRollPitchYaw]. *)
Definition createQuaternionFromRPY (roll pitch yaw : R) : Quaternion :=
  let halfYaw := yaw * / 2 in
  let halfPitch := pitch * / 2 in
  let halfRoll := roll * / 2 in
  let cosYaw := cos halfYaw in
  let sinYaw := sin halfYaw in
  let cosPitch := cos halfPitch in
  let sinPitch := sin halfPitch in
  let cosRoll := cos halfRoll in
  let sinRoll := sin halfRoll in
  mkQuaternion
    (sinRoll * cosPitch * cosYaw - cosRoll * sinPitch * sinYaw)
    (cosRoll * sinPitch * cosYaw + sinRoll * cosPitch * sinYaw)
    (cosRoll * cosPitch * sinYaw - sinRoll * sinPitch * cosYaw)
    (cosRoll * cosPitch * cosYaw + sinRoll * sinPitch * sinYaw).

Definition createQuaternionMsgFromRollPitchYaw := createQuaternionFromRPY.

(** [Matrix3x3::setRPY] (through [setEulerYPR]): the rotation matrix of
    roll, pitch and yaw. *)
Definition setRPY (roll pitch yaw : R) : Matrix3x3 :=
  let ci := cos roll in let cj := cos pitch in let ch := cos yaw in
  let si := sin roll in let sj := sin pitch in let sh := sin yaw in
  let cc := ci * ch in let cs := ci * sh in
  let sc := si * ch in let ss := si * sh in
  mkMatrix3x3
    (mkVector3 (cj * ch) (sj * sc - cs) (sj * cc + ss))
    (mkVector3 (cj * sh) (sj * ss + cc) (sj * cs - sc))
    (mkVector3 (- sj) (cj * si) (cj * ci)).

(** [Matrix3x3::getIdentity]. *)
Definition identityMatrix : Matrix3x3 :=
  mkMatrix3x3 (mkVector3 1 0 0) (mkVector3 0 1 0) (mkVector3 0 0 1).

(** [Quaternion::operator-]: the other quaternion of the same rotation. *)
Definition qneg (q : Quaternion) : Quaternion :=
  mkQuaternion (- x q) (- y q) (- z q) (- w q).

(** What [setRotation] computes on a quaternion of length 1, where its
    scale [2 / d] is 2. *)
Definition unitMatrix (a b c d : R) : Matrix3x3 :=
  mkMatrix3x3
    (mkVector3 (1 - 2 * (b * b + c * c)) (2 * (a * b - d * c)) (2 * (a * c + d * b)))
    (mkVector3 (2 * (a * b + d * c)) (1 - 2 * (a * a + c * c)) (2 * (b * c - d * a)))
    (mkVector3 (2 * (a * c - d * b)) (2 * (b * c + d * a)) (1 - 2 * (a * a + b * b))).

(** [tf::StampedTransform]. *)
Record StampedTransform := mkStampedTransform {
  stamp_ : ros.Time;
  frame_id_ : string;
  child_frame_id_ : string;
  rotation : Quaternion;
  origin : Vector3
}.

End tf.

(** ** Messages *)

(** [nav_msgs::Odometry], the fields the two nodes read or write. *)
Module nav_msgs.
Record Odometry := mkOdometry {
  header_stamp : ros.Time;
  header_frame_id : string;
  child_frame_id : string;
  orientation : tf.Quaternion;
  position : tf.Vector3;
  covariance : list R;
  twist_angular : tf.Vector3;
  twist_linear : tf.Vector3
}.
End nav_msgs.

(** [sensor_msgs::PointCloud2]: the header stamp and the payload. *)
Module sensor_msgs.
Record PointCloud2 (Raw : Type) := mkPointCloud2 {
  header_stamp : ros.Time;
  data : Raw
}.
Arguments mkPointCloud2 {Raw} _ _.
Arguments header_stamp {Raw} _.
Arguments data {Raw} _.
End sensor_msgs.

(** The parameter server behind a [ros::NodeHandle]: what
    [getParam(name, out)] finds for each name and type of [out];
    [None] is the call returning false. *)
Record NodeHandle := mkNodeHandle {
  getParam_float : string -> option PrimFloat.float;
  getParam_int : string -> option Z;
  getParam_bool : string -> option bool;
  getParam_string : string -> option string
}.

(** The empty store, and a store with one more parameter. *)
Definition noParams : NodeHandle :=
  mkNodeHandle (fun _ => None) (fun _ => None) (fun _ => None) (fun _ => None).

Definition withInt (name : string) (v : Z) (h : NodeHandle) : NodeHandle :=
  mkNodeHandle (getParam_float h)
               (fun n => if String.eqb n name then Some v else getParam_int h n)
               (getParam_bool h) (getParam_string h).

Definition withFloat (name : string) (v : PrimFloat.float) (h : NodeHandle) : NodeHandle :=
  mkNodeHandle (fun n => if String.eqb n name then Some v else getParam_float h n)
               (getParam_int h) (getParam_bool h) (getParam_string h).

(** [loam::Twist]: three rotation angles (read through [Angle::rad])
    and a position. *)
Record Twist := mkTwist {
  rot_x : R; rot_y : R; rot_z : R;
  pos : tf.Vector3
}.

(** ** The base class of the odometry node

    [BasicLaserOdometry] is declared outside the two source files; the
    node uses it through the members below, which are taken as an
    interface over an arbitrary carrier [Basic]. *)
Class BasicLaserOdometry (Basic Cloud Raw : Type) := {
  frameCount : Basic -> Z;
  transformSum : Basic -> Twist;
  laserCloud : Basic -> Cloud;
  lastCornerCloud : Basic -> Cloud;
  lastSurfaceCloud : Basic -> Cloud;
  setScanPeriod : PrimFloat.float -> Basic -> Basic;
  setMaxIterations : Z -> Basic -> Basic;
  setDeltaTAbort : PrimFloat.float -> Basic -> Basic;
  setDeltaRAbort : PrimFloat.float -> Basic -> Basic;
  (** For each of the five clouds: clear it, fill it from the message
      with [pcl::fromROSMsg] and drop its NaN points with
      [pcl::removeNaNFromPointCloud]. *)
  loadCornerPointsSharp : Raw -> Basic -> Basic;
  loadCornerPointsLessSharp : Raw -> Basic -> Basic;
  loadSurfPointsFlat : Raw -> Basic -> Basic;
  loadSurfPointsLessFlat : Raw -> Basic -> Basic;
  loadLaserCloud : Raw -> Basic -> Basic;
  (** [pcl::fromROSMsg] into a local cloud, then [updateIMU] on it. *)
  updateIMU : Raw -> Basic -> Basic;
  (** [BasicLaserOdometry::process]. *)
  basicProcess : Basic -> Basic;
  (** [transformToEnd(laserCloud())]: rewrites the full resolution cloud. *)
  transformToEndLaserCloud : Basic -> Basic
}.

(** ** The odometry node, [LaserOdometry.cpp] *)
Module LaserOdometry.
Section Node.
Context {Basic Cloud Raw : Type} {B : BasicLaserOdometry Basic Cloud Raw}.

Record LaserOdometry := mkLaserOdometry {
  base : Basic;
  _ioRatio : Z;
  _initFrame : string;
  _odomFrame : string;
  _loamOdomTopic : string;
  _lidarFrame : string;
  _outputTransforms : bool;
  _timeCornerPointsSharp : ros.Time;
  _timeCornerPointsLessSharp : ros.Time;
  _timeSurfPointsFlat : ros.Time;
  _timeSurfPointsLessFlat : ros.Time;
  _timeLaserCloudFullRes : ros.Time;
  _timeImuTrans : ros.Time;
  _newCornerPointsSharp : bool;
  _newCornerPointsLessSharp : bool;
  _newSurfPointsFlat : bool;
  _newSurfPointsLessFlat : bool;
  _newLaserCloudFullRes : bool;
  _newImuTrans : bool;
  _laserOdometryMsg : nav_msgs.Odometry;
  _laserOdometryTrans : tf.StampedTransform
}.

(** What the node hands to the transport. *)
Inductive Publication :=
| pubLaserOdometry (msg : nav_msgs.Odometry)
| sendTransform (t : tf.StampedTransform)
| pubLaserCloudCornerLast (c : Cloud) (stamp : ros.Time) (frame : string)
| pubLaserCloudSurfLast (c : Cloud) (stamp : ros.Time) (frame : string)
| pubLaserCloudFullRes (c : Cloud) (stamp : ros.Time) (frame : string).

Definition reset (lo : LaserOdometry) : LaserOdometry :=
  lo <| _newCornerPointsSharp := false |>
     <| _newCornerPointsLessSharp := false |>
     <| _newSurfPointsFlat := false |>
     <| _newSurfPointsLessFlat := false |>
     <| _newLaserCloudFullRes := false |>
     <| _newImuTrans := false |>.

(** *** Arrival handlers *)

Definition laserCloudSharpHandler
    (cornerPointsSharpMsg : sensor_msgs.PointCloud2 Raw) (lo : LaserOdometry) : LaserOdometry :=
  lo <| _timeCornerPointsSharp := sensor_msgs.header_stamp cornerPointsSharpMsg |>
     <| base ::= loadCornerPointsSharp (sensor_msgs.data cornerPointsSharpMsg) |>
     <| _newCornerPointsSharp := true |>.

Definition laserCloudLessSharpHandler
    (cornerPointsLessSharpMsg : sensor_msgs.PointCloud2 Raw) (lo : LaserOdometry) : LaserOdometry :=
  lo <| _timeCornerPointsLessSharp := sensor_msgs.header_stamp cornerPointsLessSharpMsg |>
     <| base ::= loadCornerPointsLessSharp (sensor_msgs.data cornerPointsLessSharpMsg) |>
     <| _newCornerPointsLessSharp := true |>.

Definition laserCloudFlatHandler
    (surfPointsFlatMsg : sensor_msgs.PointCloud2 Raw) (lo : LaserOdometry) : LaserOdometry :=
  lo <| _timeSurfPointsFlat := sensor_msgs.header_stamp surfPointsFlatMsg |>
     <| base ::= loadSurfPointsFlat (sensor_msgs.data surfPointsFlatMsg) |>
     <| _newSurfPointsFlat := true |>.

Definition laserCloudLessFlatHandler
    (surfPointsLessFlatMsg : sensor_msgs.PointCloud2 Raw) (lo : LaserOdometry) : LaserOdometry :=
  lo <| _timeSurfPointsLessFlat := sensor_msgs.header_stamp surfPointsLessFlatMsg |>
     <| base ::= loadSurfPointsLessFlat (sensor_msgs.data surfPointsLessFlatMsg) |>
     <| _newSurfPointsLessFlat := true |>.

Definition laserCloudFullResHandler
    (laserCloudFullResMsg : sensor_msgs.PointCloud2 Raw) (lo : LaserOdometry) : LaserOdometry :=
  lo <| _timeLaserCloudFullRes := sensor_msgs.header_stamp laserCloudFullResMsg |>
     <| base ::= loadLaserCloud (sensor_msgs.data laserCloudFullResMsg) |>
     <| _newLaserCloudFullRes := true |>.

Definition imuTransHandler
    (imuTransMsg : sensor_msgs.PointCloud2 Raw) (lo : LaserOdometry) : LaserOdometry :=
  lo <| _timeImuTrans := sensor_msgs.header_stamp imuTransMsg |>
     <| base ::= updateIMU (sensor_msgs.data imuTransMsg) |>
     <| _newImuTrans := true |>.

(** *** The readiness predicate *)

(** [fabs((a - b).toSec()) < 0.005], in [double]. *)
Definition closeInTime (a b : ros.Time) : bool :=
  PrimFloat.ltb (fabs (ros.toSec (ros.sub a b))) ros.tolerance.

Definition hasNewData (lo : LaserOdometry) : bool :=
  _newCornerPointsSharp lo && _newCornerPointsLessSharp lo && _newSurfPointsFlat lo &&
  _newSurfPointsLessFlat lo && _newLaserCloudFullRes lo && _newImuTrans lo &&
  closeInTime (_timeCornerPointsSharp lo) (_timeSurfPointsLessFlat lo) &&
  closeInTime (_timeCornerPointsLessSharp lo) (_timeSurfPointsLessFlat lo) &&
  closeInTime (_timeSurfPointsFlat lo) (_timeSurfPointsLessFlat lo) &&
  closeInTime (_timeLaserCloudFullRes lo) (_timeSurfPointsLessFlat lo) &&
  closeInTime (_timeImuTrans lo) (_timeSurfPointsLessFlat lo).

(** *** Publication *)

(** The outbound orientation of [publishResult]: the quaternion of
    roll-pitch-yaw (rot_z, -rot_x, -rot_y), its components sent as
    (-y, -z, x, w). *)
Definition publishResult (lo : LaserOdometry) : LaserOdometry * list Publication :=
  let geoQuat := tf.createQuaternionMsgFromRollPitchYaw
                   (rot_z (transformSum (base lo)))
                   (- rot_x (transformSum (base lo)))%R
                   (- rot_y (transformSum (base lo)))%R in
  let lo := lo <| _laserOdometryMsg -> nav_msgs.header_stamp := _timeSurfPointsLessFlat lo |>
               <| _laserOdometryMsg -> nav_msgs.orientation :=
                    tf.mkQuaternion (- tf.y geoQuat)%R (- tf.z geoQuat)%R (tf.x geoQuat) (tf.w geoQuat) |>
               <| _laserOdometryMsg -> nav_msgs.position :=
                    tf.mkVector3 (tf.vx (pos (transformSum (base lo))))
                                 (tf.vy (pos (transformSum (base lo))))
                                 (tf.vz (pos (transformSum (base lo)))) |> in
  let out := [pubLaserOdometry (_laserOdometryMsg lo)] in
  let '(lo, out) :=
    if _outputTransforms lo then
      let lo := lo <| _laserOdometryTrans -> tf.stamp_ := _timeSurfPointsLessFlat lo |>
                   <| _laserOdometryTrans -> tf.rotation :=
                        tf.mkQuaternion (- tf.y geoQuat)%R (- tf.z geoQuat)%R (tf.x geoQuat) (tf.w geoQuat) |>
                   <| _laserOdometryTrans -> tf.origin :=
                        tf.mkVector3 (tf.vx (pos (transformSum (base lo))))
                                     (tf.vy (pos (transformSum (base lo))))
                                     (tf.vz (pos (transformSum (base lo)))) |> in
      (lo, out ++ [sendTransform (_laserOdometryTrans lo)])
    else (lo, out) in
  (* publish cloud results according to the input output ratio *)
  if (_ioRatio lo <? 2)%Z || (Z.rem (frameCount (base lo)) (_ioRatio lo) =? 1)%Z then
    let sweepTime := _timeSurfPointsLessFlat lo in
    let out := out ++ [pubLaserCloudCornerLast (lastCornerCloud (base lo)) sweepTime (_lidarFrame lo);
                       pubLaserCloudSurfLast (lastSurfaceCloud (base lo)) sweepTime (_lidarFrame lo)] in
    let lo := lo <| base ::= transformToEndLaserCloud |> in
    (lo, out ++ [pubLaserCloudFullRes (laserCloud (base lo)) sweepTime (_lidarFrame lo)])
  else (lo, out).

(** *** The driver step *)

Definition process (lo : LaserOdometry) : LaserOdometry * list Publication :=
  if negb (hasNewData lo) then (lo, [])  (* waiting for new data to arrive... *)
  else
    let lo := reset lo in
    let lo := lo <| base ::= basicProcess |> in
    publishResult lo.

(** *** Setup

    [setup] runs a sequence of parameter blocks; a block either goes
    on with an updated node or leaves with [return false].  The
    advertise and subscribe calls that follow the blocks only wire
    the transport. *)

Definition Block := LaserOdometry -> LaserOdometry + LaserOdometry.

Definition returnFalse : Block := fun lo => inl lo.
Definition assign (f : LaserOdometry -> LaserOdometry) : Block := fun lo => inr (f lo).
Definition ifParam {A : Type} (found : option A) (body : A -> Block) : Block :=
  fun lo => match found with Some v => body v lo | None => inr lo end.
Definition andThen (a b : Block) : Block :=
  fun lo => match a lo with inl lo' => inl lo' | inr lo' => b lo' end.

Notation "a ;; b" := (andThen a b) (at level 61, right associativity).

(** The conversion of the assignment [_ioRatio = iParam], from [int]
    to the [uint16_t] the constructor declares for the ratio. *)
Definition to_uint16 (i : Z) : Z := (i mod 65536)%Z.

Definition setup (node privateNode : NodeHandle) (lo : LaserOdometry) : bool * LaserOdometry :=
  let blocks :=
    ifParam (getParam_float node "scanPeriod") (fun fParam =>
      if PrimFloat.leb fParam PrimFloat.zero then returnFalse
      else assign (fun lo => lo <| base ::= setScanPeriod fParam |>)) ;;
    ifParam (getParam_int privateNode "ioRatio") (fun iParam =>
      if (iParam <? 1)%Z then returnFalse
      else assign (fun lo => lo <| _ioRatio := to_uint16 iParam |>)) ;;
    ifParam (getParam_int privateNode "maxIterationsOdom") (fun iParam =>
      if (iParam <? 1)%Z then returnFalse
      else assign (fun lo => lo <| base ::= setMaxIterations iParam |>)) ;;
    ifParam (getParam_float privateNode "deltaTAbortOdom") (fun fParam =>
      if PrimFloat.leb fParam PrimFloat.zero then returnFalse
      else assign (fun lo => lo <| base ::= setDeltaTAbort fParam |>)) ;;
    ifParam (getParam_float privateNode "deltaRAbortOdom") (fun fParam =>
      if PrimFloat.leb fParam PrimFloat.zero then returnFalse
      else assign (fun lo => lo <| base ::= setDeltaRAbort fParam |>)) ;;
    ifParam (getParam_string node "initFrame") (fun sParam =>
      assign (fun lo => lo <| _initFrame := sParam |>
                           <| _laserOdometryMsg -> nav_msgs.header_frame_id := sParam |>
                           <| _laserOdometryTrans -> tf.frame_id_ := sParam |>)) ;;
    ifParam (getParam_string node "odomFrame") (fun sParam =>
      assign (fun lo => lo <| _odomFrame := sParam |>
                           <| _laserOdometryMsg -> nav_msgs.child_frame_id := sParam |>
                           <| _laserOdometryTrans -> tf.child_frame_id_ := sParam |>)) ;;
    ifParam (getParam_string node "loamOdomTopic") (fun sParam =>
      assign (fun lo => lo <| _loamOdomTopic := sParam |>)) ;;
    ifParam (getParam_string node "lidarFrame") (fun sParam =>
      assign (fun lo => lo <| _lidarFrame := sParam |>)) ;;
    ifParam (getParam_bool node "outputTransforms") (fun bParam =>
      assign (fun lo => lo <| _outputTransforms := bParam |>))
  in
  match blocks lo with
  | inl lo' => (false, lo')
  | inr lo' => (true, lo')
  end.

(** *** The node as a transition system

    The six subscriptions and the polling loop of [spin]: each
    callback delivers one message to its handler, each turn of the
    loop calls [process]. *)

Inductive Stream :=
| CornerPointsSharp | CornerPointsLessSharp | SurfPointsFlat
| SurfPointsLessFlat | LaserCloudFullRes | ImuTrans.

Definition newFlag (i : Stream) (lo : LaserOdometry) : bool :=
  match i with
  | CornerPointsSharp => _newCornerPointsSharp lo
  | CornerPointsLessSharp => _newCornerPointsLessSharp lo
  | SurfPointsFlat => _newSurfPointsFlat lo
  | SurfPointsLessFlat => _newSurfPointsLessFlat lo
  | LaserCloudFullRes => _newLaserCloudFullRes lo
  | ImuTrans => _newImuTrans lo
  end.

Definition stampOf (i : Stream) (lo : LaserOdometry) : ros.Time :=
  match i with
  | CornerPointsSharp => _timeCornerPointsSharp lo
  | CornerPointsLessSharp => _timeCornerPointsLessSharp lo
  | SurfPointsFlat => _timeSurfPointsFlat lo
  | SurfPointsLessFlat => _timeSurfPointsLessFlat lo
  | LaserCloudFullRes => _timeLaserCloudFullRes lo
  | ImuTrans => _timeImuTrans lo
  end.

Definition setNewFlag (i : Stream) (b : bool) (lo : LaserOdometry) : LaserOdometry :=
  match i with
  | CornerPointsSharp => lo <| _newCornerPointsSharp := b |>
  | CornerPointsLessSharp => lo <| _newCornerPointsLessSharp := b |>
  | SurfPointsFlat => lo <| _newSurfPointsFlat := b |>
  | SurfPointsLessFlat => lo <| _newSurfPointsLessFlat := b |>
  | LaserCloudFullRes => lo <| _newLaserCloudFullRes := b |>
  | ImuTrans => lo <| _newImuTrans := b |>
  end.

Definition allStreams : list Stream :=
  [CornerPointsSharp; CornerPointsLessSharp; SurfPointsFlat;
   SurfPointsLessFlat; LaserCloudFullRes; ImuTrans].

Definition handler (i : Stream) : sensor_msgs.PointCloud2 Raw -> LaserOdometry -> LaserOdometry :=
  match i with
  | CornerPointsSharp => laserCloudSharpHandler
  | CornerPointsLessSharp => laserCloudLessSharpHandler
  | SurfPointsFlat => laserCloudFlatHandler
  | SurfPointsLessFlat => laserCloudLessFlatHandler
  | LaserCloudFullRes => laserCloudFullResHandler
  | ImuTrans => imuTransHandler
  end.

Inductive Event :=
| Arrival (i : Stream) (msg : sensor_msgs.PointCloud2 Raw)
| Poll.

Definition step (e : Event) (lo : LaserOdometry) : LaserOdometry * list Publication :=
  match e with
  | Arrival i msg => (handler i msg lo, [])
  | Poll => process lo
  end.

Fixpoint run (es : list Event) (lo : LaserOdometry) : LaserOdometry * list Publication :=
  match es with
  | [] => (lo, [])
  | e :: es' =>
      let '(lo1, out1) := step e lo in
      let '(lo2, out2) := run es' lo1 in
      (lo2, out1 ++ out2)
  end.

Definition arrived (i : Stream) (es : list Event) : Prop :=
  exists msg, In (Arrival i msg) es.

(** *** The gate in the words of the specification

    [isReady(toleranceSeconds)]: every stream has its unconsumed flag
    set and the maximum pairwise stamp difference over the streams is
    at most the tolerance. *)

Definition maxPairwiseDelta (lo : LaserOdometry) : ros.Duration :=
  fold_right Z.max 0%Z
    (flat_map (fun i => map (fun j => Z.abs (ros.sub (stampOf i lo) (stampOf j lo))) allStreams)
              allStreams).

Definition isReady_spec (toleranceSeconds : Q) (lo : LaserOdometry) : bool :=
  forallb (fun i => newFlag i lo) allStreams &&
  Qle_bool (ros.seconds (maxPairwiseDelta lo)) toleranceSeconds.

(** *** What one call of [publishResult] emitted *)

Definition isHeavy (p : Publication) : bool :=
  match p with
  | pubLaserCloudCornerLast _ _ _ | pubLaserCloudSurfLast _ _ _
  | pubLaserCloudFullRes _ _ _ => true
  | _ => false
  end.

Definition isPose (p : Publication) : bool :=
  match p with pubLaserOdometry _ => true | _ => false end.

Definition heavyCount (out : list Publication) : nat := List.length (filter isHeavy out).
Definition poseCount (out : list Publication) : nat := List.length (filter isPose out).

(** *** Out-of-range parameters

    A provided parameter is out of range when it fails the test of its
    block in [setup]: [scanPeriod <= 0], [ioRatio < 1],
    [maxIterationsOdom < 1], [deltaTAbortOdom <= 0] or
    [deltaRAbortOdom <= 0].  The comparison of a [float] with 0 is the
    IEEE one. *)
Definition floatOutOfRange (found : option PrimFloat.float) : bool :=
  match found with
  | Some v => PrimFloat.leb v PrimFloat.zero
  | None => false
  end.

Definition intOutOfRange (found : option Z) : bool :=
  match found with
  | Some i => i <? 1
  | None => false
  end.

Definition outOfRange (node privateNode : NodeHandle) : bool :=
  floatOutOfRange (getParam_float node "scanPeriod") ||
  intOutOfRange (getParam_int privateNode "ioRatio") ||
  intOutOfRange (getParam_int privateNode "maxIterationsOdom") ||
  floatOutOfRange (getParam_float privateNode "deltaTAbortOdom") ||
  floatOutOfRange (getParam_float privateNode "deltaRAbortOdom").

(** A block left with [return false]. *)
Definition returned (r : LaserOdometry + LaserOdometry) : bool :=
  match r with inl _ => true | inr _ => false end.

(** A block whose outcome does not depend on the node it runs on. *)
Definition decides (b : Block) (c : bool) : Prop :=
  forall lo : LaserOdometry, returned (b lo) = c.

End Node.
End LaserOdometry.

(** ** The frame convention adapter in the words of the specification

    Section 4.1: [toInternal] permutes the inbound quaternion to
    (qz, -qx, -qy, qw), extracts roll, pitch and yaw from its rotation
    matrix and returns (-pitch, -yaw, roll); [toOutput] builds the
    roll-pitch-yaw quaternion of (rz, -rx, -ry) and emits its components
    as (-qy, -qz, qx, qw). *)
Module FrameConvention.
Local Open Scope R_scope.

Definition permuted (q : tf.Quaternion) : tf.Quaternion :=
  tf.mkQuaternion (tf.z q) (- tf.x q) (- tf.y q) (tf.w q).

Definition toInternal (q : tf.Quaternion) : R * R * R :=
  let '(roll, pitch, yaw) := tf.getRPY (tf.setRotation (permuted q)) in
  (- pitch, - yaw, roll).

(** The pitch of [q] is at the gimbal singularity: the extraction takes
    its singular branch. *)
Definition singular (q : tf.Quaternion) : Prop :=
  tf.gimbal_locked (tf.setRotation (permuted q)).

Definition toOutput (r : R * R * R) : tf.Quaternion :=
  let '(rx, ry, rz) := r in
  let q := tf.createQuaternionFromRPY rz (- rx) (- ry) in
  tf.mkQuaternion (- tf.y q) (- tf.z q) (tf.x q) (tf.w q).

End FrameConvention.

(** ** The base class of the transform maintenance node

    [BasicTransformMaintenance] is declared outside the two source
    files; the node uses these four members of it.  [transformMapped]
    is read at the indices 0 to 5. *)
Class BasicTransformMaintenance (Basic : Type) := {
  updateOdometry : R -> R -> R -> R -> R -> R -> Basic -> Basic;
  updateMappingTransform :
    R -> R -> R -> R -> R -> R -> R -> R -> R -> R -> R -> R -> Basic -> Basic;
  transformAssociateToMap : Basic -> Basic;
  transformMapped : Basic -> nat -> R
}.

(** The global parameters [laserOdometryHandler] reads through
    [ros::param::get] on every call. *)
Record GlobalParams := mkGlobalParams {
  lidarOdomCov : option (list R);
  outputTransforms : option bool
}.

(** Assignment to one cell of the covariance array. *)
Fixpoint assignAt (n : nat) (v : R) (l : list R) : list R :=
  match l, n with
  | [], _ => []
  | _ :: t, O => v :: t
  | h :: t, S n' => h :: assignAt n' v t
  end.

(** ** The transform maintenance node, [TransformMaintenance.cpp] *)
Module TransformMaintenance.
Section Node.
Context {Basic : Type} {B : BasicTransformMaintenance Basic}.

Record TransformMaintenance := mkTransformMaintenance {
  base : Basic;
  _mapOdomTopic : string;
  _loamOdomTopic : string;
  _lidarOdomTopic : string;
  _lidarFrame : string;
  _initFrame : string;
  _laserOdometry2 : nav_msgs.Odometry;
  _laserOdometryTrans2 : tf.StampedTransform
}.

Inductive Publication :=
| pubLaserOdometry2 (msg : nav_msgs.Odometry)
| sendTransform (t : tf.StampedTransform).

(** Every block of [setup] is a string parameter copied when present;
    no block returns. *)
Definition setup (node privateNode : NodeHandle) (tm : TransformMaintenance)
  : bool * TransformMaintenance :=
  let tm := match getParam_string privateNode "loamOdomTopic" with
            | Some sParam => tm <| _loamOdomTopic := sParam |>
            | None => tm end in
  let tm := match getParam_string privateNode "mapOdomTopic" with
            | Some sParam => tm <| _mapOdomTopic := sParam |>
            | None => tm end in
  let tm := match getParam_string privateNode "lidarOdomTopic" with
            | Some sParam => tm <| _lidarOdomTopic := sParam |>
            | None => tm end in
  let tm := match getParam_string privateNode "initFrame" with
            | Some sParam => tm <| _initFrame := sParam |>
                                <| _laserOdometry2 -> nav_msgs.header_frame_id := sParam |>
                                <| _laserOdometryTrans2 -> tf.frame_id_ := sParam |>
            | None => tm end in
  let tm := match getParam_string privateNode "lidarFrame" with
            | Some sParam => tm <| _lidarFrame := sParam |>
                                <| _laserOdometry2 -> nav_msgs.child_frame_id := sParam |>
                                <| _laserOdometryTrans2 -> tf.child_frame_id_ := sParam |>
            | None => tm end in
  (true, tm).

(** The raw pose handler.  [params] is the global parameter store at
    the time of the call; [unset] is the value the uninitialised local
    [outputTransform] holds when the parameter is absent.  The
    covariance vector starts as six zeros and is replaced by the
    parameter when present; cells past its end read as 0. *)
Definition laserOdometryHandler (params : GlobalParams) (unset : bool)
    (laserOdometry : nav_msgs.Odometry) (tm : TransformMaintenance)
  : TransformMaintenance * list Publication :=
  let geoQuat := nav_msgs.orientation laserOdometry in
  let '(roll, pitch, yaw) :=
    tf.getRPY (tf.setRotation
      (tf.mkQuaternion (tf.z geoQuat) (- tf.x geoQuat)%R (- tf.y geoQuat)%R (tf.w geoQuat))) in
  let tm := tm <| base ::= updateOdometry (- pitch)%R (- yaw)%R roll
                             (tf.vx (nav_msgs.position laserOdometry))
                             (tf.vy (nav_msgs.position laserOdometry))
                             (tf.vz (nav_msgs.position laserOdometry)) |> in
  let tm := tm <| base ::= transformAssociateToMap |> in
  let geoQuat := tf.createQuaternionMsgFromRollPitchYaw
                   (transformMapped (base tm) 2)
                   (- transformMapped (base tm) 0)%R
                   (- transformMapped (base tm) 1)%R in
  let pose_covariance :=
    match lidarOdomCov params with
    | Some v => v
    | None => repeat 0%R 6
    end in
  let tm := tm <| _laserOdometry2 -> nav_msgs.header_stamp := nav_msgs.header_stamp laserOdometry |>
               <| _laserOdometry2 -> nav_msgs.orientation :=
                    tf.mkQuaternion (- tf.y geoQuat)%R (- tf.z geoQuat)%R (tf.x geoQuat) (tf.w geoQuat) |>
               <| _laserOdometry2 -> nav_msgs.position :=
                    tf.mkVector3 (transformMapped (base tm) 3)
                                 (transformMapped (base tm) 4)
                                 (transformMapped (base tm) 5) |>
               <| _laserOdometry2 -> nav_msgs.covariance ::=
                    fun c => assignAt 35 (nth 5 pose_covariance 0%R)
                            (assignAt 28 (nth 4 pose_covariance 0%R)
                            (assignAt 21 (nth 3 pose_covariance 0%R)
                            (assignAt 14 (nth 2 pose_covariance 0%R)
                            (assignAt 7 (nth 1 pose_covariance 0%R)
                            (assignAt 0 (nth 0 pose_covariance 0%R) c))))) |> in
  let out := [pubLaserOdometry2 (_laserOdometry2 tm)] in
  let outputTransform :=
    match outputTransforms params with Some b => b | None => unset end in
  if outputTransform then
    let tm := tm <| _laserOdometryTrans2 -> tf.stamp_ := nav_msgs.header_stamp laserOdometry |>
                 <| _laserOdometryTrans2 -> tf.rotation :=
                      tf.mkQuaternion (- tf.y geoQuat)%R (- tf.z geoQuat)%R (tf.x geoQuat) (tf.w geoQuat) |>
                 <| _laserOdometryTrans2 -> tf.origin :=
                      tf.mkVector3 (transformMapped (base tm) 3)
                                   (transformMapped (base tm) 4)
                                   (transformMapped (base tm) 5) |> in
    (tm, out ++ [sendTransform (_laserOdometryTrans2 tm)])
  else (tm, out).

(** The correction handler. *)
Definition odomAftMappedHandler (odomAftMapped : nav_msgs.Odometry) (tm : TransformMaintenance)
  : TransformMaintenance :=
  let geoQuat := nav_msgs.orientation odomAftMapped in
  let '(roll, pitch, yaw) :=
    tf.getRPY (tf.setRotation
      (tf.mkQuaternion (tf.z geoQuat) (- tf.x geoQuat)%R (- tf.y geoQuat)%R (tf.w geoQuat))) in
  tm <| base ::= updateMappingTransform
           (- pitch)%R (- yaw)%R roll
           (tf.vx (nav_msgs.position odomAftMapped))
           (tf.vy (nav_msgs.position odomAftMapped))
           (tf.vz (nav_msgs.position odomAftMapped))
           (tf.vx (nav_msgs.twist_angular odomAftMapped))
           (tf.vy (nav_msgs.twist_angular odomAftMapped))
           (tf.vz (nav_msgs.twist_angular odomAftMapped))
           (tf.vx (nav_msgs.twist_linear odomAftMapped))
           (tf.vy (nav_msgs.twist_linear odomAftMapped))
           (tf.vz (nav_msgs.twist_linear odomAftMapped)) |>.

End Node.
End TransformMaintenance.

(** ** A small instance of the odometry base class

    A base object that only counts its frames, with unit payloads; used
    to run the node on concrete inputs. *)
Module Counting.

Definition zeroTwist : Twist := mkTwist 0 0 0 (tf.mkVector3 0 0 0).

#[export] Instance basic : BasicLaserOdometry Z unit unit := {|
  frameCount := fun n => n;
  transformSum := fun _ => zeroTwist;
  laserCloud := fun _ => tt;
  lastCornerCloud := fun _ => tt;
  lastSurfaceCloud := fun _ => tt;
  setScanPeriod := fun _ n => n;
  setMaxIterations := fun _ n => n;
  setDeltaTAbort := fun _ n => n;
  setDeltaRAbort := fun _ n => n;
  loadCornerPointsSharp := fun _ n => n;
  loadCornerPointsLessSharp := fun _ n => n;
  loadSurfPointsFlat := fun _ n => n;
  loadSurfPointsLessFlat := fun _ n => n;
  loadLaserCloud := fun _ n => n;
  updateIMU := fun _ n => n;
  basicProcess := fun n => (n + 1)%Z;
  transformToEndLaserCloud := fun n => n
|}.

Definition blankOdometry : nav_msgs.Odometry :=
  nav_msgs.mkOdometry 0 "/camera_init" "/laser_odom"
    (tf.mkQuaternion 0 0 0 0) (tf.mkVector3 0 0 0) (repeat 0%R 36)
    (tf.mkVector3 0 0 0) (tf.mkVector3 0 0 0).

Definition blankTransform : tf.StampedTransform :=
  tf.mkStampedTransform 0 "/camera_init" "/laser_odom"
    (tf.mkQuaternion 0 0 0 1) (tf.mkVector3 0 0 0).

(** A node after construction with frame count [n] and ratio [k]: no
    flag set, every stamp 0. *)
Definition fresh (n k : Z) : @LaserOdometry.LaserOdometry Z :=
  LaserOdometry.mkLaserOdometry n k
    "/camera_init" "/laser_odom" "/laser_odom_to_init" "/camera" true
    0 0 0 0 0 0
    false false false false false false
    blankOdometry blankTransform.

(** Stamps in nanoseconds for the six streams, every flag set. *)
Definition loaded (n k : Z) (t1 t2 t3 t4 t5 t6 : ros.Time) : @LaserOdometry.LaserOdometry Z :=
  LaserOdometry.mkLaserOdometry n k
    "/camera_init" "/laser_odom" "/laser_odom_to_init" "/camera" true
    t1 t2 t3 t4 t5 t6
    true true true true true true
    blankOdometry blankTransform.

End Counting.

(** ** The pose composer

    The class [BasicTransformMaintenance] is not in the sources; this
    module stands for it with the pose composer of section 4.3 of the
    specification, over the reals.  A pose holds three Euler angles and
    a position (section 3); the composer is written over two
    conversions between the angles and a unit quaternion, and run with
    the two of the frame convention adapter. *)
Module PoseComposer.
Local Open Scope R_scope.

Definition qone : tf.Quaternion := tf.mkQuaternion 0 0 0 1.

Definition qconj (a : tf.Quaternion) : tf.Quaternion :=
  tf.mkQuaternion (- tf.x a) (- tf.y a) (- tf.z a) (tf.w a).

(** The Hamilton product. *)
Definition qmul (a b : tf.Quaternion) : tf.Quaternion :=
  tf.mkQuaternion
    (tf.w a * tf.x b + tf.x a * tf.w b + tf.y a * tf.z b - tf.z a * tf.y b)
    (tf.w a * tf.y b - tf.x a * tf.z b + tf.y a * tf.w b + tf.z a * tf.x b)
    (tf.w a * tf.z b + tf.x a * tf.y b - tf.y a * tf.x b + tf.z a * tf.w b)
    (tf.w a * tf.w b - tf.x a * tf.x b - tf.y a * tf.y b - tf.z a * tf.z b).

(** A rotation applied to a vector: the vector part of q v q*. *)
Definition rotate (q : tf.Quaternion) (v : tf.Vector3) : tf.Vector3 :=
  let p := qmul (qmul q (tf.mkQuaternion (tf.vx v) (tf.vy v) (tf.vz v) 0)) (qconj q) in
  tf.mkVector3 (tf.x p) (tf.y p) (tf.z p).

Definition vadd (a b : tf.Vector3) : tf.Vector3 :=
  tf.mkVector3 (tf.vx a + tf.vx b) (tf.vy a + tf.vy b) (tf.vz a + tf.vz b).

Definition vneg (a : tf.Vector3) : tf.Vector3 :=
  tf.mkVector3 (- tf.vx a) (- tf.vy a) (- tf.vz a).

Record Pose := mkPose { angles : R * R * R; position : tf.Vector3 }.

Record RigidTransform := mkRigidTransform {
  rotation : tf.Quaternion;
  translation : tf.Vector3
}.

Definition identity : RigidTransform := mkRigidTransform qone (tf.mkVector3 0 0 0).

Definition compose (a b : RigidTransform) : RigidTransform :=
  mkRigidTransform (qmul (rotation a) (rotation b))
                   (vadd (rotate (rotation a) (translation b)) (translation a)).

Definition inverse (a : RigidTransform) : RigidTransform :=
  mkRigidTransform (qconj (rotation a))
                   (vneg (rotate (qconj (rotation a)) (translation a))).

(** Modelled from the spec: the state of [BasicTransformMaintenance],
    missing from the sources.  The composer holds the last raw pose, the
    retained correction offset (a rigid transform) and the last
    corrected pose. *)
Record Composer := mkComposer {
  raw : Pose;
  offset : RigidTransform;
  corrected : Pose
}.

Definition zeroPose : Pose := mkPose (0, 0, 0) (tf.mkVector3 0 0 0).

(** Modelled from the spec: the composer before any pose or correction;
    with no correction received the offset is the identity. *)
Definition initial : Composer := mkComposer zeroPose identity zeroPose.

Section Conversions.
Variable rotationOf : R * R * R -> tf.Quaternion.
Variable anglesOf : tf.Quaternion -> R * R * R.

Definition ofPose (p : Pose) : RigidTransform :=
  mkRigidTransform (rotationOf (angles p)) (position p).

Definition toPose (t : RigidTransform) : Pose :=
  mkPose (anglesOf (rotation t)) (translation t).

(** Modelled from the spec: [updateOdometry], missing from the sources;
    the first step of [onRawPose], which records the raw pose. *)
Definition storeRaw (rx ry rz px py pz : R) (c : Composer) : Composer :=
  c <| raw := mkPose (rx, ry, rz) (tf.mkVector3 px py pz) |>.

(** Modelled from the spec: [transformAssociateToMap], missing from the
    sources; the second step of [onRawPose].  The corrected pose is the
    offset composed with the raw pose: the product of the correction
    rotation with the raw rotation, and the correction rotation applied
    to the raw translation plus the correction translation. *)
Definition associate (c : Composer) : Composer :=
  c <| corrected := toPose (compose (offset c) (ofPose (raw c))) |>.

(** Modelled from the spec: [updateMappingTransform], missing from the
    sources; [onCorrection(prePose, postPose)] replaces the offset by
    postPose composed with the inverse of prePose.  The handler passes
    the post-correction pose first. *)
Definition onCorrection (rx ry rz px py pz rx' ry' rz' px' py' pz' : R) (c : Composer)
  : Composer :=
  let post := mkPose (rx, ry, rz) (tf.mkVector3 px py pz) in
  let pre := mkPose (rx', ry', rz') (tf.mkVector3 px' py' pz') in
  c <| offset := compose (ofPose post) (inverse (ofPose pre)) |>.

(** Modelled from the spec: [transformMapped], missing from the sources;
    the corrected pose as the array of six the handler indexes, angles
    first. *)
Definition mapped (c : Composer) (k : nat) : R :=
  let '(rx, ry, rz) := angles (corrected c) in
  nth k [rx; ry; rz; tf.vx (position (corrected c));
         tf.vy (position (corrected c)); tf.vz (position (corrected c))] 0.

(** Modelled from the spec: the composer as the base class of the node. *)
#[export] Instance basic : BasicTransformMaintenance Composer := {|
  updateOdometry := storeRaw;
  updateMappingTransform := onCorrection;
  transformAssociateToMap := associate;
  transformMapped := mapped
|}.

End Conversions.

(** Modelled from the spec: the two conversions between the angles of
    a pose and its unit quaternion (section 3), missing from the
    sources.  They are the ones of the frame convention adapter of
    section 4.1: the quaternion of three internal angles is the one the
    node emits for them, and the angles of a quaternion are the ones
    the node reads from it. *)
Definition rotationOfAngles (a : R * R * R) : tf.Quaternion := FrameConvention.toOutput a.

Definition anglesOfRotation (q : tf.Quaternion) : R * R * R := FrameConvention.toInternal q.

End PoseComposer.

(** ** Construction and the polling loop of the odometry node *)
Module OdometryLifecycle.
Import LaserOdometry.
Section Node.
Context {Basic Cloud Raw : Type} {B : BasicLaserOdometry Basic Cloud Raw}.

(** The body of the constructor, on the object [lo] as the member
    initialisers leave it (the base built by [BasicLaserOdometry], the
    flags and stamps as the header initialises them).  [ioRatio] is the
    constructor's [uint16_t] argument. *)
Definition construct (ioRatio : Z) (lo : @LaserOdometry Basic) : LaserOdometry :=
  lo <| _ioRatio := ioRatio |>
     <| _initFrame := "/camera_init"%string |>
     <| _odomFrame := "/laser_odom"%string |>
     <| _loamOdomTopic := "/laser_odom_to_init"%string |>
     <| _lidarFrame := "/camera"%string |>
     <| _outputTransforms := true |>
     <| _laserOdometryMsg -> nav_msgs.header_frame_id := "/camera_init"%string |>
     <| _laserOdometryMsg -> nav_msgs.child_frame_id := "/laser_odom"%string |>
     <| _laserOdometryTrans -> tf.frame_id_ := "/camera_init"%string |>
     <| _laserOdometryTrans -> tf.child_frame_id_ := "/laser_odom"%string |>.

(** One [ros::spinOnce]: the callbacks waiting in the queue run in
    their order, each on its handler. *)
Definition spinOnce (callbacks : list (Stream * sensor_msgs.PointCloud2 Raw))
    (lo : @LaserOdometry Basic) : LaserOdometry :=
  fold_left (fun lo cb => handler (fst cb) (snd cb) lo) callbacks lo.

(** [spin]: while [ros::ok()] holds, one [spinOnce] and one [process]
    per turn.  [turns] lists, for each turn of the loop that runs, the
    callbacks its [spinOnce] finds; the loop ends with the list. *)
Fixpoint spin (turns : list (list (Stream * sensor_msgs.PointCloud2 Raw)))
    (lo : @LaserOdometry Basic) : LaserOdometry * list Publication :=
  match turns with
  | [] => (lo, [])
  | callbacks :: turns' =>
      let '(lo1, out1) := process (spinOnce callbacks lo) in
      let '(lo2, out2) := spin turns' lo1 in
      (lo2, out1 ++ out2)
  end.

(** The events of a run of [spin]. *)
Definition eventsOf (turns : list (list (Stream * sensor_msgs.PointCloud2 Raw)))
  : list (@Event Raw) :=
  flat_map (fun callbacks => map (fun cb => Arrival (fst cb) (snd cb)) callbacks ++ [Poll])
           turns.

Definition Stream_eqb (i j : Stream) : bool :=
  match i, j with
  | CornerPointsSharp, CornerPointsSharp
  | CornerPointsLessSharp, CornerPointsLessSharp
  | SurfPointsFlat, SurfPointsFlat
  | SurfPointsLessFlat, SurfPointsLessFlat
  | LaserCloudFullRes, LaserCloudFullRes
  | ImuTrans, ImuTrans => true
  | _, _ => false
  end.

(** The arrivals of stream [i] and the polls among some events. *)
Definition isArrivalOf (i : Stream) (e : @Event Raw) : bool :=
  match e with Arrival j _ => Stream_eqb i j | Poll => false end.

Definition isPoll (e : @Event Raw) : bool :=
  match e with Poll => true | Arrival _ _ => false end.

Definition arrivalCount (i : Stream) (es : list (@Event Raw)) : nat :=
  List.length (filter (isArrivalOf i) es).

Definition pollCount (es : list (@Event Raw)) : nat := List.length (filter isPoll es).

(** The stamp and, for a cloud, the frame a publication carries. *)
Definition stampOfPublication (p : @Publication Cloud) : ros.Time :=
  match p with
  | pubLaserOdometry m => nav_msgs.header_stamp m
  | sendTransform t => tf.stamp_ t
  | pubLaserCloudCornerLast _ stamp _ => stamp
  | pubLaserCloudSurfLast _ stamp _ => stamp
  | pubLaserCloudFullRes _ stamp _ => stamp
  end.

Definition isTransform (p : @Publication Cloud) : bool :=
  match p with sendTransform _ => true | _ => false end.

Definition transformCount (out : list (@Publication Cloud)) : nat :=
  List.length (filter isTransform out).

(** The frame names of the node agree with the ones written in its
    outgoing message and transform. *)
Definition framesAgree (lo : @LaserOdometry Basic) : Prop :=
  nav_msgs.header_frame_id (_laserOdometryMsg lo) = _initFrame lo /\
  nav_msgs.child_frame_id (_laserOdometryMsg lo) = _odomFrame lo /\
  tf.frame_id_ (_laserOdometryTrans lo) = _initFrame lo /\
  tf.child_frame_id_ (_laserOdometryTrans lo) = _odomFrame lo.

(** The frame names a publication of the odometry node carries. *)
Definition framesOfPublication (p : @Publication Cloud) : string * string :=
  match p with
  | pubLaserOdometry m => (nav_msgs.header_frame_id m, nav_msgs.child_frame_id m)
  | sendTransform t => (tf.frame_id_ t, tf.child_frame_id_ t)
  | pubLaserCloudCornerLast _ _ frame => (frame, frame)
  | pubLaserCloudSurfLast _ _ frame => (frame, frame)
  | pubLaserCloudFullRes _ _ frame => (frame, frame)
  end.

(** The names and the toggle [setup] copies from the parameter store,
    and the frame names written in the outgoing message and transform. *)
Definition names (lo : @LaserOdometry Basic) : string * string * string * string * bool :=
  (_initFrame lo, _odomFrame lo, _loamOdomTopic lo, _lidarFrame lo, _outputTransforms lo).

Definition writtenFrames (lo : @LaserOdometry Basic) : string * string * string * string :=
  (nav_msgs.header_frame_id (_laserOdometryMsg lo),
   nav_msgs.child_frame_id (_laserOdometryMsg lo),
   tf.frame_id_ (_laserOdometryTrans lo),
   tf.child_frame_id_ (_laserOdometryTrans lo)).

(** A parameter when found, the value held before otherwise. *)
Definition orKeep {A : Type} (found : option A) (held : A) : A :=
  match found with Some v => v | None => held end.

End Node.
End OdometryLifecycle.

(** ** Construction of the transform maintenance node *)
Module MaintenanceLifecycle.
Import TransformMaintenance.
Section Node.
Context {Basic : Type} {B : BasicTransformMaintenance Basic}.

(** The body of the constructor, on the object as the member
    initialisers leave it. *)
Definition construct (tm : @TransformMaintenance Basic) : TransformMaintenance :=
  tm <| _mapOdomTopic := "/aft_mapped_to_init"%string |>
     <| _loamOdomTopic := "/laser_odom_to_init"%string |>
     <| _lidarOdomTopic := "/integrated_to_init"%string |>
     <| _lidarFrame := "/camera"%string |>
     <| _initFrame := "/camera_init"%string |>
     <| _laserOdometry2 -> nav_msgs.header_frame_id := "/camera_init"%string |>
     <| _laserOdometry2 -> nav_msgs.child_frame_id := "/camera"%string |>
     <| _laserOdometryTrans2 -> tf.frame_id_ := "/camera_init"%string |>
     <| _laserOdometryTrans2 -> tf.child_frame_id_ := "/camera"%string |>.

Definition framesAgree (tm : @TransformMaintenance Basic) : Prop :=
  nav_msgs.header_frame_id (_laserOdometry2 tm) = _initFrame tm /\
  nav_msgs.child_frame_id (_laserOdometry2 tm) = _lidarFrame tm /\
  tf.frame_id_ (_laserOdometryTrans2 tm) = _initFrame tm /\
  tf.child_frame_id_ (_laserOdometryTrans2 tm) = _lidarFrame tm.

Definition isTransform (p : Publication) : bool :=
  match p with sendTransform _ => true | _ => false end.

Definition isPose (p : Publication) : bool :=
  match p with pubLaserOdometry2 _ => true | _ => false end.

(** The decision of [laserOdometryHandler] to broadcast the transform:
    the global parameter when present, the uninitialised local otherwise. *)
Definition broadcasts (params : GlobalParams) (unset : bool) : bool :=
  match outputTransforms params with Some b => b | None => unset end.

(** The covariance vector of [laserOdometryHandler]: the global
    parameter when present, six zeros otherwise. *)
Definition poseCovariance (params : GlobalParams) : list R :=
  match lidarOdomCov params with Some v => v | None => repeat 0%R 6 end.

Definition stampOfPublication (p : Publication) : ros.Time :=
  match p with
  | pubLaserOdometry2 m => nav_msgs.header_stamp m
  | sendTransform t => tf.stamp_ t
  end.

(** The frame names a publication of the maintenance node carries. *)
Definition framesOfPublication (p : Publication) : string * string :=
  match p with
  | pubLaserOdometry2 m => (nav_msgs.header_frame_id m, nav_msgs.child_frame_id m)
  | sendTransform t => (tf.frame_id_ t, tf.child_frame_id_ t)
  end.

(** The two subscriptions of [setup] make the node a sequence of
    callback calls: a raw pose, with the global parameters and the
    uninitialised local of that call, or a correction. *)
Inductive Call :=
| RawPose (params : GlobalParams) (unset : bool) (laserOdometry : nav_msgs.Odometry)
| Correction (odomAftMapped : nav_msgs.Odometry).

Definition call (c : Call) (tm : @TransformMaintenance Basic)
  : TransformMaintenance * list Publication :=
  match c with
  | RawPose params unset laserOdometry => laserOdometryHandler params unset laserOdometry tm
  | Correction odomAftMapped => (odomAftMappedHandler odomAftMapped tm, [])
  end.

Fixpoint calls (cs : list Call) (tm : @TransformMaintenance Basic)
  : TransformMaintenance * list Publication :=
  match cs with
  | [] => (tm, [])
  | c :: cs' =>
      let '(tm1, out1) := call c tm in
      let '(tm2, out2) := calls cs' tm1 in
      (tm2, out1 ++ out2)
  end.

(** The stamps of the raw poses of a sequence of calls, in order. *)
Definition rawStamps (cs : list Call) : list ros.Time :=
  flat_map (fun c => match c with
                     | RawPose _ _ laserOdometry => [nav_msgs.header_stamp laserOdometry]
                     | Correction _ => []
                     end) cs.

(** The stamps of the odometry messages of an output, in order. *)
Definition poseStamps (out : list Publication) : list ros.Time :=
  map stampOfPublication (filter isPose out).

Definition transformCount (out : list Publication) : nat :=
  List.length (filter isTransform out).

End Node.
End MaintenanceLifecycle.

(** ** A small instance of the maintenance base class

    A base object that holds the six numbers of the last raw pose and
    applies no correction; used to run the node on concrete inputs. *)
Module Holding.

#[export] Instance basic : BasicTransformMaintenance (list R) := {|
  updateOdometry := fun rx ry rz x y z _ => [rx; ry; rz; x; y; z];
  updateMappingTransform := fun _ _ _ _ _ _ _ _ _ _ _ _ b => b;
  transformAssociateToMap := fun b => b;
  transformMapped := fun b i => nth i b 0%R
|}.

Definition blankOdometry2 : nav_msgs.Odometry :=
  nav_msgs.mkOdometry 0 "/camera_init" "/camera"
    (tf.mkQuaternion 0 0 0 1) (tf.mkVector3 0 0 0) (repeat 0%R 36)
    (tf.mkVector3 0 0 0) (tf.mkVector3 0 0 0).

Definition blankTransform2 : tf.StampedTransform :=
  tf.mkStampedTransform 0 "/camera_init" "/camera"
    (tf.mkQuaternion 0 0 0 1) (tf.mkVector3 0 0 0).

(** A node after construction. *)
Definition fresh : @TransformMaintenance.TransformMaintenance (list R) :=
  TransformMaintenance.mkTransformMaintenance [0; 0; 0; 0; 0; 0]%R
    "/aft_mapped_to_init" "/laser_odom_to_init" "/integrated_to_init"
    "/camera" "/camera_init" blankOdometry2 blankTransform2.

End Holding.

(** A quaternion multiplied by a scalar. *)
Definition qscale (s : R) (q : tf.Quaternion) : tf.Quaternion :=
  tf.mkQuaternion (s * tf.x q) (s * tf.y q) (s * tf.z q) (s * tf.w q).

(** ** Binary64 numbers as dyadic rationals

    The value [m * 2^e] of a mantissa and an exponent, the mantissas of
    53 bits, and what it is for the number of mantissa [M] and exponent
    [E] to be a rounding of the real [x] to 53 bits: no 53-bit number
    lies strictly between the two. *)
Module Dyadic.

Definition bpow (e : Z) : R := powerRZ 2 e.
Definition val (m e : Z) : R := (IZR m * bpow e)%R.
Definition normal (m : Z) : Prop := 2 ^ 52 <= m < 2 ^ 53.

Definition faithful (x : R) (M E : Z) : Prop :=
  normal M /\
  (forall a ea, normal a -> (val a ea <= x)%R -> (val a ea <= val M E)%R) /\
  (forall b eb, normal b -> (x <= val b eb)%R -> (val M E <= val b eb)%R).

(** The value with its sign. *)
Definition sval (s : bool) (m e : Z) : R := if s then (- val m e)%R else val m e.

(** The unit all the numbers of [toSec] are multiples of. *)
Definition unit82 : R := bpow (-82).

End Dyadic.

(** ** Proof automation *)

(** Replaces the sines and cosines of the half angles of [r], [p] and
    [y] by variables, keeping the hypotheses that mention them. *)
Ltac abstract_half_angles r p y :=
  generalize dependent (cos (r * / 2)%R); generalize dependent (sin (r * / 2)%R);
  generalize dependent (cos (p * / 2)%R); generalize dependent (sin (p * / 2)%R);
  generalize dependent (cos (y * / 2)%R); generalize dependent (sin (y * / 2)%R);
  intros.

(** Closes [normal m] for a numeral [m]. *)
Ltac normal_const := unfold Dyadic.normal; cbn; lia.

(** * Properties *)

(** ** The tolerance test in binary64

    [Duration::toSec] and the comparison of [hasNewData] are computed in
    [double].  The primitive floats are specified by [SpecFloat]; this
    part derives from that specification what is needed of the rounding
    of a product and of a sum, and with it the stamp differences, in
    nanoseconds, on which the test of the code passes. *)
Module Double.
Import SpecFloat FloatOps FloatAxioms Dyadic.

Local Abbreviation nano := ros.nano.
Local Abbreviation tolerance := ros.tolerance.
Local Abbreviation double_of_int := ros.double_of_int.
Local Abbreviation toSec := ros.toSec.
Local Abbreviation within d := (PrimFloat.ltb (fabs (ros.toSec d)) ros.tolerance).


Lemma bpow_pos (e : Z) : (0 < bpow e)%R.
Proof. apply powerRZ_lt. lra. Qed.

Lemma bpow_add (a b : Z) : bpow (a + b) = (bpow a * bpow b)%R.
Proof. apply powerRZ_add. lra. Qed.

Lemma bpow_IZR (k : Z) : 0 <= k -> bpow k = IZR (2 ^ k).
Proof.
  intro H. unfold bpow. destruct k as [| p | p]; [reflexivity | | lia].
  symmetry. apply (Zpower_pos_powerRZ 2 p).
Qed.

Lemma bpow_le (a b : Z) : a <= b -> (bpow a <= bpow b)%R.
Proof.
  intro H. replace b with (a + (b - a)) by lia. rewrite bpow_add.
  rewrite (bpow_IZR (b - a)) by lia.
  assert (1 <= 2 ^ (b - a)) by (apply Z.lt_succ_r, Z.lt_pred_lt_succ; simpl; apply Z.pow_pos_nonneg; lia).
  pose proof (bpow_pos a). apply IZR_le in H0.
  nra.
Qed.

Lemma bpow_lt_inv (a b : Z) : (bpow a < bpow b)%R -> a < b.
Proof.
  intro H. destruct (Z_lt_le_dec a b) as [L | L]; [exact L |].
  apply bpow_le in L. lra.
Qed.

Lemma val_shift (m e k : Z) : 0 <= k -> val (m * 2 ^ k) (e - k) = val m e.
Proof.
  intro H. unfold val. rewrite mult_IZR, <- bpow_IZR by exact H.
  replace e with ((e - k) + k) at 2 by lia. rewrite bpow_add. ring.
Qed.

Lemma val_le_same (a b e : Z) : a <= b -> (val a e <= val b e)%R.
Proof.
  intro H. unfold val. apply IZR_le in H. pose proof (bpow_pos e). nra.
Qed.

Lemma val_lt_same_inv (a b e : Z) : (val a e < val b e)%R -> a < b.
Proof.
  unfold val. intro H. pose proof (bpow_pos e).
  apply lt_IZR. nra.
Qed.

Lemma val_lt_same (a b e : Z) : a < b -> (val a e < val b e)%R.
Proof.
  intro H. unfold val. apply IZR_lt in H. pose proof (bpow_pos e). nra.
Qed.

(** Between two neighbours of the 53-bit grid there is no 53-bit number. *)
Lemma grid_below (a ea q eq : Z) :
  normal a -> normal q -> (val a ea < val (q + 1) eq)%R -> (val a ea <= val q eq)%R.
Proof.
  unfold normal. intros Ha Hq H.
  destruct (Z_le_gt_dec eq ea) as [L | L].
  - rewrite <- (val_shift a ea (ea - eq)) in * by lia.
    replace (ea - (ea - eq)) with eq in * by lia.
    apply val_lt_same_inv in H. apply val_le_same. lia.
  - rewrite <- (val_shift q eq (eq - ea)) by lia.
    replace (eq - (eq - ea)) with ea by lia.
    apply val_le_same.
    assert (2 ^ 1 <= 2 ^ (eq - ea)) by (apply Z.pow_le_mono_r; lia).
    change (2 ^ 1) with 2 in *. change (2 ^ 52) with 4503599627370496 in *.
    change (2 ^ 53) with 9007199254740992 in *. nia.
Qed.

Lemma grid_above (b eb q eq : Z) :
  normal b -> normal q -> (val q eq < val b eb)%R -> (val (q + 1) eq <= val b eb)%R.
Proof.
  unfold normal. intros Hb Hq H.
  destruct (Z_le_gt_dec eq eb) as [L | L].
  - rewrite <- (val_shift b eb (eb - eq)) in * by lia.
    replace (eb - (eb - eq)) with eq in * by lia.
    apply val_lt_same_inv in H. apply val_le_same. lia.
  - exfalso.
    rewrite <- (val_shift q eq (eq - eb)) in H by lia.
    replace (eq - (eq - eb)) with eb in H by lia.
    apply val_lt_same_inv in H.
    assert (2 ^ 1 <= 2 ^ (eq - eb)) by (apply Z.pow_le_mono_r; lia).
    change (2 ^ 1) with 2 in *. change (2 ^ 52) with 4503599627370496 in *.
    change (2 ^ 53) with 9007199254740992 in *. nia.
Qed.

(** A result on the grid next to x is faithful. *)
Lemma faithful_intro (x : R) (q eq M E : Z) :
  normal q -> normal M ->
  (val q eq <= x < val (q + 1) eq)%R ->
  (val M E = val q eq \/ (val M E = val (q + 1) eq /\ (val q eq < x)%R)) ->
  faithful x M E.
Proof.
  intros Hq HM Hx HME. split; [exact HM |]. split.
  - intros a ea Ha Hax.
    assert (val a ea <= val q eq)%R by (apply grid_below; auto; lra).
    assert (val q eq <= val (q + 1) eq)%R by (apply val_le_same; lia).
    destruct HME as [-> | [-> _]]; lra.
  - intros b eb Hb Hxb.
    destruct HME as [-> | [-> Hlt]]; [lra |].
    apply grid_above; auto. lra.
Qed.

Lemma faithful_exact (x : R) (M E a ea : Z) :
  faithful x M E -> normal a -> val a ea = x -> val M E = x.
Proof.
  intros (_ & L & U) Ha E1.
  specialize (L a ea Ha). specialize (U a ea Ha). lra.
Qed.

Lemma digits2_pos_bounds (m : positive) :
  2 ^ (Zpos (digits2_pos m) - 1) <= Zpos m < 2 ^ Zpos (digits2_pos m).
Proof.
  induction m as [m IH | m IH |]; cbn [digits2_pos].
  - rewrite Pos2Z.inj_succ, (Pos2Z.inj_xI m).
    replace (Z.succ (Zpos (digits2_pos m)) - 1) with (Z.succ (Zpos (digits2_pos m) - 1)) by lia.
    rewrite !Z.pow_succ_r by lia. lia.
  - rewrite Pos2Z.inj_succ, (Pos2Z.inj_xO m).
    replace (Z.succ (Zpos (digits2_pos m)) - 1) with (Z.succ (Zpos (digits2_pos m) - 1)) by lia.
    rewrite !Z.pow_succ_r by lia. lia.
  - cbn. lia.
Qed.

Lemma digits2_pos_unique (m : positive) (d : Z) :
  2 ^ (d - 1) <= Zpos m < 2 ^ d -> Zpos (digits2_pos m) = d.
Proof.
  intro H. pose proof (digits2_pos_bounds m) as B.
  assert (0 < d).
  { destruct (Z_lt_le_dec 0 d); [assumption |].
    destruct (Z.eq_dec d 0) as [-> | ]; [cbn in H; lia |].
    rewrite (Z.pow_neg_r 2 d) in H by lia. lia. }
  assert (Zpos (digits2_pos m) - 1 < d).
  { apply (Z.pow_lt_mono_r_iff 2); lia. }
  assert (d - 1 < Zpos (digits2_pos m)).
  { apply (Z.pow_lt_mono_r_iff 2); lia. }
  lia.
Qed.

Lemma iter_pos_nat {A : Type} (f : A -> A) (p : positive) (x : A) :
  iter_pos f p x = Nat.iter (Pos.to_nat p) f x.
Proof.
  revert x. induction p as [p IH | p IH |]; intro x; cbn [iter_pos].
  - rewrite !IH, Pos2Nat.inj_xI, Nat.iter_succ_r.
    replace (2 * Pos.to_nat p)%nat with (Pos.to_nat p + Pos.to_nat p)%nat by lia.
    rewrite Nat.iter_add. reflexivity.
  - rewrite !IH, Pos2Nat.inj_xO.
    replace (2 * Pos.to_nat p)%nat with (Pos.to_nat p + Pos.to_nat p)%nat by lia.
    rewrite Nat.iter_add. reflexivity.
  - reflexivity.
Qed.

Lemma shr_1_spec (m : Z) (r s : bool) :
  0 <= m ->
  shr_1 (Build_shr_record m r s) = Build_shr_record (m / 2) (Z.odd m) (r || s).
Proof.
  intro H. rewrite <- Z.div2_div.
  destruct m as [| [p | p |] | p]; try lia; reflexivity.
Qed.

Lemma shr_iter (m0 : Z) (k : nat) :
  0 <= m0 ->
  let st := Nat.iter k shr_1 (Build_shr_record m0 false false) in
  shr_m st = m0 / 2 ^ Z.of_nat k /\
  (shr_r st || shr_s st = true -> m0 mod 2 ^ Z.of_nat k <> 0).
Proof.
  intro H0. induction k as [| k IH]; cbn zeta.
  - cbn. rewrite Z.div_1_r. split; [reflexivity | discriminate].
  - rewrite Nat.iter_succ. cbn zeta in IH.
    destruct (Nat.iter k shr_1 _) as [m r s]. cbn [shr_m shr_r shr_s] in IH.
    destruct IH as [Hm Hrs].
    assert (0 < 2 ^ Z.of_nat k) as Hp by (apply Z.pow_pos_nonneg; lia).
    assert (0 <= m) by (subst m; apply Z.div_pos; lia).
    rewrite shr_1_spec by assumption. cbn [shr_m shr_r shr_s].
    rewrite Nat2Z.inj_succ, Z.pow_succ_r by lia.
    split.
    + subst m. rewrite Z.div_div by lia. f_equal. lia.
    + intros Hor Hmod.
      apply Z.mod_divide in Hmod; [| lia]. destruct Hmod as [c Hc].
      assert (m0 = (2 * c) * 2 ^ Z.of_nat k) as Hc' by lia.
      assert (m = 2 * c) by (subst m; rewrite Hc'; apply Z.div_mul; lia).
      assert (m0 mod 2 ^ Z.of_nat k = 0) by (rewrite Hc'; apply Z.mod_mul; lia).
      apply orb_true_iff in Hor. destruct Hor as [Ho | Ho].
      * subst m. rewrite H1 in Ho. rewrite Z.odd_mul in Ho. discriminate.
      * apply Hrs; assumption.
Qed.

Lemma shr_pos (m0 : Z) (p : positive) (e : Z) :
  0 <= m0 ->
  exists r s,
    shr (Build_shr_record m0 false false) e (Zpos p)
      = (Build_shr_record (m0 / 2 ^ Zpos p) r s, e + Zpos p) /\
    (r || s = true -> m0 mod 2 ^ Zpos p <> 0).
Proof.
  intro H. unfold shr. rewrite iter_pos_nat.
  pose proof (shr_iter m0 (Pos.to_nat p) H) as I. cbn zeta in I.
  rewrite positive_nat_Z in I.
  destruct (Nat.iter _ _ _) as [m r s]. cbn in I. destruct I as [-> I].
  exists r, s. split; [reflexivity | exact I].
Qed.

Lemma round_nearest_even_cases (q : Z) (r s : bool) :
  let m1 := round_nearest_even q (loc_of_shr_record (Build_shr_record q r s)) in
  m1 = q \/ (m1 = q + 1 /\ r || s = true).
Proof.
  destruct r, s; cbn; auto. destruct (Z.even q); auto.
Qed.

Lemma shr_fexp_exact (m : positive) (e : Z) :
  -1074 <= Zpos (digits2_pos m) + e - 53 ->
  shr_fexp prec emax (Zpos m) e loc_Exact
  = shr (Build_shr_record (Zpos m) false false) e (Zpos (digits2_pos m) - 53).
Proof.
  intro H. unfold shr_fexp, fexp, SpecFloat.emin, Zdigits2, prec, emax.
  cbn [shr_record_of_loc]. change (3 - 1024 - 53) with (-1074).
  rewrite Z.max_l by lia. f_equal. lia.
Qed.

(** The result of rounding a number of exactly 53 or 54 bits. *)
Lemma finish_round (s : bool) (m1 : positive) (e1 : Z) :
  2 ^ 52 <= Zpos m1 <= 2 ^ 53 -> -1074 <= e1 -> e1 <= 970 ->
  exists M E,
    (let '(mrs, e2) := shr_fexp prec emax (Zpos m1) e1 loc_Exact in
     match shr_m mrs with
     | Z0 => S754_zero s
     | Zpos m => if e2 <=? emax - prec then S754_finite s m e2 else S754_infinity s
     | Zneg _ => S754_nan
     end) = S754_finite s M E /\
    normal (Zpos M) /\ val (Zpos M) E = val (Zpos m1) e1.
Proof.
  intros Hm Hlo Hhi.
  destruct (Z.eq_dec (Zpos m1) (2 ^ 53)) as [E53 | N53].
  - assert (Zpos (digits2_pos m1) = 54) as D
      by (apply digits2_pos_unique; rewrite E53; cbn; lia).
    rewrite shr_fexp_exact by lia. rewrite D. change (54 - 53) with 1.
    injection E53 as ->. cbn [shr iter_pos shr_1 shr_m].
    exists 4503599627370496%positive, (e1 + 1). split.
    + unfold emax, prec. destruct (Z.leb_spec (e1 + 1) (1024 - 53)); [reflexivity | lia].
    + split; [unfold normal; cbn; lia |].
      rewrite <- (val_shift 4503599627370496 (e1 + 1) 1) by lia.
      f_equal. lia.
  - assert (Zpos (digits2_pos m1) = 53) as D
      by (apply digits2_pos_unique; cbn in *; lia).
    rewrite shr_fexp_exact by lia. rewrite D. change (53 - 53) with 0.
    cbn [shr shr_m]. exists m1, e1. split.
    + unfold emax, prec. destruct (Z.leb_spec e1 (1024 - 53)); [reflexivity | lia].
    + split; [unfold normal; cbn in *; lia | reflexivity].
Qed.

Lemma BRA_faithful (s : bool) (m : positive) (e : Z) :
  53 <= Zpos (digits2_pos m) ->
  -1074 <= Zpos (digits2_pos m) + e - 53 -> Zpos (digits2_pos m) + e <= 1023 ->
  exists M E,
    binary_round_aux prec emax s (Zpos m) e loc_Exact = S754_finite s M E /\
    faithful (val (Zpos m) e) (Zpos M) E.
Proof.
  intros HD Hlo Hhi. pose proof (digits2_pos_bounds m) as B.
  unfold binary_round_aux. rewrite shr_fexp_exact by lia.
  remember (Zpos (digits2_pos m)) as D eqn:ED. clear ED.
  destruct (D - 53) as [| p | p] eqn:En; [| | lia].
  - (* exactly 53 bits *)
    assert (D = 53) as D53 by lia. rewrite D53 in B. change (53 - 1) with 52 in B.
    cbn [shr shr_m loc_of_shr_record round_nearest_even].
    destruct (finish_round s m e) as (M & E & R & NM & V); [lia | lia | lia |].
    exists M, E. split; [exact R |].
    apply (faithful_intro _ (Zpos m) e);
      [unfold normal; lia | exact NM
      | split; [lra | apply val_lt_same; lia] | left; exact V].
  - (* more than 53 bits *)
    destruct (shr_pos (Zpos m) p e) as (r & st & -> & Hrs); [lia |].
    set (n := Zpos p) in *. assert (D = 53 + n) as Dn by lia.
    set (q := Zpos m / 2 ^ n) in *.
    assert (0 < 2 ^ n) as Hpn by (apply Z.pow_pos_nonneg; lia).
    assert (normal q) as Nq.
    { unfold normal, q. rewrite Dn in B.
      replace (53 + n - 1) with (52 + n) in B by lia.
      rewrite !Z.pow_add_r in B by lia. split.
      - apply Z.div_le_lower_bound; lia.
      - apply Z.div_lt_upper_bound; lia. }
    pose proof (Z.div_mod (Zpos m) (2 ^ n) ltac:(lia)) as DM. fold q in DM.
    pose proof (Z.mod_pos_bound (Zpos m) (2 ^ n) Hpn) as MB.
    set (rem := Zpos m mod 2 ^ n) in *.
    assert (val (Zpos m) e = val q (e + n) + IZR rem * bpow e)%R as Vx.
    { rewrite <- (val_shift q (e + n) n) by lia.
      replace (e + n - n) with e by lia. unfold val.
      rewrite DM at 1. rewrite plus_IZR, !mult_IZR. ring. }
    assert (val (q + 1) (e + n) = val q (e + n) + IZR (2 ^ n) * bpow e)%R as Vq1.
    { rewrite <- (val_shift (q + 1) (e + n) n), <- (val_shift q (e + n) n) by lia.
      replace (e + n - n) with e by lia. unfold val.
      rewrite !mult_IZR, plus_IZR. ring. }
    pose proof (bpow_pos e) as Pe.
    assert (0 <= IZR rem < IZR (2 ^ n))%R as RB
      by (split; [apply IZR_le | apply IZR_lt]; lia).
    cbn [shr_m].
    pose proof (round_nearest_even_cases q r st) as RC. cbn zeta in RC.
    set (m1 := round_nearest_even q _) in *.
    assert (2 ^ 52 <= m1 <= 2 ^ 53) as Hm1 by (unfold normal in Nq; lia).
    clearbody m1.
    destruct m1 as [| p1 | p1]; [cbn in Hm1; lia | | cbn in Hm1; lia].
    destruct (finish_round s p1 (e + n)) as (M & E & R & NM & V); [lia | lia | lia |].
    exists M, E. split; [exact R |].
    apply (faithful_intro _ q (e + n)); [exact Nq | exact NM | split; nra |].
    rewrite V. destruct RC as [-> | [-> Hor]]; [left; reflexivity | right].
    split; [reflexivity |].
    specialize (Hrs Hor).
    assert (0 < IZR rem)%R by (apply IZR_lt; lia). nra.
Qed.

Lemma digits_of_val (m : positive) (e lo hi : Z) :
  (bpow lo <= val (Zpos m) e < bpow hi)%R ->
  lo < Zpos (digits2_pos m) + e <= hi.
Proof.
  intros [L H]. pose proof (digits2_pos_bounds m) as [B1 B2].
  set (D := Zpos (digits2_pos m)) in *.
  assert (0 < D) by (unfold D; lia).
  assert (val (Zpos m) e < bpow (D + e))%R.
  { rewrite bpow_add, (bpow_IZR D) by lia. apply val_lt_same. exact B2. }
  assert (bpow (D - 1 + e) <= val (Zpos m) e)%R.
  { rewrite bpow_add, (bpow_IZR (D - 1)) by lia. apply val_le_same. exact B1. }
  assert (lo < D + e) by (apply bpow_lt_inv; lra).
  assert (D - 1 + e < hi) by (apply bpow_lt_inv; lra).
  lia.
Qed.

Lemma iter_xO (m d : positive) : Zpos (Pos.iter xO m d) = Zpos m * 2 ^ Zpos d.
Proof.
  induction d as [| d IH] using Pos.peano_ind.
  - cbn. lia.
  - rewrite Pos.iter_succ, Pos2Z.inj_xO, IH, Pos2Z.inj_succ, Z.pow_succ_r by lia. ring.
Qed.

Lemma binary_round_faithful (s : bool) (m : positive) (e lo hi : Z) :
  -1021 <= lo -> hi <= 1023 ->
  (bpow lo <= val (Zpos m) e < bpow hi)%R ->
  exists M E,
    binary_round prec emax s m e = S754_finite s M E /\
    faithful (val (Zpos m) e) (Zpos M) E.
Proof.
  intros Hlo Hhi Hv. pose proof (digits_of_val m e lo hi Hv) as HD.
  pose proof (digits2_pos_bounds m) as B.
  unfold binary_round, shl_align, fexp, SpecFloat.emin, prec, emax.
  change (3 - 1024 - 53) with (-1074). rewrite Z.max_l by lia.
  remember (Zpos (digits2_pos m)) as D eqn:ED.
  replace (D + e - 53 - e) with (D - 53) by lia.
  destruct (D - 53) as [| p | d] eqn:En.
  - subst D. apply BRA_faithful; lia.
  - subst D. apply BRA_faithful; lia.
  - assert (Zpos (digits2_pos (Pos.iter xO m d)) = 53) as D53.
    { apply digits2_pos_unique. rewrite iter_xO.
      assert (Zpos d = 53 - D) as -> by lia.
      assert (0 < D) by (subst D; lia).
      split.
      - replace (53 - 1) with ((D - 1) + (53 - D)) by lia.
        rewrite Z.pow_add_r by lia. apply Z.mul_le_mono_nonneg_r; [| lia].
        apply Z.pow_nonneg. lia.
      - replace 53 with (D + (53 - D)) at 2 by lia.
        rewrite Z.pow_add_r by lia. apply Z.mul_lt_mono_pos_r; [| lia].
        apply Z.pow_pos_nonneg; lia. }
    assert (val (Zpos (Pos.iter xO m d)) (D + e - 53) = val (Zpos m) e) as V.
    { rewrite iter_xO. replace (D + e - 53) with (e - Zpos d) by lia.
      apply val_shift. lia. }
    rewrite <- V. apply BRA_faithful; rewrite ?D53; lia.
Qed.

Lemma SF64mul_faithful (sx sy : bool) (mx my : positive) (ex ey lo hi : Z) :
  normal (Zpos mx) -> normal (Zpos my) ->
  -1021 <= lo -> hi <= 1023 ->
  (bpow lo <= val (Zpos mx) ex * val (Zpos my) ey < bpow hi)%R ->
  exists M E,
    SF64mul (S754_finite sx mx ex) (S754_finite sy my ey) = S754_finite (xorb sx sy) M E /\
    faithful (val (Zpos mx) ex * val (Zpos my) ey) (Zpos M) E.
Proof.
  intros Nx Ny Hlo Hhi Hv.
  assert (val (Zpos (mx * my)) (ex + ey) = val (Zpos mx) ex * val (Zpos my) ey)%R as V.
  { unfold val. rewrite Pos2Z.inj_mul, mult_IZR, bpow_add. ring. }
  rewrite <- V in *.
  pose proof (digits_of_val _ _ _ _ Hv) as HD.
  unfold SF64mul, SFmul. apply BRA_faithful; try lia.
  pose proof (digits2_pos_bounds (mx * my)) as [_ B].
  rewrite Pos2Z.inj_mul in B. unfold normal in *.
  assert (2 ^ 52 * 2 ^ 52 <= Zpos mx * Zpos my) by (apply Z.mul_le_mono_nonneg; lia).
  rewrite <- Z.pow_add_r in H by lia.
  assert (52 + 52 < Zpos (digits2_pos (mx * my))).
  { apply (Z.pow_lt_mono_r_iff 2); lia. }
  lia.
Qed.

Lemma shl_align_min (m : positive) (e ez : Z) :
  ez <= e -> Zpos (fst (shl_align m e ez)) = Zpos m * 2 ^ (e - ez).
Proof.
  intro H. unfold shl_align. destruct (ez - e) as [| p | d] eqn:En.
  - replace (e - ez) with 0 by lia. cbn [fst]. lia.
  - lia.
  - cbn [fst]. rewrite iter_xO. f_equal. f_equal. lia.
Qed.

Lemma SF64add_sum (sx sy : bool) (mx my : positive) (ex ey : Z) :
  exists z ez,
    SF64add (S754_finite sx mx ex) (S754_finite sy my ey)
      = binary_normalize prec emax z ez false /\
    val z ez = (sval sx (Zpos mx) ex + sval sy (Zpos my) ey)%R.
Proof.
  unfold SF64add, SFadd. eexists _, _. split; [reflexivity |].
  set (ez := Z.min ex ey).
  rewrite !shl_align_min by (unfold ez; lia).
  assert (forall s m e, ez <= e ->
            (IZR (cond_Zopp s (Zpos m * 2 ^ (e - ez))) * bpow ez)%R = sval s (Zpos m) e) as C.
  { intros s m e He. unfold sval. rewrite <- (val_shift (Zpos m) e (e - ez)) by lia.
    replace (e - (e - ez)) with ez by lia. unfold val, cond_Zopp.
    destruct s; [rewrite opp_IZR; ring | reflexivity]. }
  unfold val at 1. rewrite plus_IZR, Rmult_plus_distr_r, !C by (unfold ez; lia).
  reflexivity.
Qed.

Lemma SF64add_pos (sx sy : bool) (mx my : positive) (ex ey lo hi : Z) :
  -1021 <= lo -> hi <= 1023 ->
  (bpow lo <= sval sx (Zpos mx) ex + sval sy (Zpos my) ey < bpow hi)%R ->
  exists M E,
    SF64add (S754_finite sx mx ex) (S754_finite sy my ey) = S754_finite false M E /\
    faithful (sval sx (Zpos mx) ex + sval sy (Zpos my) ey) (Zpos M) E.
Proof.
  intros Hlo Hhi Hv.
  destruct (SF64add_sum sx sy mx my ex ey) as (z & ez & -> & V).
  rewrite <- V in *. pose proof (bpow_pos lo) as P. pose proof (bpow_pos ez) as Pz.
  destruct z as [| p | p]; unfold val in Hv.
  - lra.
  - cbn [binary_normalize]. apply (binary_round_faithful false p ez lo hi); assumption.
  - exfalso. assert (IZR (Zneg p) < 0)%R by (apply IZR_lt; lia). nra.
Qed.

Lemma SF64add_neg (sx sy : bool) (mx my : positive) (ex ey lo hi : Z) :
  -1021 <= lo -> hi <= 1023 ->
  (bpow lo <= - (sval sx (Zpos mx) ex + sval sy (Zpos my) ey) < bpow hi)%R ->
  exists M E,
    SF64add (S754_finite sx mx ex) (S754_finite sy my ey) = S754_finite true M E /\
    faithful (- (sval sx (Zpos mx) ex + sval sy (Zpos my) ey)) (Zpos M) E.
Proof.
  intros Hlo Hhi Hv.
  destruct (SF64add_sum sx sy mx my ex ey) as (z & ez & -> & V).
  rewrite <- V in *. pose proof (bpow_pos lo) as P. pose proof (bpow_pos ez) as Pz.
  destruct z as [| p | p]; unfold val in Hv.
  - lra.
  - exfalso. assert (0 < IZR (Zpos p))%R by (apply IZR_lt; lia). nra.
  - cbn [binary_normalize].
    assert (- val (Zneg p) ez = val (Zpos p) ez)%R as W.
    { unfold val. change (Zneg p) with (- Zpos p). rewrite opp_IZR. ring. }
    rewrite W. apply (binary_round_faithful true p ez lo hi); try assumption.
    rewrite <- W. exact Hv.
Qed.

Lemma SFltb_normal (M M' : positive) (E E' : Z) :
  normal (Zpos M) -> normal (Zpos M') ->
  SFltb (S754_finite false M E) (S754_finite false M' E') = true
  <-> (val (Zpos M) E < val (Zpos M') E')%R.
Proof.
  unfold normal. intros N N'. unfold SFltb, SFcompare.
  change (2 ^ 52) with 4503599627370496 in *.
  change (2 ^ 53) with 9007199254740992 in *.
  destruct (Z.compare_spec E E') as [-> | L | L].
  - rewrite Pos.compare_cont_spec. cbn [Pos.switch_Eq].
    destruct (Pos.compare_spec M M') as [-> | L | L].
    + split; [discriminate | lra].
    + split; [intros _; apply val_lt_same; lia | reflexivity].
    + split; [discriminate |]. intro H. apply val_lt_same_inv in H. lia.
  - split; [intros _ | reflexivity].
    rewrite <- (val_shift (Zpos M') E' (E' - E)) by lia.
    replace (E' - (E' - E)) with E by lia. apply val_lt_same.
    assert (2 ^ 1 <= 2 ^ (E' - E)) by (apply Z.pow_le_mono_r; lia).
    change (2 ^ 1) with 2 in *. nia.
  - split; [discriminate |]. intro H. exfalso.
    rewrite <- (val_shift (Zpos M) E (E - E')) in H by lia.
    replace (E - (E - E')) with E' in H by lia. apply val_lt_same_inv in H.
    assert (2 ^ 1 <= 2 ^ (E - E')) by (apply Z.pow_le_mono_r; lia).
    change (2 ^ 1) with 2 in *. nia.
Qed.

Lemma normal_rep (z : Z) :
  0 < z < 2 ^ 53 -> exists a ea, normal a /\ val a ea = IZR z.
Proof.
  intro H. destruct z as [| p | p]; try lia.
  pose proof (digits2_pos_bounds p) as B.
  remember (Zpos (digits2_pos p)) as D eqn:ED.
  assert (0 < D) by (subst D; lia).
  assert (D <= 53).
  { destruct (Z_le_gt_dec D 53); [assumption |].
    assert (2 ^ 53 <= 2 ^ (D - 1)) by (apply Z.pow_le_mono_r; lia). lia. }
  exists (Zpos p * 2 ^ (53 - D)), (0 - (53 - D)). split.
  - unfold normal. split.
    + replace 52 with ((D - 1) + (53 - D)) by lia. rewrite Z.pow_add_r by lia.
      apply Z.mul_le_mono_nonneg_r; [apply Z.pow_nonneg; lia | lia].
    + replace 53 with (D + (53 - D)) at 2 by lia. rewrite Z.pow_add_r by lia.
      apply Z.mul_lt_mono_pos_r; [apply Z.pow_pos_nonneg; lia | lia].
  - rewrite val_shift by lia. unfold val, bpow. cbn. ring.
Qed.

Lemma Prim2SF_of_pos (z : Z) :
  0 < z < 2 ^ 53 ->
  exists M E, Prim2SF (PrimFloat.of_uint63 (Uint63.of_Z z)) = S754_finite false M E /\
              normal (Zpos M) /\ val (Zpos M) E = IZR z.
Proof.
  intro H. rewrite FloatAxioms.of_uint63_spec, Uint63.of_Z_spec.
  rewrite Z.mod_small
    by (split; [lia |]; apply Z.lt_trans with (2 ^ 53); [lia | reflexivity]).
  destruct z as [| p | p]; try lia. cbn [binary_normalize].
  assert (val (Zpos p) 0 = IZR (Zpos p)) as V by (unfold val, bpow; cbn; ring).
  destruct (binary_round_faithful false p 0 0 53) as (M & E & R & F); try lia.
  { rewrite V, (bpow_IZR 53), (bpow_IZR 0) by lia.
    split; [apply IZR_le | apply IZR_lt]; cbn; lia. }
  exists M, E. split; [exact R |]. split; [apply F |].
  destruct (normal_rep (Zpos p) H) as (a & ea & Na & Va).
  rewrite <- V. apply (faithful_exact _ _ _ a ea); auto. rewrite V. exact Va.
Qed.

Lemma Prim2SF_double_of_int (z : Z) :
  - 2 ^ 53 < z < 2 ^ 53 -> z <> 0 ->
  exists M E, Prim2SF (double_of_int z) = S754_finite (z <? 0) M E /\
              normal (Zpos M) /\ val (Zpos M) E = IZR (Z.abs z).
Proof.
  intros H Hz. unfold ros.double_of_int. destruct (Z.ltb_spec z 0) as [L | L].
  - destruct (Prim2SF_of_pos (- z)) as (M & E & R & N & V); [lia |].
    exists M, E. rewrite FloatAxioms.opp_spec, R. cbn [SFopp negb].
    split; [reflexivity |]. split; [exact N |]. rewrite V. f_equal. lia.
  - destruct (Prim2SF_of_pos z) as (M & E & R & N & V); [lia |].
    exists M, E. split; [exact R |]. split; [exact N |]. rewrite V. f_equal. lia.
Qed.

(** The two literals are the quotients 1 / 10^9 and 5 / 1000 rounded to
    binary64, the doubles nearest to [1e-9] and [0.005]. *)
Example literals_nearest :
  ros.nano = PrimFloat.div (ros.double_of_int 1) (ros.double_of_int 1000000000) /\
  ros.tolerance = PrimFloat.div (ros.double_of_int 5) (ros.double_of_int 1000).
Proof. split; reflexivity. Qed.

Lemma Prim2SF_nano : Prim2SF nano = S754_finite false 4835703278458517 (-82).
Proof. reflexivity. Qed.

Lemma Prim2SF_tolerance : Prim2SF tolerance = S754_finite false 5764607523034235 (-60).
Proof. reflexivity. Qed.

Lemma val_unit (m e : Z) :
  -82 <= e -> val m e = (IZR m * IZR (2 ^ (e + 82)) * unit82)%R.
Proof.
  intro H. unfold unit82. rewrite <- (val_shift m e (e + 82)) by lia.
  replace (e - (e + 82)) with (-82) by lia. unfold val. rewrite mult_IZR. ring.
Qed.

Lemma one_unit : (IZR (2 ^ 82) * unit82 = 1)%R.
Proof.
  unfold unit82. rewrite <- bpow_IZR, <- bpow_add by lia. reflexivity.
Qed.

Lemma unit82_pos : (0 < unit82)%R.
Proof. apply bpow_pos. Qed.

(** The product [1e-9 * (double)nsec]. *)
Lemma Prim2SF_nsec (N : Z) :
  1 <= N < 1000000000 ->
  exists M E,
    Prim2SF (PrimFloat.mul nano (double_of_int N)) = S754_finite false M E /\
    faithful (IZR 4835703278458517 * IZR N * unit82) (Zpos M) E.
Proof.
  intro H.
  destruct (Prim2SF_double_of_int N) as (MN & EN & R & NN & VN); [cbn; lia | lia |].
  replace (N <? 0) with false in R by (symmetry; apply Z.ltb_ge; lia).
  rewrite Z.abs_eq in VN by lia.
  rewrite FloatAxioms.mul_spec, Prim2SF_nano, R.
  assert (val 4835703278458517 (-82) * val (Zpos MN) EN
          = IZR 4835703278458517 * IZR N * unit82)%R as V.
  { rewrite VN. unfold val, unit82. ring. }
  rewrite <- V.
  apply (SF64mul_faithful false false _ _ _ _ (-30) 0);
    [unfold normal; cbn; lia | exact NN | lia | lia |].
  rewrite V. pose proof unit82_pos as U. pose proof one_unit as O.
  assert (bpow (-30) = IZR (2 ^ 52) * unit82)%R as ->.
  { unfold unit82. rewrite <- bpow_IZR, <- bpow_add by lia. reflexivity. }
  change (bpow 0) with 1%R. rewrite <- O.
  assert (1 <= IZR N <= 999999999)%R as HN by (split; apply IZR_le; lia).
  change (2 ^ 52) with 4503599627370496. change (2 ^ 82) with 4835703278458516698824704.
  split; nra.
Qed.

Lemma Prim2SF_nsec0 :
  Prim2SF (PrimFloat.mul nano (double_of_int 0)) = S754_zero false.
Proof. reflexivity. Qed.

Lemma within_finite (d : Z) (s : bool) (M : positive) (E : Z) :
  Prim2SF (toSec d) = S754_finite s M E -> normal (Zpos M) ->
  (within d = true <-> (val (Zpos M) E < val 5764607523034235 (-60))%R).
Proof.
  intros F N. unfold fabs.
  rewrite FloatAxioms.ltb_spec, FloatAxioms.abs_spec, F, Prim2SF_tolerance.
  cbn [SFabs]. apply SFltb_normal; [exact N | unfold normal; cbn; lia].
Qed.

Lemma toSec_spec (d : Z) :
  Prim2SF (toSec d)
  = SF64add (Prim2SF (double_of_int (d / 1000000000)))
            (Prim2SF (PrimFloat.mul nano (double_of_int (d mod 1000000000)))).
Proof. unfold ros.toSec, ros.sec, ros.nsec. apply FloatAxioms.add_spec. Qed.

Lemma not_true_false (b : bool) (P : Prop) : (b = true <-> P) -> ~ P -> b = false.
Proof. intros H N. destruct b; [exfalso; apply N, H; reflexivity | reflexivity]. Qed.

Lemma faithful_upper (x : R) (M E b eb : Z) :
  faithful x M E -> normal b -> -82 <= eb ->
  (x <= IZR b * IZR (2 ^ (eb + 82)) * unit82)%R ->
  (val M E <= IZR b * IZR (2 ^ (eb + 82)) * unit82)%R.
Proof.
  intros (_ & _ & U) Nb He Hx. rewrite <- val_unit in * by exact He. apply U; assumption.
Qed.

Lemma faithful_lower (x : R) (M E a ea : Z) :
  faithful x M E -> normal a -> -82 <= ea ->
  (IZR a * IZR (2 ^ (ea + 82)) * unit82 <= x)%R ->
  (IZR a * IZR (2 ^ (ea + 82)) * unit82 <= val M E)%R.
Proof.
  intros (_ & L & _) Na He Hx. rewrite <- val_unit in * by exact He. apply L; assumption.
Qed.

Lemma tolerance_unit :
  val 5764607523034235 (-60) = (IZR 5764607523034235 * IZR 4194304 * unit82)%R.
Proof. rewrite val_unit by lia. reflexivity. Qed.

Lemma zero_seconds (d : Z) :
  1 <= d <= 999999999 ->
  exists M E,
    Prim2SF (toSec d) = S754_finite false M E /\
    faithful (IZR 4835703278458517 * IZR d * unit82) (Zpos M) E.
Proof.
  intro H. rewrite toSec_spec.
  rewrite Z.div_small, Z.mod_small by lia.
  destruct (Prim2SF_nsec d) as (M & E & -> & F); [lia |].
  exists M, E. split; [reflexivity | exact F].
Qed.

Lemma within_small_pos (d : Z) : 1 <= d <= 4999999 -> within d = true.
Proof.
  intro H. destruct (zero_seconds d) as (M & E & F & Fa); [lia |].
  apply (within_finite d _ _ _ F (proj1 Fa)). rewrite tolerance_unit.
  pose proof unit82_pos as P.
  assert (1 <= IZR d <= 4999999)%R as Hd by (split; apply IZR_le; lia).
  pose proof (faithful_upper _ _ _ 5764607000000000 (-60) Fa) as U.
  change (2 ^ (-60 + 82)) with 4194304 in U.
  assert (val (Zpos M) E <= IZR 5764607000000000 * IZR 4194304 * unit82)%R
    by (apply U; [normal_const | lia | nra]).
  nra.
Qed.

Lemma within_mid_pos (d : Z) : 5000001 <= d <= 999999999 -> within d = false.
Proof.
  intro H. destruct (zero_seconds d) as (M & E & F & Fa); [lia |].
  apply (not_true_false _ _ (within_finite d _ _ _ F (proj1 Fa))). rewrite tolerance_unit.
  pose proof unit82_pos as P.
  assert (5000001 <= IZR d <= 999999999)%R as Hd by (split; apply IZR_le; lia).
  pose proof (faithful_lower _ _ _ 5764608000000000 (-60) Fa) as L.
  change (2 ^ (-60 + 82)) with 4194304 in L.
  assert (IZR 5764608000000000 * IZR 4194304 * unit82 <= val (Zpos M) E)%R
    by (apply L; [normal_const | lia | nra]).
  nra.
Qed.

Lemma bpow_unit (k : Z) : -82 <= k -> bpow k = (IZR (2 ^ (k + 82)) * unit82)%R.
Proof.
  intro H. unfold unit82. rewrite <- bpow_IZR, <- bpow_add by lia. f_equal. lia.
Qed.

(** Whole seconds plus the rounded nanoseconds. *)
Lemma seconds_plus_nsec (S N : Z) :
  S <> 0 -> - 2 ^ 31 <= S < 2 ^ 31 -> 1 <= N < 1000000000 ->
  exists vp M E,
    (0 < vp <= IZR 9007199254740991 * IZR 536870912 * unit82)%R /\
    (forall a ea, normal a -> -82 <= ea ->
       (IZR a * IZR (2 ^ (ea + 82)) * unit82 <= IZR 4835703278458517 * IZR N * unit82)%R ->
       (IZR a * IZR (2 ^ (ea + 82)) * unit82 <= vp)%R) /\
    (forall b eb, normal b -> -82 <= eb ->
       (IZR 4835703278458517 * IZR N * unit82 <= IZR b * IZR (2 ^ (eb + 82)) * unit82)%R ->
       (vp <= IZR b * IZR (2 ^ (eb + 82)) * unit82)%R) /\
    SF64add (Prim2SF (double_of_int S)) (Prim2SF (PrimFloat.mul nano (double_of_int N)))
      = S754_finite (S <? 0) M E /\
    faithful (if S <? 0 then IZR (Z.abs S) - vp else IZR (Z.abs S) + vp)%R (Zpos M) E.
Proof.
  intros HS0 HS HN.
  destruct (Prim2SF_nsec N HN) as (Mp & Ep & -> & Fp).
  destruct (Prim2SF_double_of_int S) as (MS & ES & -> & NS & VS);
    [cbn in *; lia | exact HS0 |].
  pose proof unit82_pos as U. pose proof one_unit as O.
  change (2 ^ 82) with 4835703278458516698824704 in O.
  assert (1 <= IZR N <= 999999999)%R as HNr by (split; apply IZR_le; lia).
  assert (1 <= IZR (Z.abs S) <= 2147483648)%R as HSr
    by (split; apply IZR_le; cbn in HS; lia).
  pose proof (faithful_upper _ _ _ 9007199254740991 (-53) Fp) as Up.
  pose proof (faithful_lower _ _ _ 4503599627370496 (-82) Fp) as Lp.
  change (2 ^ (-53 + 82)) with 536870912 in Up.
  change (2 ^ (-82 + 82)) with 1 in Lp.
  assert (val (Zpos Mp) Ep <= IZR 9007199254740991 * IZR 536870912 * unit82)%R as Hup
    by (apply Up; [normal_const | lia | nra]).
  assert (IZR 4503599627370496 * IZR 1 * unit82 <= val (Zpos Mp) Ep)%R as Hlo
    by (apply Lp; [normal_const | lia | nra]).
  exists (val (Zpos Mp) Ep).
  assert (bpow 0 = IZR 4835703278458516698824704 * unit82)%R as B0
    by (rewrite bpow_unit by lia; reflexivity).
  assert (bpow 32 = IZR 20769187434139310514121985316880384 * unit82)%R as B32
    by (rewrite bpow_unit by lia; reflexivity).
  assert (bpow (-60) = IZR 4194304 * unit82)%R as B60
    by (rewrite bpow_unit by lia; reflexivity).
  destruct (Z.ltb_spec S 0) as [L | L].
  - destruct (SF64add_neg true false MS Mp ES Ep (-60) 32) as (M & E & R & F); [lia | lia | |].
    { unfold sval. rewrite VS, B32, B60. split; lra. }
    exists M, E. split; [split; lra |].
    split; [intros a ea Na He Ha; apply (faithful_lower _ _ _ a ea Fp Na He Ha) |].
    split; [intros b eb Nb He Hb; apply (faithful_upper _ _ _ b eb Fp Nb He Hb) |].
    split; [exact R |].
    unfold sval in F. rewrite VS in F.
    replace (IZR (Z.abs S) - val (Zpos Mp) Ep)%R
      with (- (- IZR (Z.abs S) + val (Zpos Mp) Ep))%R by ring. exact F.
  - destruct (SF64add_pos false false MS Mp ES Ep 0 32) as (M & E & R & F); [lia | lia | |].
    { unfold sval. rewrite VS, B32, B0. split; lra. }
    exists M, E. split; [split; lra |].
    split; [intros a ea Na He Ha; apply (faithful_lower _ _ _ a ea Fp Na He Ha) |].
    split; [intros b eb Nb He Hb; apply (faithful_upper _ _ _ b eb Fp Nb He Hb) |].
    split; [exact R |].
    unfold sval in F. rewrite VS in F. exact F.
Qed.

(** Whole seconds alone: the nanoseconds are zero. *)
Lemma whole_seconds (d : Z) :
  d mod 1000000000 = 0 -> d <> 0 ->
  - 2 ^ 31 * 1000000000 <= d < 2 ^ 31 * 1000000000 ->
  within d = false.
Proof.
  intros HN Hd R.
  pose proof (Z.div_mod d 1000000000 ltac:(lia)) as DM. rewrite HN in DM.
  assert (d / 1000000000 <> 0) as HS by lia.
  change (2 ^ 31) with 2147483648 in R.
  assert (- 2147483648 <= d / 1000000000 < 2147483648) as HR by lia.
  destruct (Prim2SF_double_of_int (d / 1000000000)) as (M & E & F & N & V);
    [change (2 ^ 53) with 9007199254740992; lia | exact HS |].
  assert (Prim2SF (toSec d) = S754_finite (d / 1000000000 <? 0) M E) as FS.
  { rewrite toSec_spec, HN, Prim2SF_nsec0, F. reflexivity. }
  apply (not_true_false _ _ (within_finite d _ _ _ FS N)). rewrite tolerance_unit, V.
  pose proof unit82_pos as U. pose proof one_unit as O.
  change (2 ^ 82) with 4835703278458516698824704 in O.
  assert (1 <= IZR (Z.abs (d / 1000000000)))%R by (apply IZR_le; lia).
  lra.
Qed.

Lemma within_far (d : Z) :
  (1000000000 <= d \/ d < -1000000000) ->
  - 2 ^ 31 * 1000000000 <= d < 2 ^ 31 * 1000000000 ->
  within d = false.
Proof.
  intros Hd R.
  destruct (Z.eq_dec (d mod 1000000000) 0) as [Z0 | NZ];
    [apply whole_seconds; auto; lia |].
  pose proof (Z.div_mod d 1000000000 ltac:(lia)) as DM.
  pose proof (Z.mod_pos_bound d 1000000000 ltac:(lia)) as MB.
  set (S := d / 1000000000) in *. set (N := d mod 1000000000) in *.
  change (2 ^ 31) with 2147483648 in R.
  assert (1 <= S \/ S <= -2) as HS by lia.
  destruct (seconds_plus_nsec S N) as (vp & M & E & Bp & _ & _ & F & Fa);
    [lia | change (2 ^ 31) with 2147483648; lia | lia |].
  assert (Prim2SF (toSec d) = S754_finite (S <? 0) M E) as FS
    by (rewrite toSec_spec; exact F).
  apply (not_true_false _ _ (within_finite d _ _ _ FS (proj1 Fa))). rewrite tolerance_unit.
  pose proof unit82_pos as U. pose proof one_unit as O.
  change (2 ^ 82) with 4835703278458516698824704 in O.
  pose proof (faithful_lower _ _ _ 4503599627370496 (-52) Fa) as L.
  change (2 ^ (-52 + 82)) with 1073741824 in L.
  assert (IZR 4503599627370496 * IZR 1073741824 * unit82 <= val (Zpos M) E)%R.
  { apply L; [normal_const | lia |].
    destruct (Z.ltb_spec S 0).
    - assert (2 <= IZR (Z.abs S))%R by (apply IZR_le; lia). lra.
    - assert (1 <= IZR (Z.abs S))%R by (apply IZR_le; lia). lra. }
  lra.
Qed.

Lemma minus_one_second (d : Z) :
  -999999999 <= d <= -1 ->
  exists vp M E,
    (0 < vp)%R /\
    (forall a ea, normal a -> -82 <= ea ->
       (IZR a * IZR (2 ^ (ea + 82)) * unit82
          <= IZR 4835703278458517 * IZR (d + 1000000000) * unit82)%R ->
       (IZR a * IZR (2 ^ (ea + 82)) * unit82 <= vp)%R) /\
    (forall b eb, normal b -> -82 <= eb ->
       (IZR 4835703278458517 * IZR (d + 1000000000) * unit82
          <= IZR b * IZR (2 ^ (eb + 82)) * unit82)%R ->
       (vp <= IZR b * IZR (2 ^ (eb + 82)) * unit82)%R) /\
    Prim2SF (toSec d) = S754_finite true M E /\
    faithful (1 - vp)%R (Zpos M) E.
Proof.
  intro H.
  assert (d / 1000000000 = -1) as HS
    by (symmetry; apply (Z.div_unique d 1000000000 (-1) (d + 1000000000)); lia).
  assert (d mod 1000000000 = d + 1000000000) as HN
    by (symmetry; apply (Z.mod_unique d 1000000000 (-1) (d + 1000000000)); lia).
  destruct (seconds_plus_nsec (-1) (d + 1000000000)) as (vp & M & E & Bp & Lo & Up & F & Fa);
    [lia | cbn; lia | lia |].
  exists vp, M, E. split; [apply Bp |]. split; [exact Lo |]. split; [exact Up |].
  split; [rewrite toSec_spec, HS, HN; exact F | exact Fa].
Qed.

Lemma within_small_neg (d : Z) : -4999999 <= d <= -1 -> within d = true.
Proof.
  intro H. destruct (minus_one_second d) as (vp & M & E & P & Lo & _ & F & Fa); [lia |].
  apply (within_finite d _ _ _ F (proj1 Fa)). rewrite tolerance_unit.
  pose proof unit82_pos as U. pose proof one_unit as O.
  change (2 ^ 82) with 4835703278458516698824704 in O.
  assert (995000001 <= IZR (d + 1000000000))%R as Hd by (apply IZR_le; lia).
  specialize (Lo 8962163262000000 (-53)). change (2 ^ (-53 + 82)) with 536870912 in Lo.
  assert (IZR 8962163262000000 * IZR 536870912 * unit82 <= vp)%R
    by (apply Lo; [normal_const | lia | nra]).
  pose proof (faithful_upper _ _ _ 5764607500000000 (-60) Fa) as Ub.
  change (2 ^ (-60 + 82)) with 4194304 in Ub.
  assert (val (Zpos M) E <= IZR 5764607500000000 * IZR 4194304 * unit82)%R
    by (apply Ub; [normal_const | lia | lra]).
  lra.
Qed.

Lemma within_mid_neg (d : Z) : -999999999 <= d <= -5000001 -> within d = false.
Proof.
  intro H. destruct (minus_one_second d) as (vp & M & E & P & _ & Up & F & Fa); [lia |].
  apply (not_true_false _ _ (within_finite d _ _ _ F (proj1 Fa))). rewrite tolerance_unit.
  pose proof unit82_pos as U. pose proof one_unit as O.
  change (2 ^ 82) with 4835703278458516698824704 in O.
  assert (1 <= IZR (d + 1000000000) <= 994999999)%R as Hd by (split; apply IZR_le; lia).
  specialize (Up 8962163254000000 (-53)). change (2 ^ (-53 + 82)) with 536870912 in Up.
  assert (vp <= IZR 8962163254000000 * IZR 536870912 * unit82)%R
    by (apply Up; [normal_const | lia | nra]).
  pose proof (faithful_lower _ _ _ 5764608000000000 (-60) Fa) as Lb.
  change (2 ^ (-60 + 82)) with 4194304 in Lb.
  assert (IZR 5764608000000000 * IZR 4194304 * unit82 <= val (Zpos M) E)%R
    by (apply Lb; [normal_const | lia | lra]).
  lra.
Qed.

Lemma within_at_bounds :
  within 0 = true /\ within (-5000000) = true /\ within 5000000 = false
  /\ within (-1000000000) = false.
Proof. repeat split; reflexivity. Qed.

(** The test of the code on a difference of d nanoseconds. *)
Theorem within_iff (d : Z) :
  - 2 ^ 31 * 1000000000 <= d < 2 ^ 31 * 1000000000 ->
  (within d = true <-> -5000000 <= d <= 4999999).
Proof.
  intro R. destruct within_at_bounds as (W0 & Wm & Wp & Ws).
  destruct (Z_le_gt_dec d (-1000000001)) as [A | A].
  { rewrite within_far by lia. split; [discriminate | lia]. }
  destruct (Z.eq_dec d (-1000000000)) as [-> | A1].
  { rewrite Ws. split; [discriminate | lia]. }
  destruct (Z_le_gt_dec d (-5000001)) as [B | B].
  { rewrite within_mid_neg by lia. split; [discriminate | lia]. }
  destruct (Z.eq_dec d (-5000000)) as [-> | B1].
  { rewrite Wm. split; [lia | reflexivity]. }
  destruct (Z_le_gt_dec d (-1)) as [C | C].
  { rewrite within_small_neg by lia. split; [lia | reflexivity]. }
  destruct (Z.eq_dec d 0) as [-> | C1].
  { rewrite W0. split; [lia | reflexivity]. }
  destruct (Z_le_gt_dec d 4999999) as [D | D].
  { rewrite within_small_pos by lia. split; [lia | reflexivity]. }
  destruct (Z.eq_dec d 5000000) as [-> | D1].
  { rewrite Wp. split; [discriminate | lia]. }
  destruct (Z_le_gt_dec d 999999999) as [E | E].
  { rewrite within_mid_pos by lia. split; [discriminate | lia]. }
  rewrite within_far by lia. split; [discriminate | lia].
Qed.

End Double.


(** ** The synchronisation gate and the driver step *)
Module Gate.
Import LaserOdometry.
Section Node.
Context {Basic Cloud Raw : Type} {B : BasicLaserOdometry Basic Cloud Raw}.

Local Abbreviation LO := (@LaserOdometry Basic).

(** The tolerance test in nanoseconds. *)
Lemma closeInTime_ns (a b : ros.Time) :
  ros.fitsDuration (ros.sub a b) ->
  (closeInTime a b = true <-> -5000000 <= ros.sub a b <= 4999999).
Proof. intro H. unfold closeInTime. apply (Double.within_iff (ros.sub a b) H). Qed.

Lemma closeInTime_refl (a : ros.Time) : closeInTime a a = true.
Proof. unfold closeInTime, ros.sub. rewrite Z.sub_diag. reflexivity. Qed.

Lemma hasNewData_unfold (lo : LO) :
  hasNewData lo = true <->
  (forall i, newFlag i lo = true) /\
  (forall i, closeInTime (stampOf i lo) (_timeSurfPointsLessFlat lo) = true).
Proof.
  unfold hasNewData. rewrite !andb_true_iff. split.
  - intros [[[[[[[[[[F1 F2] F3] F4] F5] F6] T1] T2] T3] T5] T6].
    split; intros []; simpl; auto using closeInTime_refl.
  - intros [F T].
    pose proof (F CornerPointsSharp). pose proof (F CornerPointsLessSharp).
    pose proof (F SurfPointsFlat). pose proof (F SurfPointsLessFlat).
    pose proof (F LaserCloudFullRes). pose proof (F ImuTrans).
    pose proof (T CornerPointsSharp). pose proof (T CornerPointsLessSharp).
    pose proof (T SurfPointsFlat). pose proof (T LaserCloudFullRes).
    pose proof (T ImuTrans). simpl in *. tauto.
Qed.

Lemma newFlag_setNewFlag_same (i : Stream) (b : bool) (lo : LO) :
  newFlag i (setNewFlag i b lo) = b.
Proof. destruct i, lo; reflexivity. Qed.

Lemma hasNewData_needs_flag (i : Stream) (lo : LO) :
  newFlag i lo = false -> hasNewData lo = false.
Proof.
  intro H. destruct (hasNewData lo) eqn:E; [| reflexivity].
  apply hasNewData_unfold in E. destruct E as [F _].
  rewrite F in H. discriminate.
Qed.

(** *** Flags along the handlers, [reset], [publishResult] and [process] *)

Lemma newFlag_handler (i j : Stream) (msg : sensor_msgs.PointCloud2 Raw) (lo : LO) :
  newFlag j (handler i msg lo) = true <-> i = j \/ newFlag j lo = true.
Proof.
  destruct i, j, lo; cbn; split; intros H; auto;
    try (destruct H as [H | H]; [discriminate H | exact H]).
Qed.

Lemma newFlag_reset (i : Stream) (lo : LO) : newFlag i (reset lo) = false.
Proof. destruct i, lo; reflexivity. Qed.

Lemma newFlag_publishResult (i : Stream) (lo : LO) :
  newFlag i (fst (publishResult lo)) = newFlag i lo.
Proof.
  unfold publishResult.
  destruct lo; cbn.
  destruct _outputTransforms0; cbn;
    destruct (_ || _); cbn; destruct i; reflexivity.
Qed.

Lemma newFlag_basicProcess (i : Stream) (lo : LO) :
  newFlag i (lo <| base ::= basicProcess |>) = newFlag i lo.
Proof. destruct i, lo; reflexivity. Qed.

Lemma newFlag_process_ready (i : Stream) (lo : LO) :
  hasNewData lo = true -> newFlag i (fst (process lo)) = false.
Proof.
  intro H. unfold process. rewrite H. cbn [negb].
  rewrite newFlag_publishResult, newFlag_basicProcess. apply newFlag_reset.
Qed.

Lemma process_not_ready (lo : LO) :
  hasNewData lo = false -> process lo = (lo, []).
Proof. intro H. unfold process. rewrite H. reflexivity. Qed.

Lemma newFlag_step (e : Event) (i : Stream) (lo : LO) :
  newFlag i (fst (step e lo)) = true ->
  newFlag i lo = true \/ exists msg, e = Arrival i msg.
Proof.
  destruct e as [j msg |]; cbn [step fst].
  - intro H. apply newFlag_handler in H. destruct H as [-> | H]; eauto.
  - destruct (hasNewData lo) eqn:E.
    + rewrite newFlag_process_ready by exact E. discriminate.
    + rewrite process_not_ready by exact E. auto.
Qed.

Lemma run_cons (e : Event) (es : list Event) (lo : LO) :
  fst (run (e :: es) lo) = fst (run es (fst (step e lo))).
Proof.
  cbn [run]. destruct (step e lo) as [lo1 out1]. cbn [fst].
  destruct (run es lo1). reflexivity.
Qed.

Lemma newFlag_run (es : list Event) (i : Stream) (lo : LO) :
  newFlag i (fst (run es lo)) = true ->
  newFlag i lo = true \/ arrived i es.
Proof.
  revert lo. induction es as [| e es IH]; intros lo H.
  - left. exact H.
  - rewrite run_cons in H. apply IH in H. destruct H as [H | [msg H]].
    + apply newFlag_step in H. destruct H as [H | [msg ->]].
      * left. exact H.
      * right. exists msg. left. reflexivity.
    + right. exists msg. right. exact H.
Qed.

Lemma step_clears_only_by_process (e : Event) (i : Stream) (lo : LO) :
  newFlag i lo = true -> newFlag i (fst (step e lo)) = false ->
  e = Poll /\ hasNewData lo = true.
Proof.
  intros H1 H0. destruct e as [j msg |]; cbn [step fst] in H0.
  - assert (newFlag i (handler j msg lo) = true) as C
      by (apply newFlag_handler; auto).
    congruence.
  - split; [reflexivity |].
    destruct (hasNewData lo) eqn:E; [reflexivity |].
    rewrite process_not_ready in H0 by exact E. cbn in H0. congruence.
Qed.

(** The largest pairwise stamp difference under a bound on all of them. *)
Lemma fold_max_lt (l : list Z) (c : Z) :
  0 < c -> (forall v, In v l -> v < c) -> fold_right Z.max 0 l < c.
Proof.
  intros Hc. induction l as [| v l IH]; intros H; cbn [fold_right]; [exact Hc |].
  apply Z.max_lub_lt.
  - apply H. left. reflexivity.
  - apply IH. intros u Hu. apply H. right. exact Hu.
Qed.

Lemma maxPairwiseDelta_lt (lo : LO) (c : Z) :
  0 < c ->
  (forall i j, Z.abs (ros.sub (stampOf i lo) (stampOf j lo)) < c) ->
  maxPairwiseDelta lo < c.
Proof.
  intros Hc H. unfold maxPairwiseDelta. apply fold_max_lt; [exact Hc |].
  intros v Hv. apply in_flat_map in Hv. destruct Hv as (i & _ & Hv).
  apply in_map_iff in Hv. destruct Hv as (j & <- & _). apply H.
Qed.

(** C1, as the code has it.  For stamps whose differences from the
    anchor stamp fit a [ros::Duration], [hasNewData] holds exactly when
    all six new-data flags are set and the stamp of every stream, less
    the stamp of the anchor stream (the less-flat surface points), is
    at least -5 000 000 ns and at most 4 999 999 ns: these are the
    differences on which the test [fabs(toSec) < 0.005] passes in
    [double], a stamp exactly 5 ms before the anchor among them and one
    exactly 5 ms after it not.  Any two stamps are then less than 0.010
    seconds apart; clearing the flag of any one stream makes it
    false. *)
Theorem hasNewData_anchor_iff (lo : LO) :
  (forall i, ros.fitsDuration (ros.sub (stampOf i lo) (stampOf SurfPointsLessFlat lo))) ->
  (hasNewData lo = true <->
   (forall i, newFlag i lo = true) /\
   (forall i, -5000000 <= ros.sub (stampOf i lo) (stampOf SurfPointsLessFlat lo)
              <= 4999999)) /\
  (hasNewData lo = true -> (ros.seconds (maxPairwiseDelta lo) < 0.010)%Q) /\
  (forall i, hasNewData (setNewFlag i false lo) = false).
Proof.
  intro D. split; [| split].
  - rewrite hasNewData_unfold. split; intros [F T]; split; auto;
      intro i; apply (closeInTime_ns _ _ (D i)), T.
  - intro H. apply hasNewData_unfold in H. destruct H as [_ T].
    assert (maxPairwiseDelta lo < 10000000) as M.
    { apply maxPairwiseDelta_lt; [lia |]. intros i j.
      pose proof (proj1 (closeInTime_ns _ _ (D i)) (T i)).
      pose proof (proj1 (closeInTime_ns _ _ (D j)) (T j)).
      unfold ros.sub in *. cbn [stampOf] in *. lia. }
    unfold ros.seconds, Qlt. simpl. lia.
  - intro i. apply (hasNewData_needs_flag i), newFlag_setNewFlag_same.
Qed.

(** C9.  When [hasNewData] is false, [process] returns the node as it
    was, every field of it, and publishes nothing. *)
Theorem process_idle (lo : LO) :
  hasNewData lo = false -> process lo = (lo, []).
Proof. exact (process_not_ready lo). Qed.

(** C7.  From a state where [hasNewData] holds, [process] leaves all six
    flags cleared, so [hasNewData] is false right after it; after any
    further arrivals and polls it can hold again only if every stream
    had an arrival; and a step that clears a set flag is a poll that
    found [hasNewData] true. *)
Theorem process_consumes (lo : LO) :
  hasNewData lo = true ->
  (forall i, newFlag i (fst (process lo)) = false) /\
  hasNewData (fst (process lo)) = false /\
  (forall es, hasNewData (fst (run es (fst (process lo)))) = true ->
              forall i, arrived i es) /\
  (forall e i (s : LO),
      newFlag i s = true -> newFlag i (fst (step e s)) = false ->
      e = Poll /\ hasNewData s = true).
Proof.
  intro H.
  assert (forall i, newFlag i (fst (process lo)) = false) as F
    by (intro i; apply newFlag_process_ready, H).
  repeat split.
  - exact F.
  - apply (hasNewData_needs_flag ImuTrans), F.
  - intros es R i. apply hasNewData_unfold in R. destruct R as [R _].
    destruct (newFlag_run es i _ (R i)) as [C | A]; [| exact A].
    rewrite F in C. discriminate.
  - eapply step_clears_only_by_process; eassumption.
  - eapply step_clears_only_by_process; eassumption.
Qed.

End Node.

(** C1 fails as stated on this state: every flag set, the sharp corner
    stamp 4 ms after the anchor and the less-sharp one 4 ms before it.
    [hasNewData] holds while two stamps are 8 ms apart, more than the
    tolerance. *)
Lemma hasNewData_not_max_pairwise :
  let s := Counting.loaded 0 1 10004000000 9996000000
             10000000000 10000000000 10000000000 10000000000 in
  hasNewData s = true /\
  maxPairwiseDelta s = 8000000 /\
  isReady_spec 0.005 s = false.
Proof. vm_compute. repeat split. Qed.

(** The two scenarios of the specification: stamps 10.000, 10.001,
    10.002, 10.003, 10.0005 and 10.0049 s are ready; with the last one at
    10.010 s they are not. *)
Example scenario_within_tolerance :
  hasNewData (Counting.loaded 0 1 10000000000 10001000000 10002000000
                              10003000000 10000500000 10004900000) = true.
Proof. vm_compute. reflexivity. Qed.

Example scenario_one_stream_late :
  hasNewData (Counting.loaded 0 1 10000000000 10001000000 10002000000
                              10003000000 10000500000 10010000000) = false.
Proof. vm_compute. reflexivity. Qed.

(** Every flag set, the sharp corner stamp exactly 5 ms before the anchor
    and the less-sharp one 4 999 999 ns after it. *)
Lemma hasNewData_anchor_iff_witness :
  hasNewData (Counting.loaded 0 1 9995000000 10004999999
                              10000000000 10000000000 10000000000 10000000000) = true.
Proof.
  destruct (hasNewData_anchor_iff
              (Counting.loaded 0 1 9995000000 10004999999
                               10000000000 10000000000 10000000000 10000000000))
    as ((_ & H) & _).
  - intros []; unfold ros.fitsDuration, ros.sub; cbn; lia.
  - apply H. split; intros []; cbn; first [reflexivity | lia].
Defined.

Lemma process_idle_witness :
  hasNewData (Counting.fresh 0 1) = false /\
  process (B := Counting.basic) (Counting.fresh 0 1) = (Counting.fresh 0 1, []).
Proof.
  split; [reflexivity |].
  apply (process_idle (B := Counting.basic) (Counting.fresh 0 1)).
  reflexivity.
Defined.

Lemma process_consumes_witness :
  let s := Counting.loaded 0 1 7 7 7 7 7 7 in
  hasNewData s = true /\
  hasNewData (fst (process (B := Counting.basic) s)) = false.
Proof.
  split; [reflexivity |].
  apply (process_consumes (B := Counting.basic) (Counting.loaded 0 1 7 7 7 7 7 7)).
  reflexivity.
Defined.

End Gate.

(** ** The throttled publisher *)
Module Throttle.
Import LaserOdometry.
Section Node.
Context {Basic Cloud Raw : Type} {B : BasicLaserOdometry Basic Cloud Raw}.

Local Abbreviation LO := (@LaserOdometry Basic).

(** The test of [publishResult] for the cloud messages. *)
Lemma heavyDue_spec (n k : Z) :
  0 <= n -> 1 <= k ->
  ((k <? 2) || (Z.rem n k =? 1) = true <-> k < 2 \/ n mod k = 1).
Proof.
  intros Hn Hk.
  rewrite orb_true_iff, Z.ltb_lt, Z.eqb_eq, Z.rem_mod_nonneg by lia.
  reflexivity.
Qed.

Lemma publishResult_counts (lo : LO) :
  poseCount (snd (publishResult lo)) = 1%nat /\
  heavyCount (snd (publishResult lo)) =
    if (_ioRatio lo <? 2) || (Z.rem (frameCount (base lo)) (_ioRatio lo) =? 1)
    then 3%nat else 0%nat.
Proof.
  unfold publishResult. destruct lo; cbn.
  destruct _outputTransforms0; cbn;
    destruct (_ || _); cbn; split; reflexivity.
Qed.

(** What a completed cycle publishes: the output of [publishResult] on
    the node after [reset] and the base class's [process]. *)
Lemma process_ready_output (lo : LO) :
  hasNewData lo = true ->
  snd (process lo) = snd (publishResult (reset lo <| base ::= basicProcess |>)).
Proof. intro H. unfold process. rewrite H. reflexivity. Qed.

(** C2.  A completed cycle publishes what [publishResult] publishes on
    the node the cycle has reached.  [publishResult] publishes the
    odometry message once, whatever the frame count n and the ratio k
    are; for n >= 0 and k >= 1 it publishes the three cloud messages
    exactly when k < 2 or n mod k = 1, and none of them otherwise; for
    k = 3 that is on the frame counts 3 m + 1. *)
Theorem publishResult_throttle (lo : LO) :
  let n := frameCount (base lo) in
  let k := _ioRatio lo in
  (forall lo0 : LO, hasNewData lo0 = true ->
     snd (process lo0) = snd (publishResult (reset lo0 <| base ::= basicProcess |>))) /\
  poseCount (snd (publishResult lo)) = 1%nat /\
  (0 <= n -> 1 <= k ->
   (heavyCount (snd (publishResult lo)) = 3%nat <-> k < 2 \/ n mod k = 1) /\
   (heavyCount (snd (publishResult lo)) = 0%nat <-> ~ (k < 2 \/ n mod k = 1)) /\
   (k = 3 ->
    (heavyCount (snd (publishResult lo)) = 3%nat <-> exists m, 0 <= m /\ n = 3 * m + 1))).
Proof.
  intros n k.
  destruct (publishResult_counts lo) as [P H]. fold n k in H.
  split; [exact process_ready_output |].
  split; [exact P |]. intros Hn Hk.
  pose proof (heavyDue_spec n k Hn Hk) as S.
  assert (heavyCount (snd (publishResult lo)) = 3%nat <-> k < 2 \/ n mod k = 1) as E.
  { rewrite H. destruct (_ || _).
    - split; [intros _; apply S; reflexivity | reflexivity].
    - split; [discriminate |]. intro C. apply S in C. discriminate. }
  split; [exact E |]. split.
  - rewrite H. destruct (_ || _).
    + split; [discriminate |]. intro C. exfalso. apply C, S. reflexivity.
    + split; [| reflexivity]. intros _ C. apply S in C. discriminate.
  - intro K3. rewrite E, K3. split.
    + intros [C | C]; [lia |].
      exists (n / 3). pose proof (Z.div_mod n 3). pose proof (Z.div_pos n 3). lia.
    + intros [m [Hm ->]]. right.
      rewrite Z.add_comm, Z.mul_comm, Z.mod_add by lia. reflexivity.
Qed.

End Node.

Lemma publishResult_throttle_witness :
  heavyCount (snd (publishResult (B := Counting.basic) (Counting.fresh 4 3))) = 3%nat /\
  heavyCount (snd (publishResult (B := Counting.basic) (Counting.fresh 5 3))) = 0%nat.
Proof.
  split.
  - assert (0 <= 4) as Hn by lia. assert (1 <= 3) as Hk by lia.
    destruct (publishResult_throttle (B := Counting.basic) (Counting.fresh 4 3))
      as (_ & _ & T). destruct (T Hn Hk) as (E & _).
    apply E. right. reflexivity.
  - assert (0 <= 5) as Hn by lia. assert (1 <= 3) as Hk by lia.
    destruct (publishResult_throttle (B := Counting.basic) (Counting.fresh 5 3))
      as (_ & _ & T). destruct (T Hn Hk) as (_ & E & _).
    apply E. cbn. intros [C | C]; [lia | discriminate C].
Defined.

End Throttle.

(** ** The two [setup] routines *)
Module Setup.
Section Odometry.
Import LaserOdometry.
Context {Basic Cloud Raw : Type} {B : BasicLaserOdometry Basic Cloud Raw}.

Local Abbreviation LO := (@LaserOdometry Basic).

Lemma decides_andThen (a b : @Block Basic) (ca cb : bool) :
  decides a ca -> decides b cb -> decides (andThen a b) (ca || cb).
Proof.
  intros Ha Hb lo. unfold andThen. specialize (Ha lo).
  destruct (a lo) as [lo' | lo']; cbn in Ha; subst ca; cbn; [reflexivity | apply Hb].
Qed.

Lemma decides_float (found : option PrimFloat.float) (f : PrimFloat.float -> LO -> LO) :
  decides
    (ifParam found (fun fParam =>
       if PrimFloat.leb fParam PrimFloat.zero then returnFalse else assign (f fParam)))
    (floatOutOfRange found).
Proof.
  intro lo. destruct found as [v |]; cbn; [| reflexivity].
  destruct (PrimFloat.leb v PrimFloat.zero); reflexivity.
Qed.

Lemma decides_int (found : option Z) (f : Z -> LO -> LO) :
  decides
    (ifParam found (fun iParam => if iParam <? 1 then returnFalse else assign (f iParam)))
    (intOutOfRange found).
Proof.
  intro lo. destruct found as [v |]; cbn; [| reflexivity].
  destruct (v <? 1); reflexivity.
Qed.

Lemma decides_copy {A : Type} (found : option A) (f : A -> LO -> LO) :
  decides (ifParam found (fun v => assign (f v))) false.
Proof. intro lo. destruct found; reflexivity. Qed.

Lemma decides_copy_andThen {A : Type} (found : option A) (f : A -> LO -> LO) (b : @Block Basic) :
  decides b false -> decides (andThen (ifParam found (fun v => assign (f v))) b) false.
Proof. intro Hb. apply (decides_andThen _ _ false false (decides_copy found f) Hb). Qed.

(** The value [setup] returns. *)
Lemma setup_returns (node privateNode : NodeHandle) (lo : LO) :
  fst (setup node privateNode lo) = negb (outOfRange node privateNode).
Proof.
  unfold setup, outOfRange.
  match goal with
  | |- fst (match ?blocks lo with _ => _ end) = negb ?c =>
      assert (decides blocks c) as D
  end.
  { rewrite <- (orb_false_r (floatOutOfRange (getParam_float privateNode "deltaRAbortOdom"))).
    rewrite <- !orb_assoc.
    repeat (apply decides_andThen; [first [apply decides_float | apply decides_int] |]).
    repeat apply decides_copy_andThen.
    apply decides_copy. }
  specialize (D lo). revert D.
  match goal with |- returned ?r = _ -> _ => destruct r end;
    cbn; intros <-; reflexivity.
Qed.

(** C8.  [LaserOdometry::setup] returns false exactly when one of the
    provided parameters scanPeriod, ioRatio, maxIterationsOdom,
    deltaTAbortOdom, deltaRAbortOdom is out of range, and true
    otherwise; with no parameter provided it returns true and leaves
    the node as it was. *)
Theorem setup_rejects_out_of_range (node privateNode : NodeHandle) (lo : LO) :
  (fst (setup node privateNode lo) = false <-> outOfRange node privateNode = true) /\
  (fst (setup node privateNode lo) = true <-> outOfRange node privateNode = false) /\
  setup noParams noParams lo = (true, lo).
Proof.
  rewrite setup_returns.
  destruct (outOfRange node privateNode); repeat split; try discriminate.
Qed.

End Odometry.

Section Maintenance.
Context {Basic Cloud Raw : Type} {B : BasicLaserOdometry Basic Cloud Raw}.
Context {BasicT : Type}.

(** C10.  [TransformMaintenance::setup] returns true on every pair of
    parameter stores and every node: none of its blocks tests a value
    or returns.  The stores with ioRatio 0 are refused by the setup of
    the odometry node and accepted by this one. *)
Theorem setup_never_fails :
  (forall (node privateNode : NodeHandle)
          (tm : @TransformMaintenance.TransformMaintenance BasicT),
      fst (TransformMaintenance.setup node privateNode tm) = true) /\
  (forall (lo : @LaserOdometry.LaserOdometry Basic)
          (tm : @TransformMaintenance.TransformMaintenance BasicT),
      fst (LaserOdometry.setup noParams (withInt "ioRatio" 0 noParams) lo) = false /\
      fst (TransformMaintenance.setup noParams (withInt "ioRatio" 0 noParams) tm) = true).
Proof.
  split; [reflexivity |]. intros lo tm. split; [| reflexivity].
  rewrite setup_returns. reflexivity.
Qed.

End Maintenance.

(** [setup] of the odometry node on a few stores. *)
Example setup_accepts_defaults :
  fst (LaserOdometry.setup (B := Counting.basic) noParams noParams (Counting.fresh 0 1)) = true.
Proof. reflexivity. Qed.

Example setup_rejects_negative_scanPeriod :
  fst (LaserOdometry.setup (B := Counting.basic)
         (withFloat "scanPeriod" (PrimFloat.opp PrimFloat.one) noParams) noParams (Counting.fresh 0 1)) = false.
Proof. vm_compute. reflexivity. Qed.

Example setup_accepts_nan_scanPeriod :
  fst (LaserOdometry.setup (B := Counting.basic)
         (withFloat "scanPeriod" PrimFloat.nan noParams) noParams (Counting.fresh 0 1)) = true.
Proof. vm_compute. reflexivity. Qed.

End Setup.

(** ** The frame convention adapter in the two nodes *)
Module Adapter.
Import FrameConvention.

Section Inbound.
Import TransformMaintenance.
Context {Basic : Type} {B : BasicTransformMaintenance Basic}.

(** The base object after the raw-pose handler. *)
Lemma laserOdometryHandler_base (params : GlobalParams) (unset : bool)
    (msg : nav_msgs.Odometry) (tm : TransformMaintenance) :
  let a := toInternal (nav_msgs.orientation msg) in
  let p := nav_msgs.position msg in
  base (fst (laserOdometryHandler params unset msg tm)) =
    transformAssociateToMap
      (updateOdometry (fst (fst a)) (snd (fst a)) (snd a)
                      (tf.vx p) (tf.vy p) (tf.vz p) (base tm)).
Proof.
  unfold toInternal, laserOdometryHandler.
  destruct (tf.getRPY _) as [[roll pitch] yaw].
  destruct tm; cbn.
  destruct (match outputTransforms params with Some b => b | None => unset end);
    reflexivity.
Qed.

(** C5.  Both pose-consuming handlers hand the base class the internal
    angles of [toInternal]: the raw-pose handler to [updateOdometry]
    (followed by [transformAssociateToMap]), the correction handler to
    [updateMappingTransform], each with the position of the message
    (and, for the correction, its twist) unchanged. *)
Theorem handlers_apply_toInternal (params : GlobalParams) (unset : bool)
    (msg : nav_msgs.Odometry) (tm : TransformMaintenance) :
  let '(rx, ry, rz) := toInternal (nav_msgs.orientation msg) in
  let p := nav_msgs.position msg in
  let a := nav_msgs.twist_angular msg in
  let l := nav_msgs.twist_linear msg in
  base (fst (laserOdometryHandler params unset msg tm)) =
    transformAssociateToMap
      (updateOdometry rx ry rz (tf.vx p) (tf.vy p) (tf.vz p) (base tm)) /\
  base (odomAftMappedHandler msg tm) =
    updateMappingTransform rx ry rz (tf.vx p) (tf.vy p) (tf.vz p)
      (tf.vx a) (tf.vy a) (tf.vz a) (tf.vx l) (tf.vy l) (tf.vz l) (base tm).
Proof.
  unfold toInternal, laserOdometryHandler, odomAftMappedHandler.
  destruct (tf.getRPY _) as [[roll pitch] yaw].
  destruct tm; cbn.
  destruct (match outputTransforms params with Some b => b | None => unset end);
    split; reflexivity.
Qed.

(** The odometry message the raw-pose handler publishes. *)
Lemma laserOdometryHandler_publishes (params : GlobalParams) (unset : bool)
    (msg : nav_msgs.Odometry) (tm : TransformMaintenance) :
  let tm' := fst (laserOdometryHandler params unset msg tm) in
  exists rest,
    snd (laserOdometryHandler params unset msg tm) = pubLaserOdometry2 (_laserOdometry2 tm') :: rest /\
    (forall t, In (sendTransform t) rest -> t = _laserOdometryTrans2 tm') /\
    nav_msgs.orientation (_laserOdometry2 tm') =
      toOutput (transformMapped (base tm') 0%nat, transformMapped (base tm') 1%nat,
                transformMapped (base tm') 2%nat) /\
    nav_msgs.position (_laserOdometry2 tm') =
      tf.mkVector3 (transformMapped (base tm') 3%nat) (transformMapped (base tm') 4%nat)
                   (transformMapped (base tm') 5%nat) /\
    (rest <> [] ->
     tf.rotation (_laserOdometryTrans2 tm') = nav_msgs.orientation (_laserOdometry2 tm')).
Proof.
  unfold laserOdometryHandler, toOutput.
  destruct (tf.getRPY _) as [[roll pitch] yaw].
  destruct tm; cbn.
  destruct (match outputTransforms params with Some b => b | None => unset end); cbn.
  - eexists. split; [reflexivity |]. repeat split.
    intros t [E | []]. inversion E. reflexivity.
  - exists []. split; [reflexivity |]. repeat split.
    + intros t [].
    + intro C. contradiction C. reflexivity.
Qed.

End Inbound.

Section Outbound.
Context {Basic Cloud Raw : Type} {B : BasicLaserOdometry Basic Cloud Raw}.
Context {BasicT : Type} {BT : BasicTransformMaintenance BasicT}.

(** The first message [publishResult] hands out is the odometry message. *)
Lemma publishResult_head (lo : @LaserOdometry.LaserOdometry Basic) :
  exists m rest, snd (LaserOdometry.publishResult lo) = LaserOdometry.pubLaserOdometry m :: rest.
Proof.
  unfold LaserOdometry.publishResult. destruct lo; cbn.
  destruct _outputTransforms; cbn; destruct (_ || _); cbn; eauto.
Qed.

(** C6.  Both publication sites publish an odometry message, and every
    orientation they emit is the one of [toOutput]: the corrected-pose
    publisher on the angles [transformMapped] 0, 1, 2, the odometry
    publisher on the rotation angles of [transformSum]; a transform
    that is broadcast carries the same rotation. *)
Theorem publishers_apply_toOutput (params : GlobalParams) (unset : bool)
    (msg : nav_msgs.Odometry) (tm : @TransformMaintenance.TransformMaintenance BasicT)
    (lo : @LaserOdometry.LaserOdometry Basic) :
  (let tm' := fst (TransformMaintenance.laserOdometryHandler params unset msg tm) in
   let q := toOutput (transformMapped (TransformMaintenance.base tm') 0%nat,
                      transformMapped (TransformMaintenance.base tm') 1%nat,
                      transformMapped (TransformMaintenance.base tm') 2%nat) in
   (exists m rest,
      snd (TransformMaintenance.laserOdometryHandler params unset msg tm)
        = TransformMaintenance.pubLaserOdometry2 m :: rest) /\
   forall p, In p (snd (TransformMaintenance.laserOdometryHandler params unset msg tm)) ->
     match p with
     | TransformMaintenance.pubLaserOdometry2 m => nav_msgs.orientation m = q
     | TransformMaintenance.sendTransform t => tf.rotation t = q
     end) /\
  (let s := transformSum (LaserOdometry.base lo) in
   let q := toOutput (rot_x s, rot_y s, rot_z s) in
   (exists m rest,
      snd (LaserOdometry.publishResult lo) = LaserOdometry.pubLaserOdometry m :: rest) /\
   forall p, In p (snd (LaserOdometry.publishResult lo)) ->
     match p with
     | LaserOdometry.pubLaserOdometry m => nav_msgs.orientation m = q
     | LaserOdometry.sendTransform t => tf.rotation t = q
     | _ => True
     end).
Proof.
  split.
  - destruct (laserOdometryHandler_publishes params unset msg tm)
      as (rest & E & T & O & _ & R).
    cbn zeta. split; [eauto |].
    rewrite E. intros p [<- | H]; [exact O |].
    destruct p as [m | t].
    + destruct rest as [| r rest]; [destruct H |].
      revert H E. unfold TransformMaintenance.laserOdometryHandler.
      destruct (tf.getRPY _) as [[roll pitch] yaw].
      destruct (match outputTransforms params with Some b => b | None => unset end);
        cbn; intros H E; inversion E; subst; destruct H as [H | []]; discriminate H.
    + rewrite (T t H), <- O. apply R. intro C. subst rest. destruct H.
  - cbn zeta. split; [apply publishResult_head |].
    unfold LaserOdometry.publishResult, toOutput. destruct lo; cbn.
    destruct _outputTransforms; cbn; destruct (_ || _); cbn;
      intros p H;
      repeat (destruct H as [<- | H]; [first [reflexivity | exact I] |]);
      destruct H.
Qed.

End Outbound.
End Adapter.

(** ** The tf conversions at the identity rotation *)
Module TfFacts.
Import tf.
Local Open Scope R_scope.

Lemma quaternion_ext (a b : Quaternion) :
  x a = x b -> y a = y b -> z a = z b -> w a = w b -> a = b.
Proof. destruct a, b; cbn; intros -> -> -> ->; reflexivity. Qed.

Lemma atan2_0_1 : atan2 0 1 = 0.
Proof.
  unfold atan2. destruct (Rlt_dec 0 1) as [_ | N]; [| exfalso; apply N; lra].
  replace (0 / 1) with 0 by field. apply atan_0.
Qed.

Lemma getRPY_identityMatrix : getRPY identityMatrix = (0, 0, 0).
Proof.
  unfold getRPY, identityMatrix; cbn.
  destruct (Rle_dec 1 (Rabs 0)) as [C | _].
  - rewrite Rabs_R0 in C. lra.
  - rewrite asin_0, Ropp_0, cos_0.
    replace (0 / 1) with 0 by field. replace (1 / 1) with 1 by field.
    rewrite atan2_0_1. reflexivity.
Qed.

(** The two unit quaternions of the identity rotation have the same matrix. *)
Lemma setRotation_identity (s : R) :
  s * s = 1 -> setRotation (mkQuaternion 0 0 0 s) = identityMatrix.
Proof.
  intro H. unfold setRotation, identityMatrix, length2; cbn.
  replace (0 * 0 + 0 * 0 + 0 * 0 + s * s) with 1 by lra.
  repeat f_equal; field.
Qed.

Lemma createQuaternionFromRPY_0 : createQuaternionFromRPY 0 0 0 = mkQuaternion 0 0 0 1.
Proof.
  unfold createQuaternionFromRPY.
  replace (0 * / 2) with 0 by field. rewrite cos_0, sin_0.
  apply quaternion_ext; cbn; ring.
Qed.

(** Both unit quaternions of the identity rotation have the internal
    angles (0, 0, 0), and these angles go out as (0, 0, 0, 1). *)
Lemma toInternal_identity (s : R) :
  s * s = 1 -> FrameConvention.toInternal (mkQuaternion 0 0 0 s) = (0, 0, 0).
Proof.
  intro H. unfold FrameConvention.toInternal, FrameConvention.permuted.
  cbn [x y z w]. rewrite !Ropp_0.
  rewrite (setRotation_identity s H), getRPY_identityMatrix, !Ropp_0. reflexivity.
Qed.

Lemma toOutput_zero : FrameConvention.toOutput (0, 0, 0) = mkQuaternion 0 0 0 1.
Proof.
  unfold FrameConvention.toOutput. rewrite !Ropp_0, createQuaternionFromRPY_0.
  cbn [x y z w]. rewrite !Ropp_0. reflexivity.
Qed.

End TfFacts.

(** ** The raw-pose handler on the pose composer of the specification *)
Module Composer.
Import PoseComposer FrameConvention.
Local Open Scope R_scope.

Lemma qmul_qone_l (q : tf.Quaternion) : qmul qone q = q.
Proof. destruct q. unfold qmul, qone; cbn. f_equal; ring. Qed.

Lemma rotate_qone (v : tf.Vector3) : rotate qone v = v.
Proof. destruct v. unfold rotate, qmul, qconj, qone; cbn. f_equal; ring. Qed.

Lemma compose_identity_l (t : RigidTransform) : compose identity t = t.
Proof.
  destruct t as [q [a b c]]. unfold compose, identity; cbn [rotation translation].
  rewrite qmul_qone_l, rotate_qone. unfold vadd; cbn. repeat f_equal; ring.
Qed.

Section Conversions.
Variable rotationOf : R * R * R -> tf.Quaternion.
Variable anglesOf : tf.Quaternion -> R * R * R.

(** A correction whose two poses are both zero, the baseline a node
    starts from, is the identity offset. *)
Lemma zero_baseline_offset (c : Composer) :
  rotationOf (0, 0, 0) = qone ->
  offset (onCorrection rotationOf 0 0 0 0 0 0 0 0 0 0 0 0 c) = identity.
Proof.
  intro H. destruct c as [r o k].
  unfold onCorrection, ofPose. cbn [angles position]. rewrite H.
  cbv [offset RecordSetters.apply_update RecordSetters.constant
       compose inverse identity rotation translation
       qmul qconj qone rotate vadd vneg
       tf.x tf.y tf.z tf.w tf.vx tf.vy tf.vz].
  f_equal; f_equal; ring.
Qed.

Local Abbreviation TM := (@TransformMaintenance.TransformMaintenance Composer).
Local Abbreviation handle :=
  (TransformMaintenance.laserOdometryHandler (B := PoseComposer.basic rotationOf anglesOf)).

Local Arguments compose : simpl never.

(** One raw pose through the composer while the offset is the identity. *)
Lemma associate_storeRaw_identity (rx ry rz px py pz : R) (c : Composer) :
  offset c = identity ->
  anglesOf (rotationOf (rx, ry, rz)) = (rx, ry, rz) ->
  corrected (associate rotationOf anglesOf (storeRaw rx ry rz px py pz c))
    = mkPose (rx, ry, rz) (tf.mkVector3 px py pz) /\
  offset (associate rotationOf anglesOf (storeRaw rx ry rz px py pz c)) = identity.
Proof.
  intros Hoff Hconv. destruct c as [r o c]. cbn in Hoff. subst o.
  unfold associate, storeRaw, ofPose, toPose. cbn.
  rewrite compose_identity_l. cbn. rewrite Hconv. split; reflexivity.
Qed.

(** The raw-pose handler on a composer whose offset is the identity and
    whose two conversions give back the internal angles of the
    message. *)
Lemma handler_with_identity_offset (params : GlobalParams) (unset : bool)
    (msg : nav_msgs.Odometry) (tm : TM) :
  offset (TransformMaintenance.base tm) = identity ->
  anglesOf (rotationOf (toInternal (nav_msgs.orientation msg)))
    = toInternal (nav_msgs.orientation msg) ->
  exists m rest,
    snd (handle params unset msg tm) = TransformMaintenance.pubLaserOdometry2 m :: rest /\
    nav_msgs.position m = nav_msgs.position msg /\
    nav_msgs.orientation m = toOutput (toInternal (nav_msgs.orientation msg)) /\
    offset (TransformMaintenance.base (fst (handle params unset msg tm))) = identity.
Proof.
  intros Hoff Hconv.
  destruct (Adapter.laserOdometryHandler_publishes
              (B := PoseComposer.basic rotationOf anglesOf) params unset msg tm)
    as (rest & E & _ & O & P & _).
  pose proof (Adapter.laserOdometryHandler_base
              (B := PoseComposer.basic rotationOf anglesOf) params unset msg tm) as Hb.
  cbn zeta in *.
  exists (TransformMaintenance._laserOdometry2 (fst (handle params unset msg tm))), rest.
  split; [exact E |].
  rewrite O, P, Hb. clear E O P Hb.
  destruct (toInternal (nav_msgs.orientation msg)) as [[rx ry] rz].
  cbn [fst snd transformAssociateToMap updateOdometry transformMapped PoseComposer.basic].
  destruct (associate_storeRaw_identity rx ry rz
              (tf.vx (nav_msgs.position msg)) (tf.vy (nav_msgs.position msg))
              (tf.vz (nav_msgs.position msg)) (TransformMaintenance.base tm) Hoff Hconv)
    as [C Ho].
  unfold mapped. rewrite C, Ho. cbn.
  repeat split. destruct (nav_msgs.position msg); reflexivity.
Qed.

End Conversions.

End Composer.

(** ** The round trip through the adapter *)
Module Roundtrip.
Import tf FrameConvention.
Local Open Scope R_scope.

(** *** Sine and cosine of [atan2] on the unit circle *)

Lemma sqrt_unit_quotient (s c : R) :
  s * s + c * c = 1 -> c <> 0 -> sqrt (1 + (s / c)²) = / Rabs c.
Proof.
  intros H Hc.
  assert (0 < Rabs c) as Ha by (apply Rabs_pos_lt; exact Hc).
  replace (1 + (s / c)²) with (/ Rabs c * / Rabs c).
  - apply sqrt_square. left. apply Rinv_0_lt_compat, Ha.
  - rewrite <- Rinv_mult, <- Rabs_mult, (Rabs_pos_eq (c * c)) by nra.
    unfold Rsqr. transitivity ((s * s + c * c) / (c * c)); [| field; exact Hc].
    rewrite H. field. exact Hc.
Qed.

Lemma sin_cos_atan2 (s c : R) :
  s * s + c * c = 1 -> sin (atan2 s c) = s /\ cos (atan2 s c) = c.
Proof.
  intro H. unfold atan2.
  destruct (Rlt_dec 0 c) as [Hc | Hc].
  - rewrite sin_atan, cos_atan, sqrt_unit_quotient by (auto; lra).
    rewrite Rabs_pos_eq by lra. split; field; lra.
  - destruct (Rlt_dec c 0) as [Hc' | Hc'].
    + assert (sin (atan (s / c)) = - s /\ cos (atan (s / c)) = - c) as [S C].
      { rewrite sin_atan, cos_atan, sqrt_unit_quotient by (auto; lra).
        rewrite Rabs_left by lra. split; field; lra. }
      destruct (Rle_dec 0 s).
      * rewrite neg_sin, neg_cos, S, C. split; ring.
      * unfold Rminus.
        rewrite sin_plus, cos_plus, sin_neg, cos_neg, sin_PI, cos_PI, S, C.
        split; ring.
    + assert (c = 0) as -> by lra.
      assert (s * s = 1) as Hs by lra.
      destruct (Rlt_dec 0 s).
      * rewrite sin_PI2, cos_PI2. split; [nra | reflexivity].
      * destruct (Rlt_dec s 0).
        -- rewrite sin_neg, cos_neg, sin_PI2, cos_PI2. split; [nra | reflexivity].
        -- exfalso. nra.
Qed.

(** A point of the unit circle: the square of its cosine by its sine. *)
Lemma circle_square (s c : R) : s * s + c * c = 1 -> c * c = 1 - s * s.
Proof. intro H. lra. Qed.

Lemma half_angle (t : R) :
  sin (t * / 2) * sin (t * / 2) + cos (t * / 2) * cos (t * / 2) = 1 /\
  sin t = 2 * sin (t * / 2) * cos (t * / 2) /\
  cos t = cos (t * / 2) * cos (t * / 2) - sin (t * / 2) * sin (t * / 2).
Proof.
  split; [| split].
  - pose proof (sin2_cos2 (t * / 2)) as H. unfold Rsqr in H. lra.
  - rewrite <- sin_2a. f_equal. field.
  - rewrite <- cos_2a. f_equal. field.
Qed.

(** *** Quaternions and their matrices *)

Lemma setRotation_unit (q : Quaternion) :
  length2 q = 1 -> setRotation q = unitMatrix (x q) (y q) (z q) (w q).
Proof.
  intro H. unfold setRotation, unitMatrix. cbv zeta. rewrite H.
  f_equal; f_equal; field.
Qed.

Lemma length2_createQuaternionFromRPY (r p y : R) :
  length2 (createQuaternionFromRPY r p y) = 1.
Proof.
  destruct (half_angle r) as (Hr & _ & _).
  destruct (half_angle p) as (Hp & _ & _).
  destruct (half_angle y) as (Hy & _ & _).
  unfold length2, createQuaternionFromRPY; cbn.
  abstract_half_angles r p y.
  match goal with
  | Hr : ?sr * ?sr + ?cr * ?cr = 1, Hp : ?sp * ?sp + ?cp * ?cp = 1,
    Hy : ?sy * ?sy + ?cy * ?cy = 1 |- _ =>
      transitivity ((sr * sr + cr * cr) * (sp * sp + cp * cp) * (sy * sy + cy * cy));
      [ring | rewrite Hr, Hp, Hy; ring]
  end.
Qed.

(** The quaternion of roll, pitch and yaw has the matrix of roll, pitch
    and yaw. *)
Lemma setRotation_createQuaternionFromRPY (r p y : R) :
  setRotation (createQuaternionFromRPY r p y) = setRPY r p y.
Proof.
  rewrite setRotation_unit by apply length2_createQuaternionFromRPY.
  destruct (half_angle r) as (Hr & Sr & Cr).
  destruct (half_angle p) as (Hp & Sp & Cp).
  destruct (half_angle y) as (Hy & Sy & Cy).
  unfold unitMatrix, setRPY, createQuaternionFromRPY; cbn.
  rewrite Sr, Cr, Sp, Cp, Sy, Cy. clear Sr Cr Sp Cp Sy Cy.
  apply circle_square in Hr, Hp, Hy.
  abstract_half_angles r p y. f_equal; f_equal; ring [Hr Hp Hy].
Qed.

Lemma same_ray (k k' a a' b b' c c' : R) :
  k <> 0 -> k' * k' = k * k ->
  k' * a' = k * a -> k' * b' = k * b -> k' * c' = k * c ->
  (k' = k /\ a' = a /\ b' = b /\ c' = c) \/
  (k' = - k /\ a' = - a /\ b' = - b /\ c' = - c).
Proof.
  intros Hk H Ha Hb Hc.
  assert ((k' - k) * (k' + k) = 0) as F by nra.
  apply Rmult_integral in F. destruct F as [F | F]; [left | right].
  - assert (k' = k) as -> by lra.
    repeat split; apply (Rmult_eq_reg_l k); auto.
  - assert (k' = - k) as -> by lra.
    repeat split; apply (Rmult_eq_reg_l (- k)); try lra.
Qed.

(** Two unit quaternions with the same matrix are equal or opposite. *)
Lemma unitMatrix_inj (u v : Quaternion) :
  length2 u = 1 -> length2 v = 1 ->
  unitMatrix (x u) (y u) (z u) (w u) = unitMatrix (x v) (y v) (z v) (w v) ->
  v = u \/ v = qneg u.
Proof.
  destruct u as [a b c d], v as [a' b' c' d']. unfold length2, qneg; cbn.
  intros Hu Hv E. unfold unitMatrix in E.
  injection E as E00 E01 E02 E10 E11 E12 E20 E21 E22.
  assert (a' * a' = a * a) by lra. assert (b' * b' = b * b) by lra.
  assert (c' * c' = c * c) by lra. assert (d' * d' = d * d) by lra.
  assert (a' * b' = a * b) by lra. assert (a' * c' = a * c) by lra.
  assert (a' * d' = a * d) by lra. assert (b' * c' = b * c) by lra.
  assert (b' * d' = b * d) by lra. assert (c' * d' = c * d) by lra.
  destruct (Req_dec d 0) as [Hd | Hd].
  - destruct (Req_dec a 0) as [Ha | Ha].
    + destruct (Req_dec b 0) as [Hb | Hb].
      * assert (c <> 0) as Hc by (intro; subst; lra).
        destruct (same_ray c c' a a' b b' d d')
          as [(-> & -> & -> & ->) | (-> & -> & -> & ->)]; auto; lra.
      * destruct (same_ray b b' a a' c c' d d')
          as [(-> & -> & -> & ->) | (-> & -> & -> & ->)]; auto; lra.
    + destruct (same_ray a a' b b' c c' d d')
        as [(-> & -> & -> & ->) | (-> & -> & -> & ->)]; auto; lra.
  - destruct (same_ray d d' a a' b b' c c')
      as [(-> & -> & -> & ->) | (-> & -> & -> & ->)]; auto; lra.
Qed.

(** *** The extraction away from the singularity *)

Lemma div_by_square (n m k : R) : 0 < k -> m * (k * k) = n -> n / (k * k) = m.
Proof. intros Hk <-. field. lra. Qed.

(** Away from the singularity the extracted roll, pitch and yaw rebuild
    the matrix they were read from. *)
Lemma setRPY_getRPY_unitMatrix (a b c d : R) :
  a * a + b * b + c * c + d * d = 1 ->
  ~ gimbal_locked (unitMatrix a b c d) ->
  (let '(roll, pitch, yaw) := getRPY (unitMatrix a b c d) in setRPY roll pitch yaw)
  = unitMatrix a b c d.
Proof.
  intros U G. unfold gimbal_locked in G. unfold getRPY.
  destruct (Rle_dec 1 (Rabs (vx (m2 (unitMatrix a b c d))))) as [C | _]; [contradiction |].
  apply Rnot_le_lt in G. unfold unitMatrix in *. cbn [vx vy vz m0 m1 m2] in *.
  set (m00 := 1 - 2 * (b * b + c * c)) in *.
  set (m01 := 2 * (a * b - d * c)) in *. set (m02 := 2 * (a * c + d * b)) in *.
  set (m10 := 2 * (a * b + d * c)) in *. set (m11 := 1 - 2 * (a * a + c * c)) in *.
  set (m12 := 2 * (b * c - d * a)) in *. set (m20 := 2 * (a * c - d * b)) in *.
  set (m21 := 2 * (b * c + d * a)) in *. set (m22 := 1 - 2 * (a * a + b * b)) in *.
  assert (d * d = 1 - a * a - b * b - c * c) as U' by lra.
  assert (m20 * m20 + m21 * m21 + m22 * m22 = 1) as Row
    by (subst m20 m21 m22; ring [U']).
  assert (m00 * m00 + m10 * m10 + m20 * m20 = 1) as Col
    by (subst m00 m10 m20; ring [U']).
  assert (m01 * (1 - m20 * m20) = - m20 * (m21 * m00) - m22 * m10) as C01
    by (subst m00 m01 m10 m20 m21 m22; ring [U']).
  assert (m02 * (1 - m20 * m20) = - m20 * (m22 * m00) + m21 * m10) as C02
    by (subst m00 m02 m10 m20 m21 m22; ring [U']).
  assert (m11 * (1 - m20 * m20) = - m20 * (m21 * m10) + m22 * m00) as C11
    by (subst m00 m11 m10 m20 m21 m22; ring [U']).
  assert (m12 * (1 - m20 * m20) = - m20 * (m22 * m10) - m21 * m00) as C12
    by (subst m00 m12 m10 m20 m21 m22; ring [U']).
  clearbody m00 m01 m02 m10 m11 m12 m20 m21 m22. clear U U' a b c d.
  assert (-1 < m20 < 1) as B by (apply Rabs_def2 in G; lra).
  assert (0 < 1 - m20 * m20) as P by nra.
  set (pitch := - asin m20).
  assert (sin pitch = - m20) as Sp
    by (unfold pitch; rewrite sin_neg, sin_asin by lra; reflexivity).
  assert (cos pitch = sqrt (1 - m20 * m20)) as Cp
    by (unfold pitch; rewrite cos_neg, cos_asin by lra; reflexivity).
  set (k := cos pitch) in *.
  assert (0 < k) as Kpos by (rewrite Cp; apply sqrt_lt_R0, P).
  assert (k * k = 1 - m20 * m20) as Ksq by (rewrite Cp; apply sqrt_sqrt; lra).
  destruct (sin_cos_atan2 (m21 / k) (m22 / k)) as [Sr Cr].
  { transitivity ((m21 * m21 + m22 * m22) / (k * k)); [field; lra |].
    rewrite Ksq. field_simplify_eq; lra. }
  destruct (sin_cos_atan2 (m10 / k) (m00 / k)) as [Sy Cy].
  { transitivity ((m10 * m10 + m00 * m00) / (k * k)); [field; lra |].
    rewrite Ksq. field_simplify_eq; lra. }
  unfold setRPY. cbv zeta. rewrite Sr, Cr, Sy, Cy, Sp. fold k.
  f_equal; f_equal.
  - field; lra.
  - transitivity ((- m20 * (m21 * m00) - m22 * m10) / (k * k)); [field; lra |].
    apply div_by_square; [exact Kpos | rewrite Ksq; exact C01].
  - transitivity ((- m20 * (m22 * m00) + m21 * m10) / (k * k)); [field; lra |].
    apply div_by_square; [exact Kpos | rewrite Ksq; exact C02].
  - field; lra.
  - transitivity ((- m20 * (m21 * m10) + m22 * m00) / (k * k)); [field; lra |].
    apply div_by_square; [exact Kpos | rewrite Ksq; exact C11].
  - transitivity ((- m20 * (m22 * m10) - m21 * m00) / (k * k)); [field; lra |].
    apply div_by_square; [exact Kpos | rewrite Ksq; exact C12].
  - ring.
  - field; lra.
  - field; lra.
Qed.

Lemma length2_permuted (q : Quaternion) : length2 (permuted q) = length2 q.
Proof. destruct q. unfold length2, permuted; cbn. ring. Qed.

(** C4, as the code has it.  For a quaternion q of length 1 whose pitch
    is not at the gimbal singularity, [toOutput (toInternal q)] is q or
    its opposite, the two unit quaternions of one orientation; over the
    reals the equality is exact. *)
Theorem roundtrip_up_to_sign (q : Quaternion) :
  length2 q = 1 -> ~ singular q ->
  toOutput (toInternal q) = q \/ toOutput (toInternal q) = qneg q.
Proof.
  intros U G. unfold singular in G.
  assert (length2 (permuted q) = 1) as Up by (rewrite length2_permuted; exact U).
  rewrite (setRotation_unit _ Up) in G.
  pose proof (setRPY_getRPY_unitMatrix _ _ _ _ Up G) as M.
  unfold toInternal. rewrite (setRotation_unit _ Up).
  destruct (getRPY _) as [[roll pitch] yaw].
  unfold toOutput. rewrite !Ropp_involutive.
  rewrite <- setRotation_createQuaternionFromRPY in M.
  rewrite (setRotation_unit _ (length2_createQuaternionFromRPY roll pitch yaw)) in M.
  apply eq_sym, unitMatrix_inj in M;
    [| exact Up | apply length2_createQuaternionFromRPY].
  destruct q as [a b c d]. unfold permuted, qneg in *. cbn [x y z w] in *.
  destruct M as [-> | ->]; [left | right]; cbn [x y z w];
    rewrite ?Ropp_involutive; reflexivity.
Qed.

(** C4 fails as stated at the unit quaternion (0, 0, 0, -1): its pitch
    is not singular and the round trip returns (0, 0, 0, 1), at distance
    2 from it in the last component. *)
Lemma roundtrip_negated_identity :
  let q := mkQuaternion 0 0 0 (-1) in
  length2 q = 1 /\ ~ singular q /\
  toOutput (toInternal q) = mkQuaternion 0 0 0 1 /\
  toOutput (toInternal q) <> q /\
  Rabs (w (toOutput (toInternal q)) - w q) = 2.
Proof.
  intro q.
  assert (toOutput (toInternal q) = mkQuaternion 0 0 0 1) as E.
  { unfold q. rewrite TfFacts.toInternal_identity by ring. apply TfFacts.toOutput_zero. }
  repeat split.
  - unfold q, length2; cbn. ring.
  - unfold singular, gimbal_locked, q, permuted. cbn [x y z w]. rewrite !Ropp_0.
    rewrite TfFacts.setRotation_identity by ring. cbn. rewrite Rabs_R0. lra.
  - exact E.
  - rewrite E. unfold q. intro C. injection C as C. lra.
  - rewrite E. unfold q. cbn. replace (1 - -1) with 2 by ring. apply Rabs_pos_eq. lra.
Qed.

Lemma roundtrip_up_to_sign_witness :
  let q := mkQuaternion 0 0 0 1 in
  toOutput (toInternal q) = q \/ toOutput (toInternal q) = qneg q.
Proof.
  apply (roundtrip_up_to_sign (mkQuaternion 0 0 0 1)).
  - unfold length2; cbn. ring.
  - unfold singular, gimbal_locked, permuted. cbn [x y z w]. rewrite !Ropp_0.
    rewrite TfFacts.setRotation_identity by ring. cbn. rewrite Rabs_R0. lra.
Defined.

End Roundtrip.

(** * Further properties of the two nodes *)

(** ** Arrivals, polls and the loop of the odometry node *)
Module Loop.
Import LaserOdometry OdometryLifecycle.
Section Node.
Context {Basic Cloud Raw : Type} {B : BasicLaserOdometry Basic Cloud Raw}.

Local Abbreviation LO := (@LaserOdometry Basic).

Lemma Stream_eqb_eq (i j : Stream) : Stream_eqb i j = true <-> i = j.
Proof. destruct i, j; cbn; split; intro H; try reflexivity; discriminate H. Qed.

Lemma Stream_eqb_refl (i : Stream) : Stream_eqb i i = true.
Proof. apply Stream_eqb_eq. reflexivity. Qed.

Lemma Stream_eqb_neq (i j : Stream) : i <> j -> Stream_eqb i j = false.
Proof.
  intro H. destruct (Stream_eqb i j) eqn:E; [| reflexivity].
  apply Stream_eqb_eq in E. contradiction.
Qed.

(** *** The slots after an arrival *)

Lemma stampOf_handler (i j : Stream) (msg : sensor_msgs.PointCloud2 Raw) (lo : LO) :
  stampOf j (handler i msg lo) =
    if Stream_eqb i j then sensor_msgs.header_stamp msg else stampOf j lo.
Proof. destruct i, j, lo; reflexivity. Qed.

Lemma newFlag_handler_eqb (i j : Stream) (msg : sensor_msgs.PointCloud2 Raw) (lo : LO) :
  newFlag j (handler i msg lo) = Stream_eqb i j || newFlag j lo.
Proof. destruct i, j, lo; reflexivity. Qed.

(** X1.  An arrival overwrites the slot of its stream and no other: the
    stamp of the stream is the stamp of the message and its flag is set,
    whatever was there before, and the stamp and flag of every other
    stream are as they were.  Of two arrivals on one stream the second
    is the one that stays. *)
Theorem arrival_overwrites_own_slot (i : Stream)
    (first second : sensor_msgs.PointCloud2 Raw) (lo : LO) :
  stampOf i (handler i second lo) = sensor_msgs.header_stamp second /\
  newFlag i (handler i second lo) = true /\
  stampOf i (handler i second (handler i first lo)) = sensor_msgs.header_stamp second /\
  Forall (fun j =>
            i = j \/
            (stampOf j (handler i second lo) = stampOf j lo /\
             newFlag j (handler i second lo) = newFlag j lo))
         allStreams.
Proof.
  rewrite !stampOf_handler, newFlag_handler_eqb, Stream_eqb_refl.
  repeat split.
  unfold allStreams.
  repeat (apply Forall_cons;
          [match goal with
           | |- i = ?j \/ _ =>
               destruct (Stream_eqb i j) eqn:E;
               [left; apply Stream_eqb_eq, E
               | right; rewrite stampOf_handler, newFlag_handler_eqb, E; split; reflexivity]
           end |]).
  apply Forall_nil.
Qed.

(** *** What a poll keeps *)

Lemma stampOf_reset (i : Stream) (lo : LO) : stampOf i (reset lo) = stampOf i lo.
Proof. destruct i, lo; reflexivity. Qed.

Lemma stampOf_basicProcess (i : Stream) (lo : LO) :
  stampOf i (lo <| base ::= basicProcess |>) = stampOf i lo.
Proof. destruct i, lo; reflexivity. Qed.

Lemma stampOf_publishResult (i : Stream) (lo : LO) :
  stampOf i (fst (publishResult lo)) = stampOf i lo.
Proof.
  unfold publishResult. destruct lo; cbn.
  destruct _outputTransforms0; cbn; destruct (_ || _); cbn; destruct i; reflexivity.
Qed.

Lemma stampOf_process (i : Stream) (lo : LO) :
  stampOf i (fst (process lo)) = stampOf i lo.
Proof.
  unfold process. destruct (hasNewData lo); cbn [negb fst]; [| reflexivity].
  rewrite stampOf_publishResult, stampOf_basicProcess. apply stampOf_reset.
Qed.

(** The settings of the node: the ratio, the names and the toggle. *)
Lemma settings_publishResult (lo : LO) :
  let lo' := fst (publishResult lo) in
  _ioRatio lo' = _ioRatio lo /\ _initFrame lo' = _initFrame lo /\
  _odomFrame lo' = _odomFrame lo /\ _loamOdomTopic lo' = _loamOdomTopic lo /\
  _lidarFrame lo' = _lidarFrame lo /\ _outputTransforms lo' = _outputTransforms lo.
Proof.
  unfold publishResult. destruct lo; cbn.
  destruct _outputTransforms0; cbn; destruct (_ || _); cbn; repeat split.
Qed.

(** X2.  A poll changes neither a stamp nor a setting of the node,
    whether it runs a cycle or not: the six stamps, the ratio, the four
    names and the transform toggle are after [process] what they were
    before. *)
Theorem process_keeps_stamps_and_settings (lo : LO) :
  let lo' := fst (process lo) in
  Forall (fun i => stampOf i lo' = stampOf i lo) allStreams /\
  _ioRatio lo' = _ioRatio lo /\ _initFrame lo' = _initFrame lo /\
  _odomFrame lo' = _odomFrame lo /\ _loamOdomTopic lo' = _loamOdomTopic lo /\
  _lidarFrame lo' = _lidarFrame lo /\ _outputTransforms lo' = _outputTransforms lo.
Proof.
  cbn zeta. split.
  - unfold allStreams. repeat (apply Forall_cons; [apply stampOf_process |]).
    apply Forall_nil.
  - unfold process. destruct (hasNewData lo); cbn [negb fst]; [| repeat split].
    pose proof (settings_publishResult (reset lo <| base ::= basicProcess |>)) as S.
    cbn zeta in S. destruct lo; cbn in *. exact S.
Qed.

(** X3.  A poll that follows a poll does nothing: the second [process]
    returns the node it was given and publishes nothing, whatever the
    first one did. *)
Theorem process_twice (lo : LO) :
  process (fst (process lo)) = (fst (process lo), []).
Proof.
  apply Gate.process_not_ready.
  destruct (hasNewData lo) eqn:E.
  - apply (Gate.hasNewData_needs_flag ImuTrans), Gate.newFlag_process_ready, E.
  - rewrite Gate.process_not_ready by exact E. exact E.
Qed.

(** *** What a cycle publishes *)

Lemma publishResult_tags (lo : LO) :
  Forall (fun p =>
            stampOfPublication p = _timeSurfPointsLessFlat lo /\
            match p with
            | pubLaserOdometry m => nav_msgs.position m = pos (transformSum (base lo))
            | sendTransform t => tf.origin t = pos (transformSum (base lo))
            | _ => fst (framesOfPublication p) = _lidarFrame lo
            end)
         (snd (publishResult lo)) /\
  transformCount (snd (publishResult lo)) = (if _outputTransforms lo then 1 else 0)%nat.
Proof.
  unfold publishResult. destruct lo; cbn.
  destruct (pos (transformSum base0)) as [px py pz] eqn:P. cbn.
  destruct _outputTransforms0; cbn; destruct (_ || _); cbn; split;
    repeat (apply Forall_cons; [split; reflexivity |]);
    first [apply Forall_nil | reflexivity].
Qed.

(** X4.  Every message of a cycle, the odometry message, the transform
    and the three clouds, is stamped with the stamp of the less-flat
    surface points the poll found; the odometry message and the
    transform carry the position of [transformSum] as the base class's
    [process] left it, the clouds carry the lidar frame; and
    [publishResult] broadcasts the transform once when
    [_outputTransforms] is set and not at all otherwise. *)
Theorem cycle_tags (lo : LO) :
  Forall (fun p =>
            stampOfPublication p = _timeSurfPointsLessFlat lo /\
            match p with
            | pubLaserOdometry m =>
                nav_msgs.position m = pos (transformSum (basicProcess (base lo)))
            | sendTransform t =>
                tf.origin t = pos (transformSum (basicProcess (base lo)))
            | _ => fst (framesOfPublication p) = _lidarFrame lo
            end)
         (snd (process lo)) /\
  transformCount (snd (publishResult lo)) = (if _outputTransforms lo then 1 else 0)%nat.
Proof.
  split; [| apply publishResult_tags].
  unfold process. destruct (hasNewData lo); cbn [negb]; [| apply Forall_nil].
  destruct (publishResult_tags (reset lo <| base ::= basicProcess |>)) as [T _].
  destruct lo; exact T.
Qed.

(** *** The rate of the loop *)

Lemma spinOnce_run (callbacks : list (Stream * sensor_msgs.PointCloud2 Raw))
    (es : list (@Event Raw)) (lo : LO) :
  run (map (fun cb => Arrival (fst cb) (snd cb)) callbacks ++ es) lo
  = run es (spinOnce callbacks lo).
Proof.
  revert lo. induction callbacks as [| cb cbs IH]; intro lo; [reflexivity |].
  cbn [map app run step spinOnce fold_left].
  specialize (IH (handler (fst cb) (snd cb) lo)). unfold spinOnce in IH.
  rewrite IH. destruct (run es _). reflexivity.
Qed.

(** The loop is the run of its events. *)
Lemma spin_run (turns : list (list (Stream * sensor_msgs.PointCloud2 Raw))) (lo : LO) :
  spin turns lo = run (eventsOf turns) lo.
Proof.
  revert lo. induction turns as [| cbs turns IH]; intro lo; [reflexivity |].
  cbn [spin eventsOf flat_map]. rewrite <- app_assoc, spinOnce_run.
  cbn [app run step]. destruct (process (spinOnce cbs lo)) as [lo1 out1].
  rewrite IH. reflexivity.
Qed.

Lemma poseCount_app (a b : list (@Publication Cloud)) :
  poseCount (a ++ b) = (poseCount a + poseCount b)%nat.
Proof. unfold poseCount. rewrite filter_app, length_app. reflexivity. Qed.

Lemma heavyCount_app (a b : list (@Publication Cloud)) :
  heavyCount (a ++ b) = (heavyCount a + heavyCount b)%nat.
Proof. unfold heavyCount. rewrite filter_app, length_app. reflexivity. Qed.

Lemma transformCount_app (a b : list (@Publication Cloud)) :
  transformCount (a ++ b) = (transformCount a + transformCount b)%nat.
Proof. unfold transformCount. rewrite filter_app, length_app. reflexivity. Qed.

Lemma publishResult_per_call (lo : LO) :
  poseCount (snd (publishResult lo)) = 1%nat /\
  (heavyCount (snd (publishResult lo)) <= 3)%nat /\
  (transformCount (snd (publishResult lo)) <= 1)%nat.
Proof.
  unfold publishResult. destruct lo; cbn.
  destruct _outputTransforms0; cbn; destruct (_ || _); cbn; repeat split; lia.
Qed.

Lemma process_per_call (lo : LO) :
  poseCount (snd (process lo)) = (if hasNewData lo then 1 else 0)%nat /\
  (heavyCount (snd (process lo)) <= 3 * poseCount (snd (process lo)))%nat /\
  (transformCount (snd (process lo)) <= poseCount (snd (process lo)))%nat.
Proof.
  destruct (hasNewData lo) eqn:E.
  - rewrite (Throttle.process_ready_output lo E).
    destruct (publishResult_per_call (reset lo <| base ::= basicProcess |>)) as (P & H & T).
    rewrite P. repeat split; lia.
  - rewrite (Gate.process_not_ready lo E). repeat split; cbn; lia.
Qed.

Lemma run_step (e : @Event Raw) (es : list (@Event Raw)) (lo : LO) :
  snd (run (e :: es) lo) = snd (step e lo) ++ snd (run es (fst (step e lo))).
Proof.
  cbn [run]. destruct (step e lo) as [lo1 out1]. cbn [fst snd].
  destruct (run es lo1). reflexivity.
Qed.

(** The cycles of a run against the arrivals of one stream. *)
Lemma run_cycles_le_arrivals (i : Stream) (es : list (@Event Raw)) (lo : LO) :
  (poseCount (snd (run es lo))
   <= arrivalCount i es + (if newFlag i lo then 1 else 0))%nat.
Proof.
  revert lo. induction es as [| e es IH]; intro lo.
  - cbn. lia.
  - rewrite run_step, poseCount_app. specialize (IH (fst (step e lo))).
    destruct e as [j msg |].
    + cbn [step fst snd] in *. rewrite newFlag_handler_eqb in IH.
      unfold arrivalCount in *. cbn [filter isArrivalOf].
      replace (Stream_eqb i j) with (Stream_eqb j i)
        by (destruct i, j; reflexivity).
      destruct (Stream_eqb j i); cbn [orb Datatypes.length] in *.
      * change (poseCount []) with 0%nat. destruct (newFlag i lo); lia.
      * change (poseCount []) with 0%nat. lia.
    + cbn [step] in *. unfold arrivalCount in *. cbn [filter isArrivalOf].
      destruct (process_per_call lo) as (P & _ & _). rewrite P.
      destruct (hasNewData lo) eqn:E.
      * rewrite Gate.newFlag_process_ready in IH by exact E.
        apply Gate.hasNewData_unfold in E. destruct E as [F _]. rewrite (F i).
        apply le_n_S in IH. rewrite Nat.add_0_r in IH. rewrite Nat.add_1_r. exact IH.
      * rewrite (Gate.process_not_ready lo E) in *. cbn [fst] in *.
        destruct (newFlag i lo); lia.
Qed.

Lemma run_counts (es : list (@Event Raw)) (lo : LO) :
  (poseCount (snd (run es lo)) <= pollCount es)%nat /\
  (heavyCount (snd (run es lo)) <= 3 * poseCount (snd (run es lo)))%nat /\
  (transformCount (snd (run es lo)) <= poseCount (snd (run es lo)))%nat.
Proof.
  revert lo. induction es as [| e es IH]; intro lo.
  - cbn. lia.
  - rewrite run_step, poseCount_app, heavyCount_app, transformCount_app.
    destruct (IH (fst (step e lo))) as (P & H & T).
    unfold pollCount in *. cbn [filter].
    destruct e as [j msg |]; cbn [step fst snd isPoll Datatypes.length] in *.
    + change (poseCount []) with 0%nat. change (heavyCount []) with 0%nat.
      change (transformCount []) with 0%nat. lia.
    + destruct (process_per_call lo) as (P1 & H1 & T1).
      destruct (hasNewData lo); lia.
Qed.

Lemma pollCount_eventsOf (turns : list (list (Stream * sensor_msgs.PointCloud2 Raw))) :
  pollCount (eventsOf turns) = List.length turns.
Proof.
  induction turns as [| cbs turns IH]; [reflexivity |].
  unfold pollCount, eventsOf in *. cbn [flat_map]. rewrite !filter_app, !length_app, IH.
  cbn. assert (filter isPoll (map (fun cb => Arrival (fst cb) (snd cb)) cbs) = []) as ->.
  { induction cbs; [reflexivity | cbn; assumption]. }
  cbn. lia.
Qed.

(** X5.  The loop completes at most one cycle per turn, and no more
    cycles than any one stream had arrivals, one more if the flag of
    that stream was set at the start; it publishes the three clouds at
    most once per cycle and the transform at most once per cycle. *)
Theorem spin_rate (turns : list (list (Stream * sensor_msgs.PointCloud2 Raw))) (lo : LO) :
  let out := snd (spin turns lo) in
  (poseCount out <= List.length turns)%nat /\
  Forall (fun i => (poseCount out
                    <= arrivalCount i (eventsOf turns) + (if newFlag i lo then 1 else 0))%nat)
         allStreams /\
  (heavyCount out <= 3 * poseCount out)%nat /\
  (transformCount out <= poseCount out)%nat.
Proof.
  cbn zeta. rewrite spin_run.
  destruct (run_counts (eventsOf turns) lo) as (P & H & T).
  rewrite pollCount_eventsOf in P.
  split; [exact P |]. split; [| split; assumption].
  unfold allStreams.
  repeat (apply Forall_cons; [apply run_cycles_le_arrivals |]). apply Forall_nil.
Qed.

End Node.
End Loop.

(** ** Names and frames of the odometry node *)
Module Names.
Import LaserOdometry OdometryLifecycle.
Section Node.
Context {Basic Cloud Raw : Type} {B : BasicLaserOdometry Basic Cloud Raw}.

Local Abbreviation LO := (@LaserOdometry Basic).

(** *** The blocks of [setup], one by one *)

Lemma andThen_inr (a b : @Block Basic) (lo r : LO) :
  andThen a b lo = inr r -> exists lo1, a lo = inr lo1 /\ b lo1 = inr r.
Proof.
  unfold andThen. destruct (a lo) as [l | l]; [discriminate |]. eauto.
Qed.

Lemma andThen_inl (a b : @Block Basic) (lo r : LO) :
  andThen a b lo = inl r -> a lo = inl r \/ exists lo1, a lo = inr lo1 /\ b lo1 = inl r.
Proof.
  unfold andThen. destruct (a lo) as [l | l]; [left; assumption | eauto].
Qed.

(** A block that validates a value and hands it to the base class
    changes neither a name nor a written frame, however it ends. *)
Lemma base_block_keeps {A : Type} (found : option A) (bad : A -> bool)
    (set : A -> Basic -> Basic) (lo r : LO) :
  let b := ifParam found (fun v =>
             if bad v then returnFalse else assign (fun lo => lo <| base ::= set v |>)) in
  b lo = inl r \/ b lo = inr r ->
  names r = names lo /\ writtenFrames r = writtenFrames lo /\ _ioRatio r = _ioRatio lo.
Proof.
  cbn zeta. unfold ifParam, returnFalse, assign. destruct lo.
  destruct found as [v |]; [destruct (bad v) |];
    intros [E | E]; inversion E; subst; repeat split.
Qed.

Lemma ioRatio_block (found : option Z) (lo r : LO) :
  let b := ifParam found (fun iParam =>
             if iParam <? 1 then returnFalse
             else assign (fun lo => lo <| _ioRatio := to_uint16 iParam |>)) in
  (b lo = inl r -> r = lo) /\
  (b lo = inr r ->
   names r = names lo /\ writtenFrames r = writtenFrames lo /\
   _ioRatio r = orKeep (option_map to_uint16 found) (_ioRatio lo) /\
   intOutOfRange found = false).
Proof.
  cbn zeta. unfold ifParam, returnFalse, assign, intOutOfRange. destruct lo.
  destruct found as [v |]; [destruct (v <? 1) |]; split;
    intros E; inversion E; subst; repeat split.
Qed.

(** The five copying blocks at the end of [setup] never return; they
    store the names and the toggle that are provided and write the two
    frame names into the message and the transform. *)
Lemma copy_blocks (node : NodeHandle) (lo : LO) :
  exists r,
    andThen (ifParam (getParam_string node "initFrame") (fun sParam =>
               assign (fun lo => lo <| _initFrame := sParam |>
                                    <| _laserOdometryMsg -> nav_msgs.header_frame_id := sParam |>
                                    <| _laserOdometryTrans -> tf.frame_id_ := sParam |>)))
   (andThen (ifParam (getParam_string node "odomFrame") (fun sParam =>
               assign (fun lo => lo <| _odomFrame := sParam |>
                                    <| _laserOdometryMsg -> nav_msgs.child_frame_id := sParam |>
                                    <| _laserOdometryTrans -> tf.child_frame_id_ := sParam |>)))
   (andThen (ifParam (getParam_string node "loamOdomTopic") (fun sParam =>
               assign (fun lo => lo <| _loamOdomTopic := sParam |>)))
   (andThen (ifParam (getParam_string node "lidarFrame") (fun sParam =>
               assign (fun lo => lo <| _lidarFrame := sParam |>)))
            (ifParam (getParam_bool node "outputTransforms") (fun bParam =>
               assign (fun lo => lo <| _outputTransforms := bParam |>)))))) lo = inr r /\
    names r =
      (orKeep (getParam_string node "initFrame") (_initFrame lo),
       orKeep (getParam_string node "odomFrame") (_odomFrame lo),
       orKeep (getParam_string node "loamOdomTopic") (_loamOdomTopic lo),
       orKeep (getParam_string node "lidarFrame") (_lidarFrame lo),
       orKeep (getParam_bool node "outputTransforms") (_outputTransforms lo)) /\
    writtenFrames r =
      (orKeep (getParam_string node "initFrame")
              (nav_msgs.header_frame_id (_laserOdometryMsg lo)),
       orKeep (getParam_string node "odomFrame")
              (nav_msgs.child_frame_id (_laserOdometryMsg lo)),
       orKeep (getParam_string node "initFrame") (tf.frame_id_ (_laserOdometryTrans lo)),
       orKeep (getParam_string node "odomFrame")
              (tf.child_frame_id_ (_laserOdometryTrans lo))) /\
    _ioRatio r = _ioRatio lo.
Proof.
  unfold andThen, ifParam, assign, names, writtenFrames.
  destruct lo as [b k f1 f2 f3 f4 o t1 t2 t3 t4 t5 t6 n1 n2 n3 n4 n5 n6 [] []].
  destruct (getParam_string node "initFrame"), (getParam_string node "odomFrame"),
    (getParam_string node "loamOdomTopic"), (getParam_string node "lidarFrame"),
    (getParam_bool node "outputTransforms");
    eexists; (split; [reflexivity |]); repeat split.
Qed.

(** How [setup] ends: on a return of false the names and the written
    frames are as they were; otherwise the validating blocks were all
    passed and the copying blocks ran. *)
Lemma setup_outcome (node privateNode : NodeHandle) (lo : LO) :
  let r := snd (setup node privateNode lo) in
  (fst (setup node privateNode lo) = false /\
   names r = names lo /\ writtenFrames r = writtenFrames lo /\
   (_ioRatio r = _ioRatio lo \/
    intOutOfRange (getParam_int privateNode "ioRatio") = false /\
    _ioRatio r = orKeep (option_map to_uint16 (getParam_int privateNode "ioRatio"))
                        (_ioRatio lo))) \/
  (fst (setup node privateNode lo) = true /\
   names r =
     (orKeep (getParam_string node "initFrame") (_initFrame lo),
      orKeep (getParam_string node "odomFrame") (_odomFrame lo),
      orKeep (getParam_string node "loamOdomTopic") (_loamOdomTopic lo),
      orKeep (getParam_string node "lidarFrame") (_lidarFrame lo),
      orKeep (getParam_bool node "outputTransforms") (_outputTransforms lo)) /\
   writtenFrames r =
     (orKeep (getParam_string node "initFrame")
             (nav_msgs.header_frame_id (_laserOdometryMsg lo)),
      orKeep (getParam_string node "odomFrame")
             (nav_msgs.child_frame_id (_laserOdometryMsg lo)),
      orKeep (getParam_string node "initFrame") (tf.frame_id_ (_laserOdometryTrans lo)),
      orKeep (getParam_string node "odomFrame")
             (tf.child_frame_id_ (_laserOdometryTrans lo))) /\
   intOutOfRange (getParam_int privateNode "ioRatio") = false /\
   _ioRatio r = orKeep (option_map to_uint16 (getParam_int privateNode "ioRatio"))
                       (_ioRatio lo)).
Proof.
  cbn zeta. unfold setup.
  match goal with |- context [match ?blocks lo with _ => _ end] =>
    destruct (blocks lo) as [r | r] eqn:E end; cbn [fst snd]; [left | right];
    (split; [reflexivity |]).
  - apply andThen_inl in E. destruct E as [E | (lo1 & E1 & E)].
    { destruct (base_block_keeps _ _ _ lo r (or_introl E)) as (N & W & K). auto. }
    destruct (base_block_keeps _ _ _ lo lo1 (or_intror E1)) as (N1 & W1 & K1).
    apply andThen_inl in E. destruct E as [E | (lo2 & E2 & E)].
    { apply (proj1 (ioRatio_block _ lo1 r)) in E. subst r. auto. }
    destruct (proj2 (ioRatio_block _ lo1 lo2) E2) as (N2 & W2 & K2 & R2).
    assert (names lo2 = names lo) as N by congruence.
    assert (writtenFrames lo2 = writtenFrames lo) as W by congruence.
    assert (_ioRatio lo2 = orKeep (option_map to_uint16 (getParam_int privateNode "ioRatio"))
                                  (_ioRatio lo)) as K by congruence.
    clear N1 W1 K1 N2 W2 K2 E1 E2.
    apply andThen_inl in E. destruct E as [E | (lo3 & E3 & E)].
    { destruct (base_block_keeps _ _ _ lo2 r (or_introl E)) as (N3 & W3 & K3).
      repeat split; try congruence. right. split; congruence. }
    destruct (base_block_keeps _ _ _ lo2 lo3 (or_intror E3)) as (N3 & W3 & K3).
    apply andThen_inl in E. destruct E as [E | (lo4 & E4 & E)].
    { destruct (base_block_keeps _ _ _ lo3 r (or_introl E)) as (N4 & W4 & K4).
      repeat split; try congruence. right. split; congruence. }
    destruct (base_block_keeps _ _ _ lo3 lo4 (or_intror E4)) as (N4 & W4 & K4).
    apply andThen_inl in E. destruct E as [E | (lo5 & E5 & E)].
    { destruct (base_block_keeps _ _ _ lo4 r (or_introl E)) as (N5 & W5 & K5).
      repeat split; try congruence. right. split; congruence. }
    destruct (copy_blocks node lo5) as (r' & C & _). congruence.
  - apply andThen_inr in E. destruct E as (lo0 & E0 & E).
    apply andThen_inr in E. destruct E as (lo1 & E1 & E).
    apply andThen_inr in E. destruct E as (lo2 & E2 & E).
    apply andThen_inr in E. destruct E as (lo3 & E3 & E).
    apply andThen_inr in E. destruct E as (lo4 & E4 & E).
    destruct (base_block_keeps _ _ _ _ _ (or_intror E0)) as (N1 & W1 & K1).
    destruct (proj2 (ioRatio_block _ _ _) E1) as (N2 & W2 & K2 & R2).
    destruct (base_block_keeps _ _ _ _ _ (or_intror E2)) as (N3 & W3 & K3).
    destruct (base_block_keeps _ _ _ _ _ (or_intror E3)) as (N4 & W4 & K4).
    destruct (base_block_keeps _ _ _ _ _ (or_intror E4)) as (N5 & W5 & K5).
    destruct (copy_blocks node lo4) as (r' & C & N & W & K).
    assert (r' = r) as -> by congruence.
    assert (names lo4 = names lo) as Nl by congruence.
    assert (writtenFrames lo4 = writtenFrames lo) as Wl by congruence.
    unfold names in Nl. unfold writtenFrames in Wl. inversion Nl. inversion Wl.
    repeat split; try assumption; congruence.
Qed.

(** X6.  When [setup] returns true, every name, the toggle and the ratio
    that the store provides are the ones the node holds afterwards, and
    those it does not provide are as they were; a provided initFrame or
    odomFrame is also written into the outgoing message and transform;
    a provided ratio of at most 65535 is held unchanged and is at
    least 1. *)
Theorem setup_stores_parameters (node privateNode : NodeHandle) (lo : LO) :
  fst (setup node privateNode lo) = true ->
  let r := snd (setup node privateNode lo) in
  names r =
    (orKeep (getParam_string node "initFrame") (_initFrame lo),
     orKeep (getParam_string node "odomFrame") (_odomFrame lo),
     orKeep (getParam_string node "loamOdomTopic") (_loamOdomTopic lo),
     orKeep (getParam_string node "lidarFrame") (_lidarFrame lo),
     orKeep (getParam_bool node "outputTransforms") (_outputTransforms lo)) /\
  writtenFrames r =
    (orKeep (getParam_string node "initFrame")
            (nav_msgs.header_frame_id (_laserOdometryMsg lo)),
     orKeep (getParam_string node "odomFrame")
            (nav_msgs.child_frame_id (_laserOdometryMsg lo)),
     orKeep (getParam_string node "initFrame") (tf.frame_id_ (_laserOdometryTrans lo)),
     orKeep (getParam_string node "odomFrame")
            (tf.child_frame_id_ (_laserOdometryTrans lo))) /\
  _ioRatio r = orKeep (option_map to_uint16 (getParam_int privateNode "ioRatio"))
                      (_ioRatio lo) /\
  (forall v, getParam_int privateNode "ioRatio" = Some v -> v <= 65535 ->
             _ioRatio r = v /\ 1 <= v).
Proof.
  intros T. cbn zeta.
  destruct (setup_outcome node privateNode lo) as [(F & _) | (_ & N & W & R & K)];
    [congruence |].
  repeat split; try assumption.
  - rewrite K, H. cbn. unfold intOutOfRange in R. rewrite H in R.
    apply Z.ltb_ge in R. unfold to_uint16. apply Z.mod_small. lia.
  - unfold intOutOfRange in R. rewrite H in R. apply Z.ltb_ge in R. exact R.
Qed.

(** X7.  When [setup] returns false, no name, no toggle and no written
    frame has changed: the blocks that can return stand before the
    blocks that copy them. *)
Theorem setup_failure_keeps_names (node privateNode : NodeHandle) (lo : LO) :
  fst (setup node privateNode lo) = false ->
  names (snd (setup node privateNode lo)) = names lo /\
  writtenFrames (snd (setup node privateNode lo)) = writtenFrames lo.
Proof.
  intros F.
  destruct (setup_outcome node privateNode lo) as [(_ & N & W & _) | (T & _)];
    [split; assumption | congruence].
Qed.

(** X8.  A return of false does not undo the blocks already run: with
    scanPeriod in range or absent, a provided ioRatio of at least 1 and
    a provided maxIterationsOdom below 1, [setup] returns false and the
    node holds the new ratio. *)
Theorem setup_failure_keeps_earlier_blocks (node privateNode : NodeHandle) (lo : LO)
    (v m : Z) :
  floatOutOfRange (getParam_float node "scanPeriod") = false ->
  getParam_int privateNode "ioRatio" = Some v -> 1 <= v ->
  getParam_int privateNode "maxIterationsOdom" = Some m -> m < 1 ->
  fst (setup node privateNode lo) = false /\
  _ioRatio (snd (setup node privateNode lo)) = to_uint16 v.
Proof.
  intros Hs Hv Hv1 Hm Hm1.
  assert ((v <? 1) = false) as Bv by (apply Z.ltb_ge; lia).
  assert ((m <? 1) = true) as Bm by (apply Z.ltb_lt; lia).
  unfold setup, andThen, ifParam, returnFalse, assign. rewrite Hv, Hm, Bv, Bm.
  unfold floatOutOfRange in Hs.
  destruct (getParam_float node "scanPeriod") as [f |]; [rewrite Hs |];
    destruct lo; split; reflexivity.
Qed.

(** *** The frame names in what the node publishes *)

Lemma framesAgree_iff (lo : LO) :
  framesAgree lo <->
  writtenFrames lo = (_initFrame lo, _odomFrame lo, _initFrame lo, _odomFrame lo).
Proof.
  unfold framesAgree, writtenFrames. split.
  - intros (-> & -> & -> & ->). reflexivity.
  - intro E. inversion E. repeat split.
Qed.

Lemma construct_framesAgree (ioRatio : Z) (lo : LO) : framesAgree (construct ioRatio lo).
Proof. destruct lo as [? ? ? ? ? ? ? ? ? ? ? ? ? ? ? ? ? ? ? [] []]. repeat split. Qed.

Lemma setup_framesAgree (node privateNode : NodeHandle) (lo : LO) :
  framesAgree lo -> framesAgree (snd (setup node privateNode lo)).
Proof.
  intro A. apply framesAgree_iff in A. apply framesAgree_iff.
  destruct (setup_outcome node privateNode lo)
    as [(_ & N & W & _) | (_ & N & W & _)]; cbn zeta in *.
  - unfold names in N. inversion N as [[I O T L G]]. rewrite W, A. congruence.
  - unfold names in N. inversion N as [[I O T L G]]. rewrite W, I, O.
    unfold writtenFrames in A. inversion A as [[a b c d]].
    destruct (getParam_string node "initFrame"), (getParam_string node "odomFrame");
      cbn [orKeep]; congruence.
Qed.

Lemma handler_keeps_names (i : Stream) (msg : sensor_msgs.PointCloud2 Raw) (lo : LO) :
  names (handler i msg lo) = names lo /\
  writtenFrames (handler i msg lo) = writtenFrames lo.
Proof. destruct i, lo; split; reflexivity. Qed.

Lemma publishResult_frames (lo : LO) :
  names (fst (publishResult lo)) = names lo /\
  writtenFrames (fst (publishResult lo)) = writtenFrames lo /\
  Forall (fun p =>
            match p with
            | pubLaserOdometry m =>
                (nav_msgs.header_frame_id m, nav_msgs.child_frame_id m)
                = (nav_msgs.header_frame_id (_laserOdometryMsg lo),
                   nav_msgs.child_frame_id (_laserOdometryMsg lo))
            | sendTransform t =>
                (tf.frame_id_ t, tf.child_frame_id_ t)
                = (tf.frame_id_ (_laserOdometryTrans lo),
                   tf.child_frame_id_ (_laserOdometryTrans lo))
            | _ => framesOfPublication p = (_lidarFrame lo, _lidarFrame lo)
            end)
         (snd (publishResult lo)).
Proof.
  unfold publishResult.
  destruct lo as [? ? ? ? ? ? o ? ? ? ? ? ? ? ? ? ? ? ? [] []]; cbn.
  destruct o; cbn; destruct (_ || _); cbn; repeat split;
    repeat (apply Forall_cons; [reflexivity |]); apply Forall_nil.
Qed.

Lemma process_frames (lo : LO) :
  framesAgree lo ->
  names (fst (process lo)) = names lo /\
  writtenFrames (fst (process lo)) = writtenFrames lo /\
  Forall (fun p =>
            framesOfPublication p =
              if isHeavy p then (_lidarFrame lo, _lidarFrame lo)
              else (_initFrame lo, _odomFrame lo))
         (snd (process lo)).
Proof.
  intros (A1 & A2 & A3 & A4).
  destruct (hasNewData lo) eqn:E;
    [| rewrite (Gate.process_not_ready lo E); repeat split; apply Forall_nil].
  destruct (publishResult_frames (reset lo <| base ::= basicProcess |>)) as (N & W & P).
  assert (process lo = publishResult (reset lo <| base ::= basicProcess |>)) as ->
    by (unfold process; rewrite E; reflexivity).
  rewrite N, W. split; [destruct lo; reflexivity |].
  split; [destruct lo; reflexivity |].
  eapply Forall_impl; [| exact P]. intros p Hp.
  destruct lo; destruct p; cbn in *; congruence.
Qed.

Lemma run_frames (es : list (@Event Raw)) (lo : LO) :
  framesAgree lo ->
  framesAgree (fst (run es lo)) /\
  names (fst (run es lo)) = names lo /\
  Forall (fun p =>
            framesOfPublication p =
              if isHeavy p then (_lidarFrame lo, _lidarFrame lo)
              else (_initFrame lo, _odomFrame lo))
         (snd (run es lo)).
Proof.
  revert lo. induction es as [| e es IH]; intros lo A.
  - repeat split; try apply A. apply Forall_nil.
  - rewrite Gate.run_cons, Loop.run_step.
    assert (framesAgree (fst (step e lo)) /\ names (fst (step e lo)) = names lo /\
            Forall (fun p => framesOfPublication p =
                               if isHeavy p then (_lidarFrame lo, _lidarFrame lo)
                               else (_initFrame lo, _odomFrame lo))
                   (snd (step e lo))) as (A' & N & P).
    { destruct e as [i msg |]; cbn [step fst snd].
      - destruct (handler_keeps_names i msg lo) as (N & W).
        split; [| split; [exact N | apply Forall_nil]].
        apply framesAgree_iff. apply framesAgree_iff in A.
        unfold names in N. inversion N as [[I O T L G]]. rewrite W, A. congruence.
      - destruct (process_frames lo A) as (N & W & P).
        split; [| split; assumption].
        apply framesAgree_iff. apply framesAgree_iff in A.
        unfold names in N. inversion N as [[I O T L G]]. rewrite W, A. congruence. }
    destruct (IH _ A') as (A2 & N2 & P2).
    split; [exact A2 |]. split; [congruence |].
    apply Forall_app. split; [exact P |].
    unfold names in N. injection N as I O T L Tg.
    eapply Forall_impl; [| exact P2]. intros p Hp. cbn beta in Hp.
    rewrite Hp, I, O, L. reflexivity.
Qed.

(** X9.  From construction on, through [setup] whatever it returns and
    through any arrivals and polls, the frame names written in the
    outgoing message and transform are the node's [_initFrame] and
    [_odomFrame]; every odometry message and transform the node
    publishes carries these two names, and every cloud the lidar
    frame. *)
Theorem published_frames (ioRatio : Z) (lo0 : LO) (node privateNode : NodeHandle)
    (es : list (@Event Raw)) :
  let lo := snd (setup node privateNode (construct ioRatio lo0)) in
  framesAgree lo /\
  framesAgree (fst (run es lo)) /\
  names (fst (run es lo)) = names lo /\
  Forall (fun p =>
            framesOfPublication p =
              if isHeavy p then (_lidarFrame lo, _lidarFrame lo)
              else (_initFrame lo, _odomFrame lo))
         (snd (run es lo)).
Proof.
  cbn zeta.
  assert (framesAgree (snd (setup node privateNode (construct ioRatio lo0)))) as A
    by apply setup_framesAgree, construct_framesAgree.
  split; [exact A | apply run_frames, A].
Qed.

End Node.

Lemma setup_stores_parameters_witness :
  LaserOdometry._ioRatio
    (snd (setup (B := Counting.basic) noParams (withInt "ioRatio" 3 noParams)
                (Counting.fresh 0 1))) = 3.
Proof.
  pose proof (setup_stores_parameters (B := Counting.basic) noParams
                (withInt "ioRatio" 3 noParams) (Counting.fresh 0 1) eq_refl) as H.
  cbv zeta in H. destruct H as (_ & _ & _ & H).
  destruct (H 3 eq_refl) as (E & _); [lia | exact E].
Defined.

Lemma setup_failure_keeps_names_witness :
  names (snd (setup (B := Counting.basic) noParams (withInt "ioRatio" 0 noParams)
                    (Counting.fresh 0 1)))
  = names (Counting.fresh 0 1).
Proof.
  apply (setup_failure_keeps_names (B := Counting.basic) noParams
           (withInt "ioRatio" 0 noParams) (Counting.fresh 0 1)).
  reflexivity.
Defined.

Lemma setup_failure_keeps_earlier_blocks_witness :
  let store := withInt "maxIterationsOdom" 0 (withInt "ioRatio" 3 noParams) in
  fst (setup (B := Counting.basic) noParams store (Counting.fresh 0 1)) = false /\
  LaserOdometry._ioRatio
    (snd (setup (B := Counting.basic) noParams store (Counting.fresh 0 1))) = to_uint16 3.
Proof.
  apply (setup_failure_keeps_earlier_blocks (B := Counting.basic) noParams
           (withInt "maxIterationsOdom" 0 (withInt "ioRatio" 3 noParams))
           (Counting.fresh 0 1) 3 0); try reflexivity; lia.
Defined.

End Names.

(** ** The transform maintenance node over its calls *)
Module Maintenance.
Import TransformMaintenance MaintenanceLifecycle.
Section Node.
Context {Basic : Type} {B : BasicTransformMaintenance Basic}.

Lemma construct_keeps_frames (tm : @TransformMaintenance Basic) : framesAgree (construct tm).
Proof. destruct tm as [? ? ? ? ? ? [] []]. repeat split. Qed.

Lemma setup_keeps_frames (node privateNode : NodeHandle) (tm : @TransformMaintenance Basic) :
  framesAgree tm -> framesAgree (snd (setup node privateNode tm)).
Proof.
  intros (A1 & A2 & A3 & A4). unfold setup.
  destruct tm as [? ? ? ? ? ? [] []]; cbn in *.
  destruct (getParam_string privateNode "loamOdomTopic"),
           (getParam_string privateNode "mapOdomTopic"),
           (getParam_string privateNode "lidarOdomTopic"),
           (getParam_string privateNode "initFrame"),
           (getParam_string privateNode "lidarFrame"); cbn; repeat split; assumption.
Qed.

(** What one call of the raw-pose handler leaves and hands out. *)
Lemma laserOdometryHandler_shape (params : GlobalParams) (unset : bool)
    (msg : nav_msgs.Odometry) (tm : @TransformMaintenance Basic) :
  let tm' := fst (laserOdometryHandler params unset msg tm) in
  snd (laserOdometryHandler params unset msg tm)
    = pubLaserOdometry2 (_laserOdometry2 tm')
      :: (if broadcasts params unset then [sendTransform (_laserOdometryTrans2 tm')] else []) /\
  nav_msgs.header_stamp (_laserOdometry2 tm') = nav_msgs.header_stamp msg /\
  (broadcasts params unset = true ->
   tf.stamp_ (_laserOdometryTrans2 tm') = nav_msgs.header_stamp msg /\
   tf.origin (_laserOdometryTrans2 tm') = nav_msgs.position (_laserOdometry2 tm') /\
   tf.rotation (_laserOdometryTrans2 tm') = nav_msgs.orientation (_laserOdometry2 tm')) /\
  (_initFrame tm', _lidarFrame tm') = (_initFrame tm, _lidarFrame tm) /\
  framesOfPublication (pubLaserOdometry2 (_laserOdometry2 tm'))
    = framesOfPublication (pubLaserOdometry2 (_laserOdometry2 tm)) /\
  framesOfPublication (sendTransform (_laserOdometryTrans2 tm'))
    = framesOfPublication (sendTransform (_laserOdometryTrans2 tm)).
Proof.
  unfold laserOdometryHandler, broadcasts.
  destruct (tf.getRPY _) as [[roll pitch] yaw].
  destruct tm as [? ? ? ? ? ? [] []]; cbn.
  destruct (match outputTransforms params with Some b => b | None => unset end);
    cbn; repeat split; discriminate.
Qed.

Lemma odomAftMappedHandler_keeps (msg : nav_msgs.Odometry) (tm : @TransformMaintenance Basic) :
  (_initFrame (odomAftMappedHandler msg tm), _lidarFrame (odomAftMappedHandler msg tm))
    = (_initFrame tm, _lidarFrame tm) /\
  _laserOdometry2 (odomAftMappedHandler msg tm) = _laserOdometry2 tm /\
  _laserOdometryTrans2 (odomAftMappedHandler msg tm) = _laserOdometryTrans2 tm.
Proof.
  unfold odomAftMappedHandler. destruct (tf.getRPY _) as [[roll pitch] yaw].
  destruct tm; repeat split.
Qed.

Lemma call_frames (c : Call) (tm : @TransformMaintenance Basic) :
  framesAgree tm ->
  framesAgree (fst (call c tm)) /\
  (_initFrame (fst (call c tm)), _lidarFrame (fst (call c tm)))
    = (_initFrame tm, _lidarFrame tm) /\
  Forall (fun p => framesOfPublication p = (_initFrame tm, _lidarFrame tm))
         (snd (call c tm)).
Proof.
  intros (A1 & A2 & A3 & A4). destruct c as [params unset msg | msg]; cbn [call fst snd].
  - destruct (laserOdometryHandler_shape params unset msg tm) as (E & _ & _ & N & F1 & F2).
    cbn zeta in *. cbn [framesOfPublication] in F1, F2.
    injection N as N1 N2. injection F1 as F11 F12. injection F2 as F21 F22.
    split; [unfold framesAgree; repeat split; congruence |].
    split; [congruence |].
    rewrite E. apply Forall_cons; [cbn; congruence |].
    destruct (broadcasts params unset); [| apply Forall_nil].
    apply Forall_cons; [cbn; congruence | apply Forall_nil].
  - destruct (odomAftMappedHandler_keeps msg tm) as (N & M & T).
    injection N as N1 N2.
    split; [unfold framesAgree; rewrite M, T; repeat split; congruence |].
    split; [congruence | apply Forall_nil].
Qed.

Lemma calls_cons (c : Call) (cs : list Call) (tm : @TransformMaintenance Basic) :
  fst (calls (c :: cs) tm) = fst (calls cs (fst (call c tm))) /\
  snd (calls (c :: cs) tm) = snd (call c tm) ++ snd (calls cs (fst (call c tm))).
Proof.
  cbn [calls]. destruct (call c tm) as [tm1 out1]. cbn [fst snd].
  destruct (calls cs tm1). split; reflexivity.
Qed.

Lemma calls_frames (cs : list Call) (tm : @TransformMaintenance Basic) :
  framesAgree tm ->
  framesAgree (fst (calls cs tm)) /\
  (_initFrame (fst (calls cs tm)), _lidarFrame (fst (calls cs tm)))
    = (_initFrame tm, _lidarFrame tm) /\
  Forall (fun p => framesOfPublication p = (_initFrame tm, _lidarFrame tm))
         (snd (calls cs tm)).
Proof.
  revert tm. induction cs as [| c cs IH]; intros tm A.
  - repeat split; try apply A. apply Forall_nil.
  - destruct (calls_cons c cs tm) as (-> & ->).
    destruct (call_frames c tm A) as (A' & N & P).
    destruct (IH _ A') as (A2 & N2 & P2).
    split; [exact A2 |]. split; [congruence |].
    apply Forall_app. split; [exact P |]. rewrite <- N. exact P2.
Qed.

(** X10.  From construction on, through [setup] and through any
    sequence of raw poses and corrections, the frame names written in
    the outgoing message and transform of the maintenance node are its
    [_initFrame] and [_lidarFrame], the handlers change neither name,
    and every message and transform the node publishes carries these
    two names. *)
Theorem maintenance_published_frames (tm0 : @TransformMaintenance Basic)
    (node privateNode : NodeHandle) (cs : list Call) :
  let tm := snd (setup node privateNode (construct tm0)) in
  framesAgree tm /\
  framesAgree (fst (calls cs tm)) /\
  (_initFrame (fst (calls cs tm)), _lidarFrame (fst (calls cs tm)))
    = (_initFrame tm, _lidarFrame tm) /\
  Forall (fun p => framesOfPublication p = (_initFrame tm, _lidarFrame tm))
         (snd (calls cs tm)).
Proof.
  cbn zeta.
  assert (framesAgree (snd (setup node privateNode (construct tm0)))) as A
    by apply setup_keeps_frames, construct_keeps_frames.
  split; [exact A | apply calls_frames, A].
Qed.

Lemma call_stamps (c : Call) (tm : @TransformMaintenance Basic) :
  poseStamps (snd (call c tm)) = rawStamps [c] /\
  (transformCount (snd (call c tm)) <= List.length (rawStamps [c]))%nat /\
  Forall (fun p => In (stampOfPublication p) (rawStamps [c])) (snd (call c tm)).
Proof.
  destruct c as [params unset msg | msg]; cbn [call fst snd].
  - destruct (laserOdometryHandler_shape params unset msg tm) as (E & S & T & _).
    cbn zeta in *. rewrite E. unfold poseStamps, transformCount, rawStamps.
    set (tm' := fst (laserOdometryHandler params unset msg tm)) in *.
    destruct (broadcasts params unset); cbn.
    + destruct (T eq_refl) as (T1 & _). rewrite S.
      split; [reflexivity |]. split; [lia |].
      repeat (apply Forall_cons; [cbn; rewrite ?S, ?T1; left; reflexivity |]).
      apply Forall_nil.
    + rewrite S. split; [reflexivity |]. split; [lia |].
      repeat (apply Forall_cons; [cbn; rewrite ?S; left; reflexivity |]).
      apply Forall_nil.
  - cbn. split; [reflexivity |]. split; [lia | apply Forall_nil].
Qed.

Lemma one_pose_stamps_of_call (params : GlobalParams) (unset : bool)
    (msg : nav_msgs.Odometry) (tm : @TransformMaintenance Basic) :
  Forall (fun p => stampOfPublication p = nav_msgs.header_stamp msg)
         (snd (laserOdometryHandler params unset msg tm)).
Proof.
  destruct (call_stamps (RawPose params unset msg) tm) as (_ & _ & S).
  eapply Forall_impl; [| exact S]. intros p [Hp | []]. symmetry. exact Hp.
Qed.

Lemma rawStamps_cons (c : Call) (cs : list Call) :
  rawStamps (c :: cs) = rawStamps [c] ++ rawStamps cs.
Proof. unfold rawStamps. cbn [flat_map]. rewrite app_nil_r. reflexivity. Qed.

(** X11.  Over any sequence of calls the node publishes one odometry
    message for each raw pose, in the order of the raw poses and with
    their stamps; a correction publishes nothing; there are at most as
    many transforms as raw poses, and every publication carries the
    stamp of a raw pose of the sequence. *)
Theorem one_pose_per_raw_pose (cs : list Call) (tm : @TransformMaintenance Basic) :
  poseStamps (snd (calls cs tm)) = rawStamps cs /\
  (transformCount (snd (calls cs tm)) <= List.length (rawStamps cs))%nat /\
  Forall (fun p => In (stampOfPublication p) (rawStamps cs)) (snd (calls cs tm)).
Proof.
  revert tm. induction cs as [| c cs IH]; intro tm.
  - cbn. split; [reflexivity |]. split; [lia | apply Forall_nil].
  - destruct (calls_cons c cs tm) as (_ & ->).
    destruct (call_stamps c tm) as (P1 & T1 & S1).
    destruct (IH (fst (call c tm))) as (P2 & T2 & S2).
    rewrite rawStamps_cons. unfold poseStamps, transformCount in *.
    rewrite !filter_app, map_app, !length_app, P1, P2.
    split; [reflexivity |]. split; [lia |].
    apply Forall_app. split.
    + eapply Forall_impl; [| exact S1]. intros p Hp. apply in_or_app. left. exact Hp.
    + eapply Forall_impl; [| exact S2]. intros p Hp. apply in_or_app. right. exact Hp.
Qed.

(** *** The covariance of the odometry message *)

Lemma length_assignAt (n : nat) (v : R) (l : list R) :
  List.length (assignAt n v l) = List.length l.
Proof.
  revert n. induction l as [| h t IH]; intros [| n]; cbn; try reflexivity.
  rewrite IH. reflexivity.
Qed.

Lemma nth_assignAt (n j : nat) (v d : R) (l : list R) :
  (n < List.length l)%nat ->
  nth j (assignAt n v l) d = if Nat.eqb j n then v else nth j l d.
Proof.
  revert n j. induction l as [| h t IH]; intros n j H; cbn in H; [lia |].
  destruct n as [| n], j as [| j]; cbn; try reflexivity.
  apply IH. lia.
Qed.

Lemma laserOdometryHandler_covariance (params : GlobalParams) (unset : bool)
    (msg : nav_msgs.Odometry) (tm : @TransformMaintenance Basic) :
  let pc := poseCovariance params in
  nav_msgs.covariance (_laserOdometry2 (fst (laserOdometryHandler params unset msg tm)))
  = assignAt 35 (nth 5 pc 0%R)
      (assignAt 28 (nth 4 pc 0%R)
      (assignAt 21 (nth 3 pc 0%R)
      (assignAt 14 (nth 2 pc 0%R)
      (assignAt 7 (nth 1 pc 0%R)
      (assignAt 0 (nth 0 pc 0%R) (nav_msgs.covariance (_laserOdometry2 tm))))))).
Proof.
  unfold laserOdometryHandler, poseCovariance.
  destruct (tf.getRPY _) as [[roll pitch] yaw].
  destruct tm as [? ? ? ? ? ? [] []].
  destruct (match outputTransforms params with Some b => b | None => unset end);
    reflexivity.
Qed.

(** X12.  On a 36-cell covariance and a covariance vector of at least
    six numbers, the raw-pose handler writes the six numbers on the
    diagonal of the 6 by 6 covariance of the message it publishes,
    cells 0, 7, 14, 21, 28 and 35, and leaves the thirty other cells as
    the previous call left them. *)
Theorem covariance_diagonal (params : GlobalParams) (unset : bool)
    (msg : nav_msgs.Odometry) (tm : @TransformMaintenance Basic) :
  List.length (nav_msgs.covariance (_laserOdometry2 tm)) = 36%nat ->
  (6 <= List.length (poseCovariance params))%nat ->
  let tm' := fst (laserOdometryHandler params unset msg tm) in
  let c' := nav_msgs.covariance (_laserOdometry2 tm') in
  (exists rest, snd (laserOdometryHandler params unset msg tm)
                = pubLaserOdometry2 (_laserOdometry2 tm') :: rest) /\
  List.length c' = 36%nat /\
  Forall (fun j =>
            nth j c' 0%R =
              if Nat.eqb (j mod 7) 0 then nth (j / 7) (poseCovariance params) 0%R
              else nth j (nav_msgs.covariance (_laserOdometry2 tm)) 0%R)
         (seq 0 36).
Proof.
  intros L _. cbn zeta.
  destruct (laserOdometryHandler_shape params unset msg tm) as (E & _).
  split; [eexists; exact E |].
  rewrite laserOdometryHandler_covariance. cbn zeta.
  split; [rewrite !length_assignAt; exact L |].
  cbn [seq].
  repeat (apply Forall_cons;
          [rewrite !nth_assignAt by (rewrite ?length_assignAt, L; lia); reflexivity |]).
  apply Forall_nil.
Qed.

End Node.

Lemma covariance_diagonal_witness :
  List.length
    (nav_msgs.covariance
       (_laserOdometry2
          (fst (laserOdometryHandler (B := Holding.basic) (mkGlobalParams None None) false
                  Holding.blankOdometry2 Holding.fresh)))) = 36%nat.
Proof.
  apply (covariance_diagonal (B := Holding.basic) (mkGlobalParams None None) false
           Holding.blankOdometry2 Holding.fresh); cbn; [reflexivity | lia].
Defined.

End Maintenance.

(** ** The two conversions as inverses, and between the two nodes *)
Module Convention.
Import tf FrameConvention.
Local Open Scope R_scope.

(** *** [atan2] of a sine and a cosine *)

Lemma atan2_range (b a : R) : - PI < atan2 b a <= PI.
Proof.
  pose proof PI_RGT_0 as HP. unfold atan2.
  destruct (Rlt_dec 0 a) as [Ha | Ha].
  - pose proof (atan_bound (b / a)). lra.
  - destruct (Rlt_dec a 0) as [Ha' | Ha'].
    + pose proof (atan_bound (b / a)) as Hb.
      assert (/ a < 0) as Hi by (apply Rinv_lt_0_compat; exact Ha').
      destruct (Rle_dec 0 b) as [Hb0 | Hb0].
      * assert (atan (b / a) <= 0).
        { destruct (Req_dec b 0) as [-> | Hne].
          - unfold Rdiv. rewrite Rmult_0_l, atan_0. lra.
          - left. rewrite <- atan_0. apply atan_increasing. unfold Rdiv. nra. }
        lra.
      * assert (0 < atan (b / a)).
        { rewrite <- atan_0. apply atan_increasing. unfold Rdiv. nra. }
        lra.
    + destruct (Rlt_dec 0 b); [lra |]. destruct (Rlt_dec b 0); lra.
Qed.

Lemma angle_unique (u v : R) :
  - PI < u <= PI -> - PI < v <= PI -> sin u = sin v -> cos u = cos v -> u = v.
Proof.
  intros Hu Hv Hs Hc. pose proof PI_RGT_0 as HP.
  set (h := (u - v) / 2).
  assert (sin h * sin h = 0) as Z.
  { assert (cos (u - v) = 1) as C1.
    { rewrite cos_minus, Hs, Hc. pose proof (sin2_cos2 v) as E. unfold Rsqr in E. lra. }
    replace (u - v) with (2 * h) in C1 by (unfold h; field).
    rewrite cos_2a_sin in C1. lra. }
  assert (sin h = 0) as Z0 by (apply Rsqr_0_uniq; exact Z).
  assert (- PI < h < PI) as Hh by (unfold h; lra).
  assert (h = 0) as H0.
  { destruct (Rle_dec 0 h) as [P | N].
    - destruct (sin_eq_O_2PI_0 h) as [E | [E | E]]; lra.
    - assert (sin (- h) = 0) as Z1 by (rewrite sin_neg, Z0; ring).
      destruct (sin_eq_O_2PI_0 (- h)) as [E | [E | E]]; lra. }
  unfold h in H0. lra.
Qed.

Lemma atan2_sin_cos (t : R) : - PI < t <= PI -> atan2 (sin t) (cos t) = t.
Proof.
  intro Ht.
  assert (sin t * sin t + cos t * cos t = 1) as C
    by (pose proof (sin2_cos2 t) as E; unfold Rsqr in E; exact E).
  destruct (Roundtrip.sin_cos_atan2 (sin t) (cos t) C) as [S K].
  apply angle_unique; auto using atan2_range.
Qed.

(** [getRPY] reads back the angles [setRPY] was given, away from the
    pitch singularity and with roll and yaw in the range of [atan2]. *)
Lemma getRPY_setRPY (r p y : R) :
  - PI < r <= PI -> - (PI / 2) < p < PI / 2 -> - PI < y <= PI ->
  getRPY (setRPY r p y) = (r, p, y).
Proof.
  intros Hr Hp Hy.
  assert (0 < cos p) as Cp by (apply cos_gt_0; lra).
  assert (Rabs (sin p) < 1) as Sp.
  { pose proof (sin2_cos2 p) as E. unfold Rsqr in E.
    apply Rabs_def1; nra. }
  unfold getRPY, setRPY. cbn [vx vy vz m0 m1 m2].
  destruct (Rle_dec 1 (Rabs (- sin p))) as [C | _];
    [rewrite Rabs_Ropp in C; lra |].
  assert (- asin (- sin p) = p) as ->.
  { rewrite <- sin_neg, asin_sin by lra. ring. }
  replace (cos p * sin r / cos p) with (sin r) by (field; lra).
  replace (cos p * cos r / cos p) with (cos r) by (field; lra).
  replace (cos p * sin y / cos p) with (sin y) by (field; lra).
  replace (cos p * cos y / cos p) with (cos y) by (field; lra).
  rewrite !atan2_sin_cos by assumption. reflexivity.
Qed.

Lemma permuted_toOutput (rx ry rz : R) :
  permuted (toOutput (rx, ry, rz)) = createQuaternionFromRPY rz (- rx) (- ry).
Proof.
  unfold permuted, toOutput. cbv zeta.
  destruct (createQuaternionFromRPY rz (- rx) (- ry)) as [a b c d]. cbn.
  f_equal; ring.
Qed.

(** Roll, pitch and yaw of the permuted quaternion of [toOutput]. *)
Lemma getRPY_toOutput (rx ry rz : R) :
  - (PI / 2) < rx < PI / 2 -> - PI <= ry < PI -> - PI < rz <= PI ->
  getRPY (setRotation (permuted (toOutput (rx, ry, rz)))) = (rz, - rx, - ry).
Proof.
  intros Hx Hy Hz.
  rewrite permuted_toOutput, Roundtrip.setRotation_createQuaternionFromRPY.
  apply getRPY_setRPY; lra.
Qed.

(** X13.  [toInternal] undoes [toOutput]: for internal angles with rx
    strictly between -PI/2 and PI/2, ry in [-PI, PI) and rz in
    (-PI, PI], the angles read from the quaternion [toOutput] builds are
    the angles it was built from. *)
Theorem toInternal_toOutput (rx ry rz : R) :
  - (PI / 2) < rx < PI / 2 -> - PI <= ry < PI -> - PI < rz <= PI ->
  toInternal (toOutput (rx, ry, rz)) = (rx, ry, rz).
Proof.
  intros Hx Hy Hz. unfold toInternal.
  rewrite getRPY_toOutput by assumption.
  rewrite !Ropp_involutive. reflexivity.
Qed.

(** X14.  Every quaternion [toOutput] builds has length 1, whatever the
    angles are, and it is not at the pitch singularity exactly when
    the sine of rx is strictly between -1 and 1. *)
Theorem toOutput_unit (rx ry rz : R) :
  length2 (toOutput (rx, ry, rz)) = 1 /\
  (singular (toOutput (rx, ry, rz)) <-> 1 <= Rabs (sin rx)).
Proof.
  split.
  - rewrite <- Roundtrip.length2_permuted, permuted_toOutput.
    apply Roundtrip.length2_createQuaternionFromRPY.
  - unfold singular.
    rewrite permuted_toOutput, Roundtrip.setRotation_createQuaternionFromRPY.
    unfold gimbal_locked, setRPY. cbn [vx m2].
    rewrite sin_neg, Ropp_involutive. reflexivity.
Qed.

Lemma setRotation_qscale (s : R) (q : Quaternion) :
  s <> 0 -> length2 q <> 0 -> setRotation (qscale s q) = setRotation q.
Proof.
  intros Hs Hq. destruct q as [a b c d]. unfold length2 in Hq. cbn in Hq.
  assert (s * a * (s * a) + s * b * (s * b) + s * c * (s * c) + s * d * (s * d) <> 0) as Hd.
  { replace (s * a * (s * a) + s * b * (s * b) + s * c * (s * c) + s * d * (s * d))
      with (s * s * (a * a + b * b + c * c + d * d)) by ring.
    repeat apply Rmult_integral_contrapositive_currified; assumption. }
  unfold setRotation, qscale, length2. cbn.
  f_equal; f_equal; field; split; assumption.
Qed.

(** X15.  The angles [toInternal] reads do not depend on the length or
    the sign of the quaternion: a non-zero quaternion multiplied by a
    non-zero number, and in particular its opposite, gives the same
    angles. *)
Theorem toInternal_scale (s : R) (q : Quaternion) :
  s <> 0 -> length2 q <> 0 ->
  toInternal (qscale s q) = toInternal q /\
  toInternal (qneg q) = toInternal q.
Proof.
  intros Hs Hq.
  assert (forall k, k <> 0 -> toInternal (qscale k q) = toInternal q) as K.
  { intros k Hk. unfold toInternal.
    replace (permuted (qscale k q)) with (qscale k (permuted q))
      by (destruct q; unfold permuted, qscale; cbn; f_equal; ring).
    rewrite setRotation_qscale;
      [reflexivity | exact Hk | rewrite Roundtrip.length2_permuted; exact Hq]. }
  split; [apply K, Hs |].
  replace (qneg q) with (qscale (- 1) q)
    by (destruct q; unfold qneg, qscale; cbn; f_equal; ring).
  apply K. lra.
Qed.

Section BetweenNodes.
Context {Basic Cloud Raw : Type} {B : BasicLaserOdometry Basic Cloud Raw}.
Context {BasicT : Type} {BT : BasicTransformMaintenance BasicT}.

Lemma publishResult_message (lo : @LaserOdometry.LaserOdometry Basic)
    (m : nav_msgs.Odometry) :
  In (LaserOdometry.pubLaserOdometry m) (snd (LaserOdometry.publishResult lo)) ->
  nav_msgs.orientation m
    = toOutput (rot_x (transformSum (LaserOdometry.base lo)),
                rot_y (transformSum (LaserOdometry.base lo)),
                rot_z (transformSum (LaserOdometry.base lo))) /\
  nav_msgs.position m = pos (transformSum (LaserOdometry.base lo)) /\
  nav_msgs.header_stamp m = LaserOdometry._timeSurfPointsLessFlat lo.
Proof.
  unfold LaserOdometry.publishResult, toOutput. destruct lo; cbn.
  destruct (pos (transformSum base)) as [px py pz] eqn:P. cbn.
  destruct _outputTransforms; cbn; destruct (_ || _); cbn; intro H;
    repeat (destruct H as [H | H];
            [first [discriminate H | injection H as <-; repeat split] |]);
    destruct H.
Qed.

(** X16.  From the odometry node to the maintenance node: when the
    rotation of [transformSum] has rx strictly between -PI/2 and PI/2,
    ry in [-PI, PI) and rz in (-PI, PI], the odometry message that
    [publishResult] publishes, received by [laserOdometryHandler],
    hands [updateOdometry] the three angles and the position of
    [transformSum], and what the maintenance node then publishes is
    stamped with the stamp of the less-flat surface points of the
    cycle. *)
Theorem odometry_reaches_maintenance (lo : @LaserOdometry.LaserOdometry Basic)
    (params : GlobalParams) (unset : bool) (m : nav_msgs.Odometry)
    (tm : @TransformMaintenance.TransformMaintenance BasicT) :
  let s := transformSum (LaserOdometry.base lo) in
  In (LaserOdometry.pubLaserOdometry m) (snd (LaserOdometry.publishResult lo)) ->
  - (PI / 2) < rot_x s < PI / 2 -> - PI <= rot_y s < PI -> - PI < rot_z s <= PI ->
  TransformMaintenance.base (fst (TransformMaintenance.laserOdometryHandler params unset m tm))
    = transformAssociateToMap
        (updateOdometry (rot_x s) (rot_y s) (rot_z s)
                        (vx (pos s)) (vy (pos s)) (vz (pos s))
                        (TransformMaintenance.base tm)) /\
  Forall (fun p => MaintenanceLifecycle.stampOfPublication p
                   = LaserOdometry._timeSurfPointsLessFlat lo)
         (snd (TransformMaintenance.laserOdometryHandler params unset m tm)).
Proof.
  cbn zeta. intros H Hx Hy Hz.
  destruct (publishResult_message lo m H) as (O & P & S).
  split.
  - rewrite Adapter.laserOdometryHandler_base. cbn zeta.
    rewrite O, P. unfold toInternal. rewrite getRPY_toOutput by assumption.
    cbn [fst snd]. rewrite !Ropp_involutive. reflexivity.
  - rewrite <- S. apply Maintenance.one_pose_stamps_of_call.
Qed.

End BetweenNodes.

Lemma toInternal_toOutput_witness : toInternal (toOutput (0, 0, 0)) = (0, 0, 0).
Proof.
  pose proof PI_RGT_0. apply (toInternal_toOutput 0 0 0); lra.
Defined.

Lemma toInternal_scale_witness :
  toInternal (qscale 2 (mkQuaternion 0 0 0 1)) = toInternal (mkQuaternion 0 0 0 1).
Proof.
  apply (toInternal_scale 2 (mkQuaternion 0 0 0 1)); [lra |].
  unfold length2; cbn; lra.
Defined.

Lemma odometry_reaches_maintenance_witness :
  TransformMaintenance.base
    (fst (TransformMaintenance.laserOdometryHandler (B := Holding.basic)
            (mkGlobalParams None None) false
            (LaserOdometry._laserOdometryMsg
               (fst (LaserOdometry.publishResult (B := Counting.basic) (Counting.fresh 1 2))))
            Holding.fresh))
  = [0; 0; 0; 0; 0; 0].
Proof.
  pose proof PI_RGT_0.
  apply (odometry_reaches_maintenance (B := Counting.basic) (BT := Holding.basic)
           (Counting.fresh 1 2) (mkGlobalParams None None) false _ Holding.fresh);
    cbn; try lra.
  left. reflexivity.
Defined.

End Convention.

(** ** The raw pose through the composer before any correction *)
Module Passthrough.
Import tf FrameConvention PoseComposer.
Local Open Scope R_scope.

Local Abbreviation handle :=
  (TransformMaintenance.laserOdometryHandler
     (B := PoseComposer.basic rotationOfAngles anglesOfRotation)).

(** Away from the pitch singularity the angles [toInternal] reads lie
    where [toOutput] is undone. *)
Lemma toInternal_ranges (q : Quaternion) :
  ~ singular q ->
  exists rx ry rz,
    toInternal q = (rx, ry, rz) /\
    - (PI / 2) < rx < PI / 2 /\ - PI <= ry < PI /\ - PI < rz <= PI.
Proof.
  unfold singular, gimbal_locked, toInternal, getRPY. intro G.
  destruct (Rle_dec 1 (Rabs (vx (m2 (setRotation (permuted q)))))) as [C | _];
    [contradiction |].
  apply Rnot_le_lt, Rabs_def2 in G.
  set (m := setRotation (permuted q)) in *.
  eexists _, _, _. split; [reflexivity |].
  assert (-1 < vx (m2 m) < 1) as G' by lra.
  pose proof (asin_bound_lt (vx (m2 m)) G') as A.
  pose proof (Convention.atan2_range
                (vy (m2 m) / cos (- asin (vx (m2 m))))
                (vz (m2 m) / cos (- asin (vx (m2 m))))) as R1.
  pose proof (Convention.atan2_range
                (vx (m1 m) / cos (- asin (vx (m2 m))))
                (vx (m0 m) / cos (- asin (vx (m2 m))))) as R2.
  repeat split; lra.
Qed.

(** The two conversions of the composer give back the internal angles
    of a quaternion that is not at the pitch singularity. *)
Lemma anglesOfRotation_rotationOfAngles (q : Quaternion) :
  ~ singular q ->
  anglesOfRotation (rotationOfAngles (toInternal q)) = toInternal q.
Proof.
  intro G. destruct (toInternal_ranges q G) as (rx & ry & rz & -> & Hx & Hy & Hz).
  unfold anglesOfRotation, rotationOfAngles, toInternal.
  rewrite Convention.getRPY_toOutput by assumption.
  rewrite !Ropp_involutive. reflexivity.
Qed.

(** The quaternion of the angles of a unit quaternion is that quaternion
    or its opposite. *)
Lemma same_orientation (q : Quaternion) :
  length2 q = 1 -> ~ singular q ->
  toOutput (toInternal q) = q \/ toOutput (toInternal q) = qneg q.
Proof.
  intros U G. unfold singular in G.
  assert (length2 (permuted q) = 1) as Up
    by (rewrite Roundtrip.length2_permuted; exact U).
  rewrite (Roundtrip.setRotation_unit _ Up) in G.
  pose proof (Roundtrip.setRPY_getRPY_unitMatrix _ _ _ _ Up G) as M.
  unfold toInternal. rewrite (Roundtrip.setRotation_unit _ Up).
  destruct (getRPY _) as [[roll pitch] yaw].
  unfold toOutput. rewrite !Ropp_involutive.
  rewrite <- Roundtrip.setRotation_createQuaternionFromRPY in M.
  rewrite (Roundtrip.setRotation_unit _
             (Roundtrip.length2_createQuaternionFromRPY roll pitch yaw)) in M.
  apply eq_sym, Roundtrip.unitMatrix_inj in M;
    [| exact Up | apply Roundtrip.length2_createQuaternionFromRPY].
  destruct q as [a b c d]. unfold permuted, qneg in *. cbn [x y z w] in *.
  destruct M as [-> | ->]; [left | right]; cbn [x y z w];
    rewrite ?Ropp_involutive; reflexivity.
Qed.



End Passthrough.
